(** * Image-edit command line tool: request building, response decoding, paths

    A shallow embedding of the Go program [cmd/generate/main.go] and of its
    older sibling, the root [main.go], together with the parts of the Go
    standard library they call ([path/filepath] on Unix, [strings] with
    [unicode/utf8], [encoding/base64], [flag], [mime/multipart],
    [os.WriteFile]).

    Go strings and byte slices are both sequences of bytes; they are
    modelled as [list ascii].  Everything the programs obtain from outside
    (the environment and the file [.env], random boundary, map iteration
    order, the HTTP answer and the redirects before it, the credential
    chain) is a field of the [Env] record; the file store, in which several
    names may lead to one file, and the log of external calls make up the
    [State] the programs thread through a state and error monad.  A run is
    a function of the command line. *)

From Stdlib Require Import Ascii String.
From Stdlib Require Import List NArith ZArith Arith Lia Zify Bool Permutation.
From Stdlib Require Import DecimalString.
Import ListNotations.

(** ** Byte strings *)

Definition gostring := list ascii.

Declare Scope go_scope.
Delimit Scope go_scope with go.
Notation "` s" := (String.list_ascii_of_string s%string)
  (at level 1, s at level 0, format "` s") : go_scope.
Open Scope go_scope.
Open Scope char_scope.
Open Scope nat_scope.
Open Scope list_scope.

Fixpoint bytes_eqb (a b : gostring) : bool :=
  match a, b with
  | [], [] => true
  | x :: a', y :: b' => Ascii.eqb x y && bytes_eqb a' b'
  | _, _ => false
  end.

Definition isEmpty (s : gostring) : bool :=
  match s with [] => true | _ :: _ => false end.

Fixpoint dropWhile (f : ascii -> bool) (l : gostring) : gostring :=
  match l with
  | [] => []
  | c :: t => if f c then dropWhile f t else l
  end.

Fixpoint takeWhile (f : ascii -> bool) (l : gostring) : gostring :=
  match l with
  | [] => []
  | c :: t => if f c then c :: takeWhile f t else []
  end.

(** ** Package [unicode/utf8]

    Runes are numbers; a byte that starts no valid sequence decodes as
    [RuneError] of width 1. *)

Module utf8.

Definition RuneError : N := 0xFFFD.
Definition RuneSelf : N := 0x80.

Definition b (c : ascii) : N := N_of_ascii c.

(** The table [first] with [acceptRanges]: for the first byte of a
    sequence, its length and the range of the second byte. *)
Inductive firstInfo : Type :=
| ASCII
| Invalid
| Lead (size : nat) (lo hi : N).

Definition first (s0 : N) : firstInfo :=
  (if s0 <? 0x80 then ASCII
   else if s0 <? 0xC2 then Invalid
   else if s0 <? 0xE0 then Lead 2 0x80 0xBF
   else if s0 =? 0xE0 then Lead 3 0xA0 0xBF
   else if s0 =? 0xED then Lead 3 0x80 0x9F
   else if s0 <? 0xF0 then Lead 3 0x80 0xBF
   else if s0 =? 0xF0 then Lead 4 0x90 0xBF
   else if s0 <? 0xF4 then Lead 4 0x80 0xBF
   else if s0 =? 0xF4 then Lead 4 0x80 0x8F
   else Invalid)%N.

(** A continuation byte, between [locb] and [hicb]. *)
Definition continuation (x : N) : bool := ((0x80 <=? x) && (x <=? 0xBF))%N.

(** [func DecodeRuneInString(s string) (rune, int)]. *)
Definition DecodeRuneInString (s : gostring) : N * nat :=
  match s with
  | [] => (RuneError, 0)
  | c0 :: t =>
    let s0 := b c0 in
    match first s0 with
    | ASCII => (s0, 1)
    | Invalid => (RuneError, 1)
    | Lead sz lo hi =>
      if length s <? sz then (RuneError, 1)
      else
        match t with
        | [] => (RuneError, 1)
        | c1 :: t1 =>
          let s1 := b c1 in
          if ((s1 <? lo) || (hi <? s1))%N then (RuneError, 1)
          else if sz <=? 2 then
            (N.lor (N.shiftl (N.land s0 0x1F) 6) (N.land s1 0x3F), 2)
          else
            match t1 with
            | [] => (RuneError, 1)
            | c2 :: t2 =>
              let s2 := b c2 in
              if negb (continuation s2) then (RuneError, 1)
              else if sz <=? 3 then
                (N.lor (N.lor (N.shiftl (N.land s0 0x0F) 12)
                              (N.shiftl (N.land s1 0x3F) 6))
                       (N.land s2 0x3F), 3)
              else
                match t2 with
                | [] => (RuneError, 1)
                | c3 :: _ =>
                  let s3 := b c3 in
                  if negb (continuation s3) then (RuneError, 1)
                  else
                    (N.lor (N.lor (N.lor (N.shiftl (N.land s0 0x07) 18)
                                         (N.shiftl (N.land s1 0x3F) 12))
                                  (N.shiftl (N.land s2 0x3F) 6))
                           (N.land s3 0x3F), 4)
                end
            end
        end
    end
  end.

(** [func RuneStart(b byte) bool]. *)
Definition RuneStart (c : ascii) : bool := negb (N.land (b c) 0xC0 =? 0x80)%N.

(** The loop of [DecodeLastRuneInString] that moves [start] down from
    [end - 2], at most three times, to a byte that may start a rune:
    [before] is [s[:start+1]] reversed, [acc] is [s[start+1:end]]; the
    result is [s[start:end]] for the [start] the loop ends with (one below
    the limit when no byte qualified, 0 when that is negative). *)
Fixpoint lastRuneWindow (n : nat) (before : list ascii) (acc : gostring)
  : gostring :=
  match before with
  | [] => acc
  | c :: before' =>
    match n with
    | O => c :: acc
    | S n' =>
      if RuneStart c then c :: acc else lastRuneWindow n' before' (c :: acc)
    end
  end.

(** [func DecodeLastRuneInString(s string) (rune, int)]. *)
Definition DecodeLastRuneInString (s : gostring) : N * nat :=
  match rev s with
  | [] => (RuneError, 0)
  | last :: before =>
    if (b last <? RuneSelf)%N then (b last, 1)
    else
      let window := lastRuneWindow 3 before [last] in
      let (r, size) := DecodeRuneInString window in
      if size =? length window then (r, size) else (RuneError, 1)
  end.

End utf8.

(** ** Package [unicode] *)

Module unicode.

(** [func IsSpace(r rune) bool]: the Latin-1 cases and the table
    [White_Space]. *)
Definition IsSpace (r : N) : bool :=
  (((0x09 <=? r) && (r <=? 0x0D))
   || (r =? 0x20) || (r =? 0x85) || (r =? 0xA0) || (r =? 0x1680)
   || ((0x2000 <=? r) && (r <=? 0x200A))
   || (r =? 0x2028) || (r =? 0x2029) || (r =? 0x202F) || (r =? 0x205F)
   || (r =? 0x3000))%N.

End unicode.

(** ** Package [strings] *)

Module strings.

(** [func HasSuffix(s, suffix string) bool] :
    [len(s) >= len(suffix) && s[len(s)-len(suffix):] == suffix]. *)
Definition HasSuffix (s suffix : gostring) : bool :=
  (length suffix <=? length s)
  && bytes_eqb (skipn (length s - length suffix) s) suffix.

(** [func TrimSuffix(s, suffix string) string]. *)
Definition TrimSuffix (s suffix : gostring) : gostring :=
  if HasSuffix s suffix then firstn (length s - length suffix) s else s.

(** [func Join(elems []string, sep string) string]. *)
Fixpoint Join (elems : list gostring) (sep : gostring) : gostring :=
  match elems with
  | [] => []
  | [e] => e
  | e :: rest => e ++ sep ++ Join rest sep
  end.

(** The table [asciiSpace]. *)
Definition asciiSpace (c : ascii) : bool :=
  match c with
  | " " | "009" | "010" | "011" | "012" | "013" => true
  | _ => false
  end.

(** [indexFunc(s, unicode.IsSpace, false)] inside [TrimLeftFunc]: the range
    loop decodes one rune after the other; what is left from the first rune
    that is not white space on.  Every turn takes at least one byte. *)
Fixpoint TrimLeftFunc_loop (fuel : nat) (s : gostring) : gostring :=
  match fuel with
  | O => s
  | S fuel' =>
    match s with
    | [] => []
    | _ :: _ =>
      let (r, size) := utf8.DecodeRuneInString s in
      if unicode.IsSpace r then TrimLeftFunc_loop fuel' (skipn size s) else s
    end
  end.

(** [func TrimLeftFunc(s string, f func(rune) bool) string] at
    [unicode.IsSpace]. *)
Definition TrimLeftFunc (s : gostring) : gostring :=
  TrimLeftFunc_loop (length s) s.

(** [lastIndexFunc(s, unicode.IsSpace, false)]: [i] runs down from
    [len(s)]; the index of the last rune that is not white space, or
    [None] for [-1]. *)
Fixpoint lastIndexFunc_loop (fuel : nat) (s : gostring) (i : nat) : option nat :=
  match fuel with
  | O => None
  | S fuel' =>
    if i =? 0 then None
    else
      let (r, size) := utf8.DecodeLastRuneInString (firstn i s) in
      if unicode.IsSpace r then lastIndexFunc_loop fuel' s (i - size)
      else Some (i - size)
  end.

(** [func TrimRightFunc(s string, f func(rune) bool) string] at
    [unicode.IsSpace]: the rune found last is kept whole, its width being
    decoded forwards. *)
Definition TrimRightFunc (s : gostring) : gostring :=
  match lastIndexFunc_loop (length s) s (length s) with
  | None => []
  | Some i =>
    if utf8.RuneSelf <=? utf8.b (nth i s "000")
    then firstn (i + snd (utf8.DecodeRuneInString (skipn i s))) s
    else firstn (S i) s
  end%N.

(** [func TrimFunc(s string, f func(rune) bool) string] at
    [unicode.IsSpace]. *)
Definition TrimFunc (s : gostring) : gostring :=
  TrimRightFunc (TrimLeftFunc s).

(** The second loop of [TrimSpace], over [s[start:stop]] reversed: [stop]
    moves down over ASCII white space; a byte that is not ASCII hands over
    to [TrimRightFunc]. *)
Fixpoint TrimSpace_stop (r : list ascii) : gostring :=
  match r with
  | [] => []
  | c :: t =>
    if (utf8.RuneSelf <=? utf8.b c)%N then TrimRightFunc (rev r)
    else if asciiSpace c then TrimSpace_stop t
    else rev r
  end.

(** The first loop of [TrimSpace], over [s[start:]]: [start] moves up over
    ASCII white space; a byte that is not ASCII hands over to [TrimFunc]. *)
Fixpoint TrimSpace_start (s : gostring) : gostring :=
  match s with
  | [] => []
  | c :: t =>
    if (utf8.RuneSelf <=? utf8.b c)%N then TrimFunc s
    else if asciiSpace c then TrimSpace_start t
    else TrimSpace_stop (rev s)
  end.

(** [func TrimSpace(s string) string]. *)
Definition TrimSpace (s : gostring) : gostring := TrimSpace_start s.

End strings.

(** ** Package [path/filepath], Unix flavour

    The separator is the slash and there are no volume names.  The loops of
    [Ext], [Base] and [Dir] walk the string from its last byte towards the
    first; here they run over the reversed byte list. *)

Module filepath.

Definition Separator : ascii := "/".

Definition IsPathSeparator (c : ascii) : bool := Ascii.eqb c Separator.

Definition notSep (c : ascii) : bool := negb (IsPathSeparator c).

(** The [..] case of [Clean]: [out.w--] and then
    [for out.w > dotdot && !IsPathSeparator(out.index(out.w)) { out.w-- }].
    The buffer is kept reversed; [c] is the byte at index [out.w]. *)
Fixpoint back_loop (dotdot : nat) (c : ascii) (out : list ascii) : list ascii :=
  if (dotdot <? length out) && notSep c
  then match out with
       | c' :: out' => back_loop dotdot c' out'
       | [] => []
       end
  else out.

Definition backtrack (dotdot : nat) (out : list ascii) : list ascii :=
  match out with
  | [] => []
  | c :: out' => back_loop dotdot c out'
  end.

Definition startsElem (t : gostring) : bool :=
  match t with
  | [] => true
  | c :: _ => IsPathSeparator c
  end.

(** The main loop of [Clean].  [rest] is [path[r:]], [out] the reversed
    output buffer (so [out.w] is its length), [dotdot] the index where a
    [..] must stop.  Every turn consumes at least one byte, so the length
    of the path is enough fuel. *)
Fixpoint clean_loop (fuel : nat) (rooted : bool) (rest : gostring)
         (out : list ascii) (dotdot : nat) : list ascii :=
  match fuel with
  | O => out
  | S fuel' =>
    match rest with
    | [] => out
    | c :: t =>
      if IsPathSeparator c then
        (* empty path element *)
        clean_loop fuel' rooted t out dotdot
      else if Ascii.eqb c "." && startsElem t then
        (* . element *)
        clean_loop fuel' rooted t out dotdot
      else if Ascii.eqb c "." && Ascii.eqb (hd "000" t) "."
              && startsElem (tl t) then
        (* .. element: remove to last separator *)
        if dotdot <? length out then
          clean_loop fuel' rooted (tl t) (backtrack dotdot out) dotdot
        else if negb rooted then
          let out1 := if 0 <? length out then Separator :: out else out in
          let out2 := "." :: "." :: out1 in
          clean_loop fuel' rooted (tl t) out2 (length out2)
        else
          clean_loop fuel' rooted (tl t) out dotdot
      else
        (* real path element: add slash if needed, copy element *)
        let out1 :=
          if (rooted && negb (length out =? 1))
             || (negb rooted && negb (length out =? 0))
          then Separator :: out else out in
        let elem := takeWhile notSep rest in
        clean_loop fuel' rooted (dropWhile notSep rest)
                   (rev elem ++ out1) dotdot
    end
  end.

(** [func Clean(path string) string]. *)
Definition Clean (path : gostring) : gostring :=
  match path with
  | [] => `"."
  | c :: t =>
    let rooted := IsPathSeparator c in
    let out :=
      if rooted
      then clean_loop (length path) rooted t [Separator] 1
      else clean_loop (length path) rooted path [] 0 in
    (* Turn empty string into "." *)
    rev (if length out =? 0 then ["."] else out)
  end.

(** [func Join(elem ...string) string] : the elements from the first
    non-empty one on, joined by the separator and cleaned. *)
Fixpoint Join (elem : list gostring) : gostring :=
  match elem with
  | [] => []
  | e :: rest =>
    if isEmpty e then Join rest
    else Clean (strings.Join elem [Separator])
  end.

(** [func Ext(path string) string] :
    [for i := len(path)-1; i >= 0 && !IsPathSeparator(path[i]); i--]
    returning [path[i:]] at the first dot met.  [tail] is [path[i+1:]]. *)
Fixpoint Ext_loop (rpath : list ascii) (tail : gostring) : gostring :=
  match rpath with
  | [] => []
  | c :: r =>
    if IsPathSeparator c then []
    else if Ascii.eqb c "." then c :: tail
    else Ext_loop r (c :: tail)
  end.

Definition Ext (path : gostring) : gostring := Ext_loop (rev path) [].

(** [func Base(path string) string]. *)
Definition Base (path : gostring) : gostring :=
  if isEmpty path then `"."
  else
    (* Strip trailing slashes. *)
    let rp := dropWhile IsPathSeparator (rev path) in
    (* Find the last element. *)
    let elem := rev (takeWhile notSep rp) in
    (* If empty now, it had only slashes. *)
    if isEmpty elem then [Separator] else elem.

(** [func Dir(path string) string] : [Clean(path[:i+1])] with [i] the
    index of the last separator. *)
Definition Dir (path : gostring) : gostring :=
  Clean (rev (dropWhile notSep (rev path))).

End filepath.

(** ** [deriveOutputPath] *)

Definition generatedSuffix : gostring := `"_generated".

(** [func deriveOutputPath(input string) string]. *)
Definition deriveOutputPath (input : gostring) : gostring :=
  let dir := filepath.Dir input in
  let ext := filepath.Ext input in
  let name := strings.TrimSuffix (filepath.Base input) ext in
  filepath.Join [dir; name ++ generatedSuffix ++ ext].

(** ** Package [encoding/base64], [StdEncoding]

    The standard alphabet with padding character [=], not strict. *)

Module base64.

Definition encodeStd : gostring :=
  `"ABCDEFGHIJKLMNOPQRSTUVWXYZabcdefghijklmnopqrstuvwxyz0123456789+/".

Definition padChar : ascii := "=".

(** [enc.encode[i]]. *)
Definition encode (i : N) : ascii := nth (N.to_nat i) encodeStd padChar.

Fixpoint index_of (c : ascii) (l : gostring) (i : N) : option N :=
  match l with
  | [] => None
  | x :: t => if Ascii.eqb x c then Some i else index_of c t (N.succ i)
  end.

(** [enc.decodeMap[in]]; [None] stands for the entry [0xff]. *)
Definition decodeMap (c : ascii) : option N := index_of c encodeStd 0%N.

(** [byte(x)]: the low eight bits. *)
Definition byte (x : N) : ascii := ascii_of_N (N.land x 255).

Definition uint (c : ascii) : N := N_of_ascii c.

(** [Encode]: three source bytes give four output bytes; the last one or
    two bytes give two or three, padded to four. *)
Fixpoint EncodeToString (src : gostring) : gostring :=
  match src with
  | [] => []
  | [a] =>
    let val := N.shiftl (uint a) 16 in
    [encode (N.land (N.shiftr val 18) 63);
     encode (N.land (N.shiftr val 12) 63);
     padChar; padChar]
  | [a; b] =>
    let val := N.lor (N.shiftl (uint a) 16) (N.shiftl (uint b) 8) in
    [encode (N.land (N.shiftr val 18) 63);
     encode (N.land (N.shiftr val 12) 63);
     encode (N.land (N.shiftr val 6) 63);
     padChar]
  | a :: b :: c :: rest =>
    let val := N.lor (N.lor (N.shiftl (uint a) 16) (N.shiftl (uint b) 8))
                     (uint c) in
    encode (N.land (N.shiftr val 18) 63)
    :: encode (N.land (N.shiftr val 12) 63)
    :: encode (N.land (N.shiftr val 6) 63)
    :: encode (N.land val 63)
    :: EncodeToString rest
  end.

Definition isNewline (c : ascii) : bool :=
  Ascii.eqb c "010" || Ascii.eqb c "013".

(** The end of [decodeQuantum]: the [dlen] six-bit values read (missing
    ones are zero) are packed in 24 bits, of which the first [dlen - 1]
    bytes are output. *)
Definition quantum_bytes (dlen : nat) (dbuf : list N) : gostring :=
  let val :=
    N.lor (N.lor (N.lor (N.shiftl (nth 0 dbuf 0%N) 18)
                        (N.shiftl (nth 1 dbuf 0%N) 12))
                 (N.shiftl (nth 2 dbuf 0%N) 6))
          (nth 3 dbuf 0%N) in
  firstn (dlen - 1)
         [byte (N.shiftr val 16); byte (N.shiftr val 8); byte val].

(** What [Decode] returns: the bytes, or a [CorruptInputError] with the
    offset of the byte at fault. *)
Inductive decoded : Type :=
| Decoded (dst : gostring)
| CorruptInputError (offset : nat).

(** The loop of [Decode] ([for si < len(src)]) with the loop of
    [decodeQuantum] inside it: [src] is [src[si:]], [j] and [dbuf] are
    those of the quantum being read; when a quantum is complete its bytes
    are output and the next one starts with [j = 0]. *)
Fixpoint Decode_loop (src : gostring) (si : nat) (j : nat) (dbuf : list N)
  : decoded :=
  match src with
  | [] =>
    (* len(src) == si *)
    match j with
    | O => Decoded []
    | _ => CorruptInputError (si - j)
    end
  | c :: rest =>
    match decodeMap c with
    | Some out =>
      let dbuf' := dbuf ++ [out] in
      if j =? 3 then
        match Decode_loop rest (S si) 0 [] with
        | Decoded tl => Decoded (quantum_bytes 4 dbuf' ++ tl)
        | CorruptInputError n => CorruptInputError n
        end
      else Decode_loop rest (S si) (S j) dbuf'
    | None =>
      if isNewline c then Decode_loop rest (S si) j dbuf
      else if negb (Ascii.eqb c padChar) then CorruptInputError si
      else
        (* We've reached the end and there's padding *)
        match j with
        | 0 | 1 => CorruptInputError si   (* incorrect padding *)
        | 2 =>
          (* "==" is expected, the first "=" is already consumed. *)
          let rest1 := dropWhile isNewline rest in
          let si1 := S si + (length rest - length rest1) in
          match rest1 with
          | [] => CorruptInputError si1   (* not enough padding *)
          | p :: rest2 =>
            if negb (Ascii.eqb p padChar) then CorruptInputError (si1 - 1)
            else
              let rest3 := dropWhile isNewline rest2 in
              if isEmpty rest3
              then Decoded (quantum_bytes 2 dbuf)
              else
                (* trailing garbage *)
                CorruptInputError (S si1 + (length rest2 - length rest3))
          end
        | _ =>
          let rest1 := dropWhile isNewline rest in
          if isEmpty rest1
          then Decoded (quantum_bytes j dbuf)
          else
            (* trailing garbage *)
            CorruptInputError (S si + (length rest - length rest1))
        end
    end
  end.

(** [func (enc *Encoding) Decode(dst, src []byte) (n int, err error)],
    without the bytes written before an error. *)
Definition Decode (src : gostring) : decoded := Decode_loop src 0 0 [].

(** [func (enc *Encoding) DecodeString(s string) ([]byte, error)]: the
    bytes when the error is nil. *)
Definition DecodeString (s : gostring) : option gostring :=
  match Decode s with
  | Decoded dst => Some dst
  | CorruptInputError _ => None
  end.

End base64.

(** ** Results, the file store, external events *)

Inductive Result (A : Type) : Type :=
| Ok (a : A)
| Err (msg : gostring).

Arguments Ok {A} a.
Arguments Err {A} msg.

(** What a path names: a regular file with its contents, a directory, or
    a file that exists ([os.Stat] succeeds) but cannot be opened. *)
Inductive node : Type :=
| RegularFile (data : gostring)
| Directory
| NoAccess.

(** The file store, as the system calls of the programs see it.  Several
    names may lead to one file (hard links, symbolic links, other spellings
    of a path): [canon] gives each name the name its file is kept under in
    [nodes].  A name that leads to nothing fails with [ENOENT], or with the
    error [missing] has for it ([ENOTDIR] below a regular file, [ELOOP],
    ...). *)
Record FS : Type := {
  canon : gostring -> gostring;
  nodes : gostring -> option node;
  missing : gostring -> option gostring
}.

(** What a name leads to. *)
Definition lookup (f : FS) (path : gostring) : option node :=
  nodes f (canon f path).

Coercion lookup : FS >-> Funclass.

(** The text of the error for a name that leads to nothing. *)
Definition lookupError (f : FS) (path : gostring) : gostring :=
  match missing f path with
  | Some e => e
  | None => `"no such file or directory"
  end.

(** The store with another node at [path], that is under every name of
    the same file. *)
Definition fs_update (fs : FS) (path : gostring) (n : node) : FS :=
  {| canon := canon fs;
     nodes := fun q => if bytes_eqb q (canon fs path) then Some n else nodes fs q;
     missing := missing fs |}.

(** The outgoing request, as [main] sets it up. *)
Record Request : Type := {
  req_url : gostring;
  req_authorization : gostring;
  req_contentType : gostring;
  req_body : gostring
}.

(** Calls that leave the process, in the order they are made.  [EvDo] is
    the call [client.Do(req)]; [EvRedirect] is a request the client sends
    on its own before [Do] returns, when a server answers with a
    redirect. *)
Inductive Event : Type :=
| EvReadFile (path : gostring)
| EvMkdirAll (path : gostring)
| EvExec (name : gostring) (args : list gostring)
| EvNewDefaultAzureCredential
| EvGetToken (scopes : list gostring)
| EvOpen (path : gostring)
| EvDo (req : Request)
| EvRedirect (req : Request)
| EvWriteFile (path data : gostring).

Record State : Type := {
  fs : FS;
  log : list Event
}.

Definition emit (e : Event) (st : State) : State :=
  {| fs := fs st; log := log st ++ [e] |}.

(** The state after more events were logged. *)
Definition logged (st : State) (evs : list Event) : State :=
  {| fs := fs st; log := log st ++ evs |}.

(** How a child process ends. *)
Inductive ProcExit : Type :=
| Exited (code : nat) (stdout stderr : gostring).

(** What [http.NewRequest], [client.Do] (after the redirects it follows)
    and [io.ReadAll] give; the status code of the answer is not looked
    at. *)
Inductive HttpResult : Type :=
| NewRequestError (msg : gostring)
| DoError (msg : gostring)
| ReadAllError (msg : gostring)
| ResponseBody (body : gostring).

(** Iteration order of the three-entry map literal in
    [buildMultipartBody]; Go leaves it unspecified. *)
Inductive MapOrder : Type :=
| PromptNSize | PromptSizeN | NPromptSize | NSizePrompt | SizePromptN | SizeNPrompt.

(** ** Response envelope *)

Record apiError : Type := {
  Message : gostring;
  Type_ : gostring;
  Code : gostring
}.

Record imageDatum : Type := {
  B64JSON : gostring
}.

Record imageEditResponse : Type := {
  Data : list imageDatum;
  Error : option apiError
}.

(** Everything the environment decides. *)
Record Env : Type := {
  (** [os.LookupEnv] when the program starts. *)
  e_lookupenv : gostring -> option gostring;
  (** The parser of [godotenv] on the bytes of a file: the variables it
      finds, or its error. *)
  e_dotenv : gostring -> Result (gostring -> option gostring);
  (** Outcome of [os.MkdirAll] on a path that names nothing: the text of
      its error (it names the path, or the ancestor that could not be
      made), [None] for success. *)
  e_mkdir : gostring -> option gostring;
  (** Programs found on [$PATH]. *)
  e_binary : gostring -> option (list gostring -> ProcExit);
  (** [azidentity.NewDefaultAzureCredential]: [None] is success. *)
  e_credential : option gostring;
  (** [cred.GetToken] for the given scopes. *)
  e_token : list gostring -> Result gostring;
  (** The thirty bytes [multipart.NewWriter] reads from [crypto/rand]. *)
  e_rand : gostring;
  e_order : MapOrder;
  (** [mime.TypeByExtension]. *)
  e_mime : gostring -> gostring;
  e_http : Request -> HttpResult;
  (** The requests the client sends after the first one, when servers
      answer with redirects, before [client.Do] returns. *)
  e_hops : Request -> list Request;
  (** [json.Unmarshal] into an [imageEditResponse]. *)
  e_unmarshal : gostring -> Result imageEditResponse;
  (** [os.OpenFile] for writing: [None] is success. *)
  e_openw : gostring -> option gostring;
  (** Number of bytes the device takes before a write fails, if any. *)
  e_wcap : option nat;
  (** [f.Close]: [None] is success. *)
  e_close : option gostring
}.

(** ** A state and error monad *)

Definition M (A : Type) : Type := State -> Result A * State.

Definition ret {A} (a : A) : M A := fun st => (Ok a, st).

Definition fail {A} (msg : gostring) : M A := fun st => (Err msg, st).

Definition bind {A B} (m : M A) (k : A -> M B) : M B :=
  fun st =>
    match m st with
    | (Ok a, st') => k a st'
    | (Err e, st') => (Err e, st')
    end.

Definition tell (e : Event) : M unit := fun st => (Ok tt, emit e st).

Definition tellAll (evs : list Event) : M unit := fun st => (Ok tt, logged st evs).

Definition get_fs : M FS := fun st => (Ok (fs st), st).

Definition put_fs (f : FS) : M unit :=
  fun st => (Ok tt, {| fs := f; log := log st |}).

(** [wrap prefix m]: [fmt.Errorf(prefix + ": %w", err)] on failure. *)
Definition wrap {A} (prefix : gostring) (m : M A) : M A :=
  fun st =>
    match m st with
    | (Ok a, st') => (Ok a, st')
    | (Err e, st') => (Err (prefix ++ `": " ++ e), st')
    end.

Declare Scope monad_scope.
Delimit Scope monad_scope with monad.
Notation "x <- m ;; k" := (bind m (fun x => k))
  (at level 61, m at next level, right associativity) : monad_scope.
Notation "m ;;; k" := (bind m (fun _ => k))
  (at level 61, right associativity) : monad_scope.
Open Scope monad_scope.

(** ** Package [mime/multipart], the [Writer] over a [bytes.Buffer] *)

Definition dquote : ascii := "034".
Definition CRLF : gostring := ["013"; "010"].

Module multipart.

Record Writer : Type := {
  buf : gostring;          (* the bytes.Buffer behind [w.w] *)
  boundary : gostring;
  lastpart : bool          (* [w.lastpart != nil] *)
}.

Definition hexdigit (n : nat) : ascii := nth n `"0123456789abcdef" "0".

(** [fmt.Sprintf("%x", b)] for one byte. *)
Definition hexByte (c : ascii) : gostring :=
  let n := nat_of_ascii c in [hexdigit (n / 16); hexdigit (n mod 16)].

(** [func randomBoundary() string] on the bytes read from [rand.Reader]. *)
Definition randomBoundary (rnd : gostring) : gostring := flat_map hexByte rnd.

Definition NewWriter (rnd : gostring) : Writer :=
  {| buf := []; boundary := randomBoundary rnd; lastpart := false |}.

(** [textproto.MIMEHeader], with the single value [Set] leaves at a key. *)
Definition MIMEHeader := list (gostring * gostring).

Fixpoint Set_ (h : MIMEHeader) (k v : gostring) : MIMEHeader :=
  match h with
  | [] => [(k, v)]
  | (k', v') :: t =>
    if bytes_eqb k' k then (k, v) :: t else (k', v') :: Set_ t k v
  end.

(** Go's [<=] on strings: byte-wise lexicographic. *)
Fixpoint bytes_leb (a b : gostring) : bool :=
  match a, b with
  | [], _ => true
  | _ :: _, [] => false
  | x :: a', y :: b' =>
    if Ascii.eqb x y then bytes_leb a' b'
    else (nat_of_ascii x <? nat_of_ascii y)
  end.

Fixpoint insert_sorted (e : gostring * gostring) (h : MIMEHeader) : MIMEHeader :=
  match h with
  | [] => [e]
  | e' :: t =>
    if bytes_leb (fst e) (fst e') then e :: h else e' :: insert_sorted e t
  end.

(** The keys in the order [slices.Sort(keys)] gives. *)
Definition sortHeader (h : MIMEHeader) : MIMEHeader :=
  fold_right insert_sorted [] h.

Definition headerLine (e : gostring * gostring) : gostring :=
  fst e ++ `": " ++ snd e ++ CRLF.

(** [func (w *Writer) CreatePart(header) (io.Writer, error)].  Writing to
    a [bytes.Buffer] returns no error. *)
Definition CreatePart (w : Writer) (header : MIMEHeader) : Result Writer :=
  let delim :=
    if lastpart w
    then CRLF ++ `"--" ++ boundary w ++ CRLF
    else `"--" ++ boundary w ++ CRLF in
  Ok {| buf := buf w ++ delim
               ++ flat_map headerLine (sortHeader header) ++ CRLF;
        boundary := boundary w;
        lastpart := true |}.

(** [Write] on the current part. *)
Definition Write (w : Writer) (data : gostring) : Result Writer :=
  Ok {| buf := buf w ++ data; boundary := boundary w; lastpart := lastpart w |}.

(** [quoteEscaper]: backslash and double quote get a backslash. *)
Fixpoint escapeQuotes (s : gostring) : gostring :=
  match s with
  | [] => []
  | c :: t =>
    if Ascii.eqb c "\" || Ascii.eqb c dquote
    then "\" :: c :: escapeQuotes t
    else c :: escapeQuotes t
  end.

Definition formFieldDisposition (fieldname : gostring) : gostring :=
  `"form-data; name=" ++ [dquote] ++ escapeQuotes fieldname ++ [dquote].

(** [func (w *Writer) CreateFormField(fieldname string)]. *)
Definition CreateFormField (w : Writer) (fieldname : gostring) : Result Writer :=
  CreatePart w (Set_ [] `"Content-Disposition" (formFieldDisposition fieldname)).

(** [func (w *Writer) WriteField(fieldname, value string) error]. *)
Definition WriteField (w : Writer) (fieldname value : gostring) : Result Writer :=
  match CreateFormField w fieldname with
  | Ok p => Write p value
  | Err e => Err e
  end.

(** [func (w *Writer) Close() error]. *)
Definition Close (w : Writer) : Result Writer :=
  Ok {| buf := buf w ++ CRLF ++ `"--" ++ boundary w ++ `"--" ++ CRLF;
        boundary := boundary w;
        lastpart := false |}.

Definition tspecials : gostring :=
  `"()<>@,;:\" ++ [dquote] ++ `"/[]?= ".

Definition ContainsAny (s chars : gostring) : bool :=
  existsb (fun c => existsb (Ascii.eqb c) chars) s.

(** [func (w *Writer) FormDataContentType() string]. *)
Definition FormDataContentType (w : Writer) : gostring :=
  let b := boundary w in
  let b' := if ContainsAny b tspecials then [dquote] ++ b ++ [dquote] else b in
  `"multipart/form-data; boundary=" ++ b'.

End multipart.

(** ** [buildMultipartBody] and [addImagePart] *)

Definition openError (path reason : gostring) : gostring :=
  `"open " ++ path ++ `": " ++ reason.

(** [func addImagePart(w *multipart.Writer, fieldName, imagePath string) error] *)
Definition addImagePart (env : Env) (w : multipart.Writer)
           (fieldName imagePath : gostring) : M multipart.Writer :=
  tell (EvOpen imagePath) ;;;
  f <- get_fs ;;
  match f imagePath with
  | None =>
    fail (`"opening image " ++ imagePath ++ `": "
           ++ openError imagePath (lookupError f imagePath))
  | Some NoAccess =>
    fail (`"opening image " ++ imagePath ++ `": "
           ++ openError imagePath `"permission denied")
  | Some file =>
    let mimeType :=
      let t := e_mime env (filepath.Ext imagePath) in
      if isEmpty t then `"application/octet-stream" else t in
    let partHeader :=
      multipart.Set_
        (multipart.Set_ [] `"Content-Disposition"
           (`"form-data; name=" ++ [dquote] ++ fieldName ++ [dquote]
             ++ `"; filename=" ++ [dquote] ++ filepath.Base imagePath ++ [dquote]))
        `"Content-Type" mimeType in
    match multipart.CreatePart w partHeader with
    | Err e => fail (`"creating form file for " ++ imagePath ++ `": " ++ e)
    | Ok part =>
      (* io.Copy(part, file) *)
      match file with
      | RegularFile data =>
        match multipart.Write part data with
        | Ok part' => ret part'
        | Err e => fail (`"copying image data for " ++ imagePath ++ `": " ++ e)
        end
      | _ =>
        fail (`"copying image data for " ++ imagePath ++ `": read "
               ++ imagePath ++ `": is a directory")
      end
    end
  end.

Fixpoint addImageParts (env : Env) (w : multipart.Writer) (fieldName : gostring)
         (imagePaths : list gostring) : M multipart.Writer :=
  match imagePaths with
  | [] => ret w
  | imagePath :: rest =>
    w' <- addImagePart env w fieldName imagePath ;;
    addImageParts env w' fieldName rest
  end.

(** The entries of the map literal, in the order the range loop meets them. *)
Definition rangeFields (o : MapOrder) (prompt size : gostring)
  : list (gostring * gostring) :=
  let p := (`"prompt", prompt) in
  let n := (`"n", `"1") in
  let s := (`"size", size) in
  match o with
  | PromptNSize => [p; n; s]
  | PromptSizeN => [p; s; n]
  | NPromptSize => [n; p; s]
  | NSizePrompt => [n; s; p]
  | SizePromptN => [s; p; n]
  | SizeNPrompt => [s; n; p]
  end.

Fixpoint writeFields (w : multipart.Writer) (kvs : list (gostring * gostring))
  : Result multipart.Writer :=
  match kvs with
  | [] => Ok w
  | (k, v) :: rest =>
    match multipart.WriteField w k v with
    | Ok w' => writeFields w' rest
    | Err e => Err (`"writing field " ++ k ++ `": " ++ e)
    end
  end.

Definition lift {A} (r : Result A) : M A := fun st => (r, st).

(** [func buildMultipartBody(imagePaths []string, prompt, size string)]
    returning the buffer, the content type and an error: here the bytes of
    the buffer and the content type. *)
Definition buildMultipartBody (env : Env) (imagePaths : list gostring)
           (prompt size : gostring) : M (gostring * gostring) :=
  let w := multipart.NewWriter (e_rand env) in
  let fieldName := if 1 <? length imagePaths then `"image[]" else `"image" in
  w1 <- addImageParts env w fieldName imagePaths ;;
  w2 <- lift (writeFields w1 (rangeFields (e_order env) prompt size)) ;;
  w3 <- wrap `"closing multipart writer" (lift (multipart.Close w2)) ;;
  ret (multipart.buf w3, multipart.FormDataContentType w3).

(** ** Package [os]: the calls that change the store *)

(** [func WriteFile(name string, data []byte, perm FileMode) error]:
    [OpenFile] with [O_WRONLY|O_CREATE|O_TRUNC], then [Write], then [Close].
    A failure after the file was opened leaves it truncated or partly
    written. *)
Definition os_WriteFile (env : Env) (name data : gostring) : M unit :=
  tell (EvWriteFile name data) ;;;
  f <- get_fs ;;
  let refused :=
    match f name with
    | Some Directory => Some `"is a directory"
    | Some NoAccess => Some `"permission denied"
    | _ => e_openw env name
    end in
  match refused with
  | Some reason => fail (openError name reason)
  | None =>
    put_fs (fs_update f name (RegularFile [])) ;;;
    let written :=
      match e_wcap env with
      | Some cap => firstn cap data
      | None => data
      end in
    put_fs (fs_update f name (RegularFile written)) ;;;
    if length written <? length data
    then fail (`"write " ++ name ++ `": no space left on device")
    else match e_close env with
         | Some e => fail (`"close " ++ name ++ `": " ++ e)
         | None => ret tt
         end
  end.

(** [func MkdirAll(path string, perm FileMode) error]: nothing to do when
    the path is a directory, an error when it is a file; otherwise the
    environment decides, and the directory is entered in the store (the
    missing ancestors Go creates on the way are not). *)
Definition os_MkdirAll (env : Env) (path : gostring) : M unit :=
  tell (EvMkdirAll path) ;;;
  f <- get_fs ;;
  match f path with
  | Some Directory => ret tt
  | Some _ => fail (`"mkdir " ++ path ++ `": not a directory")
  | None =>
    match e_mkdir env path with
    | Some e => fail e
    | None => put_fs (fs_update f path Directory)
    end
  end.

(** [os.Stat] followed by [os.IsNotExist(err)]: true for [ENOENT] and
    for no other error. *)
Definition notExist (f : FS) (path : gostring) : bool :=
  match f path with
  | None =>
    match missing f path with
    | None => true
    | Some _ => false
    end
  | Some _ => false
  end.

(** ** The two programs *)

Record Flags : Type := {
  flag_p : gostring;    (* -p *)
  flag_i : gostring;    (* -i *)
  flag_b : gostring;    (* -b *)
  flag_s : gostring     (* -s, "1024x1024" when not given *)
}.

Definition usage : gostring :=
  `"Usage: generate -p PROMPT -i IMAGE [-b BACKGROUND] [-s SIZE]".

(** ** Package [flag]: the command line of the programs

    The four flags are string flags; [flag.Parse] works on [os.Args[1:]]
    with the error handling [ExitOnError]. *)

Module flag.

Inductive parsed : Type :=
| Parsed (flags : Flags)
| ErrHelp
| ParseError (msg : gostring).

(** The values before [Parse]. *)
Definition defaults : Flags :=
  {| flag_p := []; flag_i := []; flag_b := []; flag_s := `"1024x1024" |}.

Definition notEq (c : ascii) : bool := negb (Ascii.eqb c "=").

(** [name=value]: the first [=] after the first byte splits the two. *)
Definition splitValue (name : gostring) : gostring * option gostring :=
  match name with
  | [] => ([], None)
  | c0 :: t =>
    match dropWhile notEq t with
    | _ :: value => (c0 :: takeWhile notEq t, Some value)
    | [] => (name, None)
    end
  end.

(** [f.formal[name]] and [flag.Value.Set(value)]. *)
Definition set (flags : Flags) (name value : gostring) : option Flags :=
  if bytes_eqb name `"p" then
    Some {| flag_p := value; flag_i := flag_i flags;
            flag_b := flag_b flags; flag_s := flag_s flags |}
  else if bytes_eqb name `"i" then
    Some {| flag_p := flag_p flags; flag_i := value;
            flag_b := flag_b flags; flag_s := flag_s flags |}
  else if bytes_eqb name `"b" then
    Some {| flag_p := flag_p flags; flag_i := flag_i flags;
            flag_b := value; flag_s := flag_s flags |}
  else if bytes_eqb name `"s" then
    Some {| flag_p := flag_p flags; flag_i := flag_i flags;
            flag_b := flag_b flags; flag_s := value |}
  else None.

(** The loop of [Parse] over [parseOne]: an argument that is not a flag,
    or [--], ends the flags; what follows is not looked at. *)
Fixpoint Parse_loop (args : list gostring) (flags : Flags) : parsed :=
  match args with
  | [] => Parsed flags
  | s :: rest =>
    match s with
    | c0 :: c1 :: s2 =>
      if negb (Ascii.eqb c0 "-") then Parsed flags
      else if Ascii.eqb c1 "-" && isEmpty s2 then Parsed flags
      else
        let name := if Ascii.eqb c1 "-" then s2 else c1 :: s2 in
        if isEmpty name || Ascii.eqb (hd "000" name) "-"
           || Ascii.eqb (hd "000" name) "="
        then ParseError (`"bad flag syntax: " ++ s)
        else
          let (name', value) := splitValue name in
          match set flags name' [] with
          | None =>
            if bytes_eqb name' `"help" || bytes_eqb name' `"h" then ErrHelp
            else ParseError (`"flag provided but not defined: -" ++ name')
          | Some _ =>
            match value with
            | Some v =>
              match set flags name' v with
              | Some flags' => Parse_loop rest flags'
              | None => Parsed flags
              end
            | None =>
              (* It must have a value, which might be the next argument. *)
              match rest with
              | v :: rest' =>
                match set flags name' v with
                | Some flags' => Parse_loop rest' flags'
                | None => Parsed flags
                end
              | [] => ParseError (`"flag needs an argument: -" ++ name')
              end
            end
          end
    | _ => Parsed flags
    end
  end.

(** [func Parse()]. *)
Definition Parse (args : list gostring) : parsed := Parse_loop args defaults.

End flag.

(** How a run ends when [fatalf] is not called: [main] returns (exit code
    0), or [flag.Parse] ends the process, after the usage text for [-h]
    (exit code 0), after a message and the usage text for a command line
    it refuses (exit code 2). *)
Inductive Exit : Type :=
| ExitDone
| ExitHelp
| ExitFlagError (msg : gostring).

(** [strconv.FormatInt(n, 10)] for a number that is not negative. *)
Definition itoa (n : nat) : gostring :=
  String.list_ascii_of_string (NilZero.string_of_uint (Nat.to_uint n)).

(** [func truncate(s string, n int) string]: [s[:n]] panics when [n] is
    negative. *)
Definition truncate (s : gostring) (n : Z) : Result gostring :=
  if (Z.of_nat (length s) <=? n)%Z then Ok s
  else if (n <? 0)%Z then
    Err (`"panic: runtime error: slice bounds out of range [:-"
          ++ itoa (Z.to_nat (- n)) ++ `"]")
  else Ok (firstn (Z.to_nat n) s ++ `"...").

(** The diagnostics of the three failures of the decoding step; [fatalf]
    prints them after a cross mark and exits with code 1. *)
Definition remoteErrorMessage (e : apiError) : gostring :=
  `"Image edit failed: " ++ Message e ++ `" (type=" ++ Type_ e
    ++ `", code=" ++ Code e ++ `")".

Definition noImageDataMessage : gostring :=
  `"Image edit failed: no image data in response".

(** The text of a [base64.CorruptInputError]. *)
Definition corruptInputText (offset : nat) : gostring :=
  `"illegal base64 data at input byte " ++ itoa offset.

Definition corruptPayloadMessage (offset : nat) : gostring :=
  `"Error decoding base64 image: " ++ corruptInputText offset.

(** What the Go runtime prints when [result.Data[0]] is evaluated on an
    empty slice. *)
Definition indexPanicMessage : gostring :=
  `"panic: runtime error: index out of range [0] with length 0".

(** [main], from the test of [result.Error] to the call of
    [base64.StdEncoding.DecodeString]: the image bytes, or the diagnostic
    the program ends with ([fatalf], or the runtime on an index out of
    range).  The [||] of the second test does not evaluate
    [result.Data[0]] when the slice is empty. *)
Definition main_decode (result : imageEditResponse) : Result gostring :=
  match Error result with
  | Some e => Err (remoteErrorMessage e)
  | None =>
    if length (Data result) =? 0 then Err noImageDataMessage
    else
      match nth_error (Data result) 0 with
      | None => Err indexPanicMessage
      | Some d =>
        if isEmpty (B64JSON d) then Err noImageDataMessage
        else
          match base64.Decode (B64JSON d) with
          | base64.CorruptInputError offset => Err (corruptPayloadMessage offset)
          | base64.Decoded imageBytes => Ok imageBytes
          end
      end
  end.

(** [main], the collection of the image paths: background first (if
    provided), then foreground. *)
Definition main_images (bgImage inputImage : gostring) : list gostring :=
  (if isEmpty bgImage then [] else [bgImage]) ++ [inputImage].

Definition endpointURL (resourceHost deployment apiVersion : gostring) : gostring :=
  `"https://" ++ resourceHost ++ `"/openai/deployments/" ++ deployment
    ++ `"/images/edits?api-version=" ++ apiVersion.

(** [main] from [json.Unmarshal] to the end: parse the envelope, decode
    it, write the image. *)
Definition main_response (env : Env) (outputFile respBytes : gostring) : M unit :=
  result <-
    match e_unmarshal env respBytes with
    | Err e =>
      match truncate respBytes 500 with
      | Ok raw =>
        fail (`"Error parsing response JSON: " ++ e ++ ["010"]
               ++ `"Raw (first 500 bytes): " ++ raw)
      | Err panic => fail panic
      end
    | Ok r => ret r
    end ;;
  imageBytes <- lift (main_decode result) ;;
  wrap `"Error writing output file" (os_WriteFile env outputFile imageBytes).

(** [main], from [http.NewRequest] to [io.ReadAll]. *)
Definition sendRequest (env : Env) (req : Request) : M gostring :=
  match e_http env req with
  | NewRequestError e => fail (`"Error creating HTTP request: " ++ e)
  | DoError e =>
    tell (EvDo req) ;;; tellAll (map EvRedirect (e_hops env req)) ;;;
    fail (`"Error sending request: " ++ e)
  | ReadAllError e =>
    tell (EvDo req) ;;; tellAll (map EvRedirect (e_hops env req)) ;;;
    fail (`"Error reading response: " ++ e)
  | ResponseBody b =>
    tell (EvDo req) ;;; tellAll (map EvRedirect (e_hops env req)) ;;;
    ret b
  end.

(** [main] from the test of [*inputImage] to the end; the two programs
    agree on it up to the endpoint configuration and [getAzureToken].  A
    result [Err msg] is a call [fatalf] with that text (exit code 1), [Ok tt]
    is the normal end (exit code 0).  Progress lines on standard output are
    not modelled. *)
Definition main_rest (env : Env) (resourceHost deployment apiVersion : gostring)
           (getAzureToken : M gostring) (flags : Flags) (prompt : gostring)
  : M unit :=
  let inputImage := flag_i flags in
  let bgImage := flag_b flags in
  let size := flag_s flags in
  if isEmpty inputImage then
    fail (`"Error: Input image is required (-i)" ++ ["010"] ++ usage)
  else
  f <- get_fs ;;
  if notExist f inputImage then
    fail (`"Error: Input image not found: " ++ inputImage)
  else if negb (isEmpty bgImage) && notExist f bgImage then
    fail (`"Error: Background image not found: " ++ bgImage)
  else
  let outputFile := deriveOutputPath inputImage in
  (* Ensure the output directory exists. *)
  wrap `"Error creating output directory"
       (os_MkdirAll env (filepath.Dir outputFile)) ;;;
  token <- wrap `"Error obtaining Azure access token" getAzureToken ;;
  let endpoint := endpointURL resourceHost deployment apiVersion in
  let images := main_images bgImage inputImage in
  bc <- wrap `"Error building request"
             (buildMultipartBody env images prompt size) ;;
  let req := {| req_url := endpoint;
                req_authorization := `"Bearer " ++ token;
                req_contentType := snd bc;
                req_body := fst bc |} in
  respBytes <- sendRequest env req ;;
  main_response env outputFile respBytes.

Definition promptRequired : gostring :=
  `"Error: Prompt is required (-p)" ++ ["010"] ++ usage.

(** The root program, [main.go]. *)
Module root.

Definition resourceHost : gostring :=
  `"cloudnativelinz-poland-resource.openai.azure.com".
Definition deployment : gostring := `"gpt-image-1.5".
Definition apiVersion : gostring := `"2025-04-01-preview".

Definition azArgs : list gostring :=
  [`"account"; `"get-access-token";
   `"--resource"; `"https://cognitiveservices.azure.com";
   `"--query"; `"accessToken";
   `"-o"; `"tsv"].

(** [func getAzureToken() (string, error)]: shells out to [az].
    [cmd.Output()] gives the standard output of a run that exits with
    code 0, an [ExitError] carrying the standard error of one that does
    not, and another error when the program cannot be started. *)
Definition getAzureToken (env : Env) : M gostring :=
  tell (EvExec `"az" azArgs) ;;;
  match e_binary env `"az" with
  | Some run =>
    match run azArgs with
    | Exited 0 out _ => ret (strings.TrimSpace out)
    | Exited _ _ stderr => fail (`"az CLI failed: " ++ stderr)
    end
  | None =>
    fail (`"exec: " ++ [dquote] ++ `"az" ++ [dquote]
           ++ `": executable file not found in $PATH")
  end.

(** [func main()] from the return of [flag.Parse] on. *)
Definition main (env : Env) (flags : Flags) : M unit :=
  if isEmpty (flag_p flags) then fail promptRequired
  else main_rest env resourceHost deployment apiVersion
                 (getAzureToken env) flags (flag_p flags).

(** [func main()] on the command line [os.Args[1:]]. *)
Definition run (env : Env) (args : list gostring) : M Exit :=
  match flag.Parse args with
  | flag.Parsed flags => main env flags ;;; ret ExitDone
  | flag.ErrHelp => ret ExitHelp
  | flag.ParseError msg => ret (ExitFlagError msg)
  end.

End root.

(** The program [cmd/generate/main.go]. *)
Module generate.

Definition tokenScopes : list gostring :=
  [`"https://cognitiveservices.azure.com/.default"].

(** [func getAzureToken() (string, error)]: one credential, one token
    request. *)
Definition getAzureToken (env : Env) : M gostring :=
  tell EvNewDefaultAzureCredential ;;;
  match e_credential env with
  | Some e => fail (`"creating credential: " ++ e)
  | None =>
    tell (EvGetToken tokenScopes) ;;;
    match e_token env tokenScopes with
    | Err e => fail (`"acquiring token: " ++ e)
    | Ok tk => ret tk
    end
  end.

(** [godotenv.Load()]: the variables of the file [.env] of the working
    directory; none when the file cannot be read or parsed ([main] goes on
    after a message). *)
Definition godotenv_Load (env : Env) : M (gostring -> option gostring) :=
  tell (EvOpen `".env") ;;;
  f <- get_fs ;;
  ret (match f `".env" with
       | Some (RegularFile content) =>
         match e_dotenv env content with
         | Ok vars => vars
         | Err _ => fun _ => None
         end
       | _ => fun _ => None
       end).

(** [os.Getenv] after [godotenv.Load]: a variable of the process is never
    replaced; [os.Setenv] refuses a value with a zero byte. *)
Definition Getenv (env : Env) (loaded : gostring -> option gostring)
           (key : gostring) : gostring :=
  match e_lookupenv env key with
  | Some v => v
  | None =>
    match loaded key with
    | Some v => if existsb (Ascii.eqb "000") v then [] else v
    | None => []
    end
  end.

Definition notConfigured : gostring :=
  `"Error: Environment variables AZURE_OPENAI_RESOURCE, AZURE_OPENAI_DEPLOYMENT, AZURE_OPENAI_API_VERSION must be set".

(** [func main()] up to the definition of the flags: the endpoint
    configuration. *)
Definition main_config (env : Env) : M (gostring * gostring * gostring) :=
  loaded <- godotenv_Load env ;;
  let resourceHost := Getenv env loaded `"AZURE_OPENAI_RESOURCE" in
  let deployment := Getenv env loaded `"AZURE_OPENAI_DEPLOYMENT" in
  let apiVersion := Getenv env loaded `"AZURE_OPENAI_API_VERSION" in
  if isEmpty resourceHost || isEmpty deployment || isEmpty apiVersion then
    fail notConfigured
  else ret (resourceHost, deployment, apiVersion).

(** [func main()] from the return of [flag.Parse] on. *)
Definition main_flags (env : Env) (config : gostring * gostring * gostring)
           (flags : Flags) : M unit :=
  let '(resourceHost, deployment, apiVersion) := config in
  if isEmpty (flag_p flags) then fail promptRequired
  else
  (* Check if the prompt is a file path and read its content if so. *)
  f <- get_fs ;;
  prompt <-
    match f (flag_p flags) with
    | Some (RegularFile content) =>
      tell (EvReadFile (flag_p flags)) ;;; ret content
    | Some NoAccess =>
      tell (EvReadFile (flag_p flags)) ;;;
      fail (`"Error reading prompt file: "
             ++ openError (flag_p flags) `"permission denied")
    | _ => ret (flag_p flags)
    end ;;
  main_rest env resourceHost deployment apiVersion
            (getAzureToken env) flags prompt.

(** [func main()] when [flag.Parse] gives these flags. *)
Definition main (env : Env) (flags : Flags) : M unit :=
  config <- main_config env ;;
  main_flags env config flags.

(** [func main()] on the command line [os.Args[1:]]. *)
Definition run (env : Env) (args : list gostring) : M Exit :=
  config <- main_config env ;;
  match flag.Parse args with
  | flag.Parsed flags => main_flags env config flags ;;; ret ExitDone
  | flag.ErrHelp => ret ExitHelp
  | flag.ParseError msg => ret (ExitFlagError msg)
  end.

End generate.

(** ** The layout of a body, and reading it back

    The bytes of a [multipart/form-data] body for given parts, written out
    on their own (nothing here goes through the writer above), used to
    state what [buildMultipartBody] produces; and what a receiver reads
    from the [Content-Disposition] of a part. *)

Record Part : Type := {
  part_header : list (gostring * gostring);   (* header lines, in written order *)
  part_body : gostring
}.

(** The header lines [Key: value], each ended by a line break, an empty
    line, the content. *)
Definition renderPart (p : Part) : gostring :=
  flat_map (fun kv => fst kv ++ [":"; " "] ++ snd kv ++ ["013"; "010"])
           (part_header p)
    ++ ["013"; "010"] ++ part_body p.

(** The parts one after the other, each behind its delimiter line
    [--boundary]; every delimiter but the very first follows a line break. *)
Fixpoint renderParts (b : gostring) (first : bool) (parts : list Part) : gostring :=
  match parts with
  | [] => []
  | p :: ps =>
    (if first then [] else ["013"; "010"]) ++ `"--" ++ b ++ ["013"; "010"]
      ++ renderPart p ++ renderParts b false ps
  end.

Definition closeDelimiter (b : gostring) : gostring :=
  ["013"; "010"] ++ `"--" ++ b ++ `"--" ++ ["013"; "010"].

Definition renderBody (b : gostring) (parts : list Part) : gostring :=
  renderParts b true parts ++ closeDelimiter b.

Fixpoint stripPrefix (prefix s : gostring) : option gostring :=
  match prefix, s with
  | [], _ => Some s
  | p :: ps, c :: cs => if Ascii.eqb p c then stripPrefix ps cs else None
  | _ :: _, [] => None
  end.

Fixpoint headerGet (h : list (gostring * gostring)) (k : gostring)
  : option gostring :=
  match h with
  | [] => None
  | (k', v) :: t => if bytes_eqb k' k then Some v else headerGet t k
  end.

Definition notQuote (c : ascii) : bool := negb (Ascii.eqb c dquote).

(** A byte that stands for itself inside a quoted parameter value and
    inside a header line: no double quote, no backslash, no carriage
    return, no line feed. *)
Definition plainByte (c : ascii) : bool :=
  negb (Ascii.eqb c dquote) && negb (Ascii.eqb c "\")
  && negb (Ascii.eqb c "013") && negb (Ascii.eqb c "010").

Definition plainName (s : gostring) : bool := forallb plainByte s.

(** A byte of a parameter name: a small letter. *)
Definition keyByte (c : ascii) : bool :=
  (97 <=? nat_of_ascii c) && (nat_of_ascii c <=? 122).

(** The parameters of a disposition, [; key="value"] one after the other
    to the end of the header value: a value is made of plain bytes (an
    escape is refused, like anything else out of this form), and no key
    comes twice. *)
Fixpoint readParams (fuel : nat) (s : gostring)
  : option (list (gostring * gostring)) :=
  match fuel with
  | O => None
  | S fuel' =>
    match s with
    | [] => Some []
    | _ :: _ =>
      match stripPrefix [";"; " "] s with
      | None => None
      | Some r =>
        let key := takeWhile keyByte r in
        match stripPrefix ["="; dquote] (dropWhile keyByte r) with
        | None => None
        | Some r2 =>
          let value := takeWhile plainByte r2 in
          match dropWhile plainByte r2 with
          | q :: r3 =>
            if negb (Ascii.eqb q dquote) then None
            else
              match readParams fuel' r3 with
              | None => None
              | Some ps =>
                if isEmpty key || existsb (fun kv => bytes_eqb (fst kv) key) ps
                then None
                else Some ((key, value) :: ps)
              end
          | [] => None
          end
        end
      end
    end
  end.

(** The parameters a receiver reads from the [Content-Disposition] of a
    form part: [form-data] and its parameters, or nothing when the value
    is not of this form. *)
Definition readDisposition (v : gostring) : option (list (gostring * gostring)) :=
  match stripPrefix `"form-data" v with
  | Some r => readParams (S (length r)) r
  | None => None
  end.

Definition dispositionOf (p : Part) : option (list (gostring * gostring)) :=
  match headerGet (part_header p) `"Content-Disposition" with
  | Some v => readDisposition v
  | None => None
  end.

(** The field name of a part, as read from its [name] parameter. *)
Definition fieldNameOf (p : Part) : option gostring :=
  match dispositionOf p with
  | Some ps => headerGet ps `"name"
  | None => None
  end.

(** A file part is one that reads with a [filename] parameter. *)
Definition isFilePart (p : Part) : bool :=
  match dispositionOf p with
  | Some ps =>
    match headerGet ps `"filename" with
    | Some _ => true
    | None => false
    end
  | None => false
  end.

(** The [boundary] parameter of a content type, quoted or not. *)
Definition boundaryParam (contentType : gostring) : option gostring :=
  match stripPrefix `"multipart/form-data; boundary=" contentType with
  | Some (c :: r) =>
    if Ascii.eqb c dquote then Some (takeWhile notQuote r) else Some (c :: r)
  | Some [] => Some []
  | None => None
  end.

(** The part of an image file: the field name and the base name of the
    path go between the quotes as they are. *)
Definition imagePart (env : Env) (fieldName imagePath data : gostring) : Part :=
  {| part_header :=
       [(`"Content-Disposition",
         `"form-data; name=" ++ [dquote] ++ fieldName ++ [dquote]
           ++ `"; filename=" ++ [dquote] ++ filepath.Base imagePath ++ [dquote]);
        (`"Content-Type",
         let t := e_mime env (filepath.Ext imagePath) in
         if isEmpty t then `"application/octet-stream" else t)];
     part_body := data |}.

(** The part of a text field. *)
Definition fieldPart (kv : gostring * gostring) : Part :=
  {| part_header :=
       [(`"Content-Disposition",
         `"form-data; name=" ++ [dquote] ++ fst kv ++ [dquote])];
     part_body := snd kv |}.

(** The bytes of a result of the decoder, if any. *)
Definition bytesOf (x : base64.decoded) : option gostring :=
  match x with
  | base64.Decoded dst => Some dst
  | base64.CorruptInputError _ => None
  end.

(** Events that write a file. *)
Definition isWrite (e : Event) : bool :=
  match e with
  | EvWriteFile _ _ => true
  | _ => false
  end.

(** Events that start a program. *)
Definition isExec (e : Event) : bool :=
  match e with
  | EvExec _ _ => true
  | _ => false
  end.

(** A program that gets its token from the credential chain whatever
    programs are installed. *)
Definition token_needs_no_binary (getAzureToken : Env -> M gostring) : Prop :=
  forall env st tk,
    e_credential env = None ->
    e_token env generate.tokenScopes = Ok tk ->
    fst (getAzureToken env st) = Ok tk.

(** A computation that writes no file: the events it logs hold no
    [EvWriteFile], and every regular file of the store it leaves was there
    before, with the same bytes. *)
Definition quiet {A} (m : M A) : Prop :=
  forall st,
    (exists evs, log (snd (m st)) = log st ++ evs /\ filter isWrite evs = [])
    /\ (forall p d, fs (snd (m st)) p = Some (RegularFile d) ->
                    fs st p = Some (RegularFile d)).

(** A computation that either does not call [os.WriteFile], does not end
    with [done] and leaves the files as they are, or calls [os.WriteFile]
    once, on [outputFile], with the bytes of an envelope that decoded. *)
Definition writesOnlyDecoded {A} (env : Env) (outputFile : gostring) (done : A)
           (m : M A) : Prop :=
  forall st, exists evs,
      log (snd (m st)) = log st ++ evs
      /\ ((filter isWrite evs = []
           /\ fst (m st) <> Ok done
           /\ (forall p d, fs (snd (m st)) p = Some (RegularFile d) ->
                           fs st p = Some (RegularFile d)))
          \/ (exists respBytes envelope imageBytes,
                 e_unmarshal env respBytes = Ok envelope
                 /\ main_decode envelope = Ok imageBytes
                 /\ filter isWrite evs = [EvWriteFile outputFile imageBytes])).

Definition isnil {A} (l : list A) : bool :=
  match l with [] => true | _ :: _ => false end.

(** The parts [addImageParts] writes for readable files, given as pairs of
    path and contents. *)
Definition imageParts (env : Env) (fieldName : gostring)
           (files : list (gostring * gostring)) : list Part :=
  map (fun pd => imagePart env fieldName (fst pd) (snd pd)) files.

(** The path names a regular file with these bytes. *)
Definition readable (f : FS) (path data : gostring) : Prop :=
  f path = Some (RegularFile data).

(** Events of a token acquisition. *)
Definition isTokenCall (e : Event) : bool :=
  match e with
  | EvExec _ _ | EvNewDefaultAzureCredential | EvGetToken _ => true
  | _ => false
  end.

(** Events that send a request or write the image. *)
Definition isSendOrWrite (e : Event) : bool :=
  match e with
  | EvDo _ | EvRedirect _ | EvWriteFile _ _ => true
  | _ => false
  end.

(** A computation that logs no event selected by [P]. *)
Definition silent {A} (P : Event -> bool) (m : M A) : Prop :=
  forall st, exists evs,
      log (snd (m st)) = log st ++ evs /\ filter P evs = [].

(** A computation that always fails, logging no event selected by [P]. *)
Definition failsSilently {A} (P : Event -> bool) (m : M A) : Prop :=
  forall st,
    (exists msg, fst (m st) = Err msg)
    /\ exists evs, log (snd (m st)) = log st ++ evs /\ filter P evs = [].

(** A computation whose token acquisition events, taken together, are one
    of the given attempts or none. *)
Definition attemptsWithin {A} (attempts : list (list Event)) (m : M A) : Prop :=
  forall st, exists evs,
      log (snd (m st)) = log st ++ evs
      /\ (filter isTokenCall evs = [] \/ In (filter isTokenCall evs) attempts).

(** The environment with other programs on the path. *)
Definition withBinaries (env : Env)
           (binaries : gostring -> option (list gostring -> ProcExit)) : Env :=
  {| e_lookupenv := e_lookupenv env;
     e_dotenv := e_dotenv env;
     e_mkdir := e_mkdir env;
     e_binary := binaries;
     e_credential := e_credential env;
     e_token := e_token env;
     e_rand := e_rand env;
     e_order := e_order env;
     e_mime := e_mime env;
     e_http := e_http env;
     e_hops := e_hops env;
     e_unmarshal := e_unmarshal env;
     e_openw := e_openw env;
     e_wcap := e_wcap env;
     e_close := e_close env |}.

(** ** A sample world

    One image [a/cat.png] and a background [bg] on disk, no program on the
    path, a credential chain that answers, and a server that answers with
    the given envelope. *)

Definition sampleFS : FS :=
  {| canon := fun p => p;
     nodes := fun p =>
       if bytes_eqb p `"a/cat.png" then Some (RegularFile `"DATA")
       else if bytes_eqb p `"bg" then Some (RegularFile `"BG")
       else if bytes_eqb p `"a" then Some Directory
       else None;
     missing := fun p =>
       if bytes_eqb p `"bg/x.png" then Some `"not a directory" else None |}.

Definition sampleEnv (answer : Result imageEditResponse) (wcap : option nat) : Env :=
  {| e_lookupenv := fun _ => Some `"x";
     e_dotenv := fun _ => Err `"unused";
     e_mkdir := fun _ => None;
     e_binary := fun _ => None;
     e_credential := None;
     e_token := fun _ => Ok `"tok";
     e_rand := ["001"; "171"];
     e_order := NSizePrompt;
     e_mime := fun e => if bytes_eqb e `".png" then `"image/png" else [];
     e_http := fun _ => ResponseBody `"{}";
     e_hops := fun _ => [];
     e_unmarshal := fun _ => answer;
     e_openw := fun _ => None;
     e_wcap := wcap;
     e_close := None |}.

Definition sampleState : State := {| fs := sampleFS; log := [] |}.

(** A path whose base name holds a double quote, and the sample store with
    a file there. *)
Definition quotedPath : gostring := `"a/q" ++ [dquote] ++ `"x.png".

Definition quotedState : State :=
  {| fs := fs_update sampleFS quotedPath (RegularFile `"QQ"); log := [] |}.

Definition sampleFlags : Flags :=
  {| flag_p := `"hi"; flag_i := `"a/cat.png"; flag_b := `"bg"; flag_s := `"1024x1024" |}.

(** The body for the single image of the sample world, byte by byte. *)
Definition sampleBody : gostring :=
  `"--01ab" ++ ["013"; "010"]
  ++ `"Content-Disposition: form-data; name=" ++ [dquote] ++ `"image" ++ [dquote]
  ++ `"; filename=" ++ [dquote] ++ `"cat.png" ++ [dquote] ++ ["013"; "010"]
  ++ `"Content-Type: image/png" ++ ["013"; "010"]
  ++ ["013"; "010"]
  ++ `"DATA"
  ++ ["013"; "010"] ++ `"--01ab" ++ ["013"; "010"]
  ++ `"Content-Disposition: form-data; name=" ++ [dquote] ++ `"n" ++ [dquote]
  ++ ["013"; "010"] ++ ["013"; "010"]
  ++ `"1"
  ++ ["013"; "010"] ++ `"--01ab" ++ ["013"; "010"]
  ++ `"Content-Disposition: form-data; name=" ++ [dquote] ++ `"size" ++ [dquote]
  ++ ["013"; "010"] ++ ["013"; "010"]
  ++ `"1024x1024"
  ++ ["013"; "010"] ++ `"--01ab" ++ ["013"; "010"]
  ++ `"Content-Disposition: form-data; name=" ++ [dquote] ++ `"prompt" ++ [dquote]
  ++ ["013"; "010"] ++ ["013"; "010"]
  ++ `"hi"
  ++ ["013"; "010"] ++ `"--01ab--" ++ ["013"; "010"].

(** The text fields of the sample world and the closing delimiter, byte
    by byte. *)
Definition sampleFieldsBytes : gostring :=
  ["013"; "010"] ++ `"--01ab" ++ ["013"; "010"]
  ++ `"Content-Disposition: form-data; name=" ++ [dquote] ++ `"n" ++ [dquote]
  ++ ["013"; "010"] ++ ["013"; "010"]
  ++ `"1"
  ++ ["013"; "010"] ++ `"--01ab" ++ ["013"; "010"]
  ++ `"Content-Disposition: form-data; name=" ++ [dquote] ++ `"size" ++ [dquote]
  ++ ["013"; "010"] ++ ["013"; "010"]
  ++ `"1024x1024"
  ++ ["013"; "010"] ++ `"--01ab" ++ ["013"; "010"]
  ++ `"Content-Disposition: form-data; name=" ++ [dquote] ++ `"prompt" ++ [dquote]
  ++ ["013"; "010"] ++ ["013"; "010"]
  ++ `"hi"
  ++ ["013"; "010"] ++ `"--01ab--" ++ ["013"; "010"].

(** The body for the background and the foreground of the sample world,
    byte by byte. *)
Definition sampleBody2 : gostring :=
  `"--01ab" ++ ["013"; "010"]
  ++ `"Content-Disposition: form-data; name=" ++ [dquote] ++ `"image[]" ++ [dquote]
  ++ `"; filename=" ++ [dquote] ++ `"bg" ++ [dquote] ++ ["013"; "010"]
  ++ `"Content-Type: application/octet-stream" ++ ["013"; "010"]
  ++ ["013"; "010"]
  ++ `"BG"
  ++ ["013"; "010"] ++ `"--01ab" ++ ["013"; "010"]
  ++ `"Content-Disposition: form-data; name=" ++ [dquote] ++ `"image[]" ++ [dquote]
  ++ `"; filename=" ++ [dquote] ++ `"cat.png" ++ [dquote] ++ ["013"; "010"]
  ++ `"Content-Type: image/png" ++ ["013"; "010"]
  ++ ["013"; "010"]
  ++ `"DATA"
  ++ sampleFieldsBytes.

(** The body for three images of the sample world, byte by byte. *)
Definition sampleBody3 : gostring :=
  `"--01ab" ++ ["013"; "010"]
  ++ `"Content-Disposition: form-data; name=" ++ [dquote] ++ `"image[]" ++ [dquote]
  ++ `"; filename=" ++ [dquote] ++ `"bg" ++ [dquote] ++ ["013"; "010"]
  ++ `"Content-Type: application/octet-stream" ++ ["013"; "010"]
  ++ ["013"; "010"]
  ++ `"BG"
  ++ ["013"; "010"] ++ `"--01ab" ++ ["013"; "010"]
  ++ `"Content-Disposition: form-data; name=" ++ [dquote] ++ `"image[]" ++ [dquote]
  ++ `"; filename=" ++ [dquote] ++ `"cat.png" ++ [dquote] ++ ["013"; "010"]
  ++ `"Content-Type: image/png" ++ ["013"; "010"]
  ++ ["013"; "010"]
  ++ `"DATA"
  ++ ["013"; "010"] ++ `"--01ab" ++ ["013"; "010"]
  ++ `"Content-Disposition: form-data; name=" ++ [dquote] ++ `"image[]" ++ [dquote]
  ++ `"; filename=" ++ [dquote] ++ `"bg" ++ [dquote] ++ ["013"; "010"]
  ++ `"Content-Type: application/octet-stream" ++ ["013"; "010"]
  ++ ["013"; "010"]
  ++ `"BG"
  ++ sampleFieldsBytes.

(** The body for the file of [quotedPath], byte by byte. *)
Definition quotedBody : gostring :=
  `"--01ab" ++ ["013"; "010"]
  ++ `"Content-Disposition: form-data; name=" ++ [dquote] ++ `"image" ++ [dquote]
  ++ `"; filename=" ++ [dquote] ++ `"q" ++ [dquote] ++ `"x.png" ++ [dquote]
  ++ ["013"; "010"]
  ++ `"Content-Type: image/png" ++ ["013"; "010"]
  ++ ["013"; "010"]
  ++ `"QQ"
  ++ sampleFieldsBytes.

Definition sampleError : apiError :=
  {| Message := `"Your request was rejected";
     Type_ := `"invalid_request_error";
     Code := `"moderation_blocked" |}.

(** ** More worlds and predicates *)

(** The sample world with an [az] on the path that prints a token and a
    line break. *)
Definition sampleAzEnvFor (answer : Result imageEditResponse) : Env :=
  withBinaries (sampleEnv answer None)
    (fun name =>
       if bytes_eqb name `"az"
       then Some (fun _ => Exited 0 (`"eyJ0eXAi" ++ ["010"]) [])
       else None).

Definition sampleAzEnv : Env := sampleAzEnvFor (Err `"unused").

(** The sample world with an [az] that pads the token with no-break
    spaces (U+00A0, the bytes C2 A0) and ends the line. *)
Definition paddedAzEnv : Env :=
  withBinaries (sampleEnv (Err `"unused") None)
    (fun name =>
       if bytes_eqb name `"az"
       then Some (fun _ => Exited 0 (["194"; "160"] ++ `"tok"
                                       ++ ["194"; "160"; "010"]) [])
       else None).

(** A good answer of the server: the image is the text [Hello, world!!]. *)
Definition sampleAnswer : imageEditResponse :=
  {| Data := [ {| B64JSON := `"SGVsbG8sIHdvcmxkISE=" |} ]; Error := None |}.

(** The diagnostic of [addImagePart] for a path that is not a readable
    file. *)
Definition unreadableMessage (f : FS) (imagePath : gostring) : gostring :=
  match f imagePath with
  | None =>
    `"opening image " ++ imagePath ++ `": "
      ++ openError imagePath (lookupError f imagePath)
  | Some NoAccess =>
    `"opening image " ++ imagePath ++ `": "
      ++ openError imagePath `"permission denied"
  | _ =>
    `"copying image data for " ++ imagePath ++ `": read "
      ++ imagePath ++ `": is a directory"
  end.

Definition isRegularFile (f : FS) (path : gostring) : bool :=
  match f path with
  | Some (RegularFile _) => true
  | _ => false
  end.

(** The request [main] sets up for a token, the images read and the text
    fields. *)
Definition requestFor (env : Env) (resourceHost deployment apiVersion token : gostring)
           (images datas : list gostring) (prompt size : gostring) : Request :=
  let b := multipart.randomBoundary (e_rand env) in
  {| req_url := endpointURL resourceHost deployment apiVersion;
     req_authorization := `"Bearer " ++ token;
     req_contentType := `"multipart/form-data; boundary=" ++ b;
     req_body :=
       renderBody b
         (imageParts env (if 1 <? length images then `"image[]" else `"image")
                     (combine images datas)
            ++ map fieldPart (rangeFields (e_order env) prompt size)) |}.

(** The prompt [cmd/generate] sends: the contents of the file the flag
    names when it names a regular file, the flag itself otherwise. *)
Definition promptOf (f : FS) (p : gostring) : gostring :=
  match f p with
  | Some (RegularFile content) => content
  | _ => p
  end.

Definition promptEvents (f : FS) (p : gostring) : list Event :=
  match f p with
  | Some (RegularFile _) | Some NoAccess => [EvReadFile p]
  | _ => []
  end.

(** Nothing stands in the way of [os.WriteFile]. *)
Definition writable (env : Env) (f : FS) (name data : gostring) : bool :=
  match f name with
  | Some Directory | Some NoAccess => false
  | _ => true
  end
  && match e_openw env name with None => true | Some _ => false end
  && match e_wcap env with Some cap => length data <=? cap | None => true end
  && match e_close env with None => true | Some _ => false end.

(** The environment with another network behind it. *)
Definition withTransport (env : Env) (http : Request -> HttpResult) : Env :=
  {| e_lookupenv := e_lookupenv env;
     e_dotenv := e_dotenv env;
     e_mkdir := e_mkdir env;
     e_binary := e_binary env;
     e_credential := e_credential env;
     e_token := e_token env;
     e_rand := e_rand env;
     e_order := e_order env;
     e_mime := e_mime env;
     e_http := http;
     e_hops := e_hops env;
     e_unmarshal := e_unmarshal env;
     e_openw := e_openw env;
     e_wcap := e_wcap env;
     e_close := e_close env |}.

(** The argument checks the two programs share pass. *)
Definition argumentsAccepted (f : FS) (flags : Flags) : bool :=
  negb (isEmpty (flag_p flags))
  && negb (isEmpty (flag_i flags))
  && negb (notExist f (flag_i flags))
  && (isEmpty (flag_b flags) || negb (notExist f (flag_b flags))).

(** A byte below [utf8.RuneSelf]. *)
Definition isASCII (c : ascii) : bool := (utf8.b c <? utf8.RuneSelf)%N.

Definition notASCII (c : ascii) : bool := negb (isASCII c).

(** The flags of a command line, when [flag.Parse] returns. *)
Definition parsedFlags (args : list gostring) : option Flags :=
  match flag.Parse args with
  | flag.Parsed flags => Some flags
  | _ => None
  end.

(** The path a run writes to, if it gets that far. *)
Definition outputOf (args : list gostring) : gostring :=
  match parsedFlags args with
  | Some flags => deriveOutputPath (flag_i flags)
  | None => []
  end.

(** The variables [godotenv.Load] finds in a store. *)
Definition loadedVars (env : Env) (f : FS) : gostring -> option gostring :=
  match f `".env" with
  | Some (RegularFile content) =>
    match e_dotenv env content with
    | Ok vars => vars
    | Err _ => fun _ => None
    end
  | _ => fun _ => None
  end.

(** The endpoint configuration [cmd/generate] reads. *)
Definition configOf (env : Env) (f : FS) : gostring * gostring * gostring :=
  (generate.Getenv env (loadedVars env f) `"AZURE_OPENAI_RESOURCE",
   generate.Getenv env (loadedVars env f) `"AZURE_OPENAI_DEPLOYMENT",
   generate.Getenv env (loadedVars env f) `"AZURE_OPENAI_API_VERSION").

(** The three variables [cmd/generate] takes the endpoint from are set. *)
Definition configured (env : Env) (f : FS) : bool :=
  let '(resourceHost, deployment, apiVersion) := configOf env f in
  negb (isEmpty resourceHost) && negb (isEmpty deployment)
  && negb (isEmpty apiVersion).

(** The endpoint a run of [cmd/generate] addresses. *)
Definition endpointOf (env : Env) (f : FS) : gostring :=
  let '(resourceHost, deployment, apiVersion) := configOf env f in
  endpointURL resourceHost deployment apiVersion.

(** A computation that leaves the store as it is. *)
Definition readsOnly {A} (m : M A) : Prop :=
  forall st, fs (snd (m st)) = fs st.

(** Two names of one file. *)
Definition sameFile (f : FS) (p q : gostring) : Prop :=
  canon f p = canon f q.

(** A computation that makes no name lead elsewhere and leaves what every
    name leads to as it is, except the names of the file at [target]; names
    that lead to nothing may come to lead to a directory. *)
Definition preservesExcept {A} (target : gostring) (m : M A) : Prop :=
  forall st,
    canon (fs (snd (m st))) = canon (fs st)
    /\ forall p,
        ~ sameFile (fs st) p target -> fs st p <> None ->
        fs (snd (m st)) p = fs st p.

(** The requests and the write of a run from [st], in order.  Nothing:
    the run did not end with [done].  Or one call of [client.Do], for
    [url], with the redirects the client followed: the run did not end
    with [done] either.  Or that and then one write, to [out]: if the run
    ended with [done], [out] holds the bytes written. *)
Definition sendsOnceThenWritesAt {A} (env : Env) (url out : gostring) (done : A)
           (m : M A) (st : State) : Prop :=
  exists evs,
    log (snd (m st)) = log st ++ evs
    /\ ((filter isSendOrWrite evs = [] /\ fst (m st) <> Ok done)
        \/ exists req,
            req_url req = url
            /\ ((filter isSendOrWrite evs
                 = EvDo req :: map EvRedirect (e_hops env req)
                 /\ fst (m st) <> Ok done)
                \/ exists data,
                    filter isSendOrWrite evs
                    = EvDo req :: map EvRedirect (e_hops env req)
                        ++ [EvWriteFile out data]
                    /\ (fst (m st) = Ok done ->
                        fs (snd (m st)) out = Some (RegularFile data)))).

Definition sendsOnceThenWrites {A} (env : Env) (url out : gostring) (done : A)
           (m : M A) : Prop :=
  forall st, sendsOnceThenWritesAt env url out done m st.

(** The request a run of [cmd/generate] from the store [f] sets up. *)
Definition generateRequest (env : Env) (f : FS) (flags : Flags)
           (token : gostring) (datas : list gostring) : Request :=
  let '(resourceHost, deployment, apiVersion) := configOf env f in
  requestFor env resourceHost deployment apiVersion token
             (main_images (flag_b flags) (flag_i flags)) datas
             (promptOf f (flag_p flags)) (flag_s flags).

(** The sample store with the derived output path as a second name (a hard
    link) of the input image. *)
Definition linkedFS : FS :=
  {| canon := fun p =>
       if bytes_eqb p `"a/cat_generated.png" then `"a/cat.png" else p;
     nodes := nodes sampleFS;
     missing := missing sampleFS |}.

Definition linkedState : State := {| fs := linkedFS; log := [] |}.

(** What the loop of [Clean] keeps true of the buffer of a rooted path. *)
Definition rootedBuffer (rooted : bool) (out : list ascii) (dotdot : nat) : Prop :=
  rooted = true -> (exists o, out = o ++ [filepath.Separator]) /\ dotdot = 1.

Definition notDot (c : ascii) : bool := negb (Ascii.eqb c ".").

Definition notNewline (c : ascii) : bool := negb (base64.isNewline c).

(** ** The states of [Clean] *)

(** The separator [Clean] writes before a path element: none at the start
    of the buffer. *)
Definition sepAdjust (rooted : bool) (out : list ascii) : list ascii :=
  if (rooted && negb (length out =? 1)) || (negb rooted && negb (length out =? 0))
  then filepath.Separator :: out else out.

(** The buffer of [Clean] after a [..] that cannot be resolved. *)
Definition upAdjust (out : list ascii) : list ascii :=
  "." :: "." :: (if 0 <? length out then filepath.Separator :: out else out).

(** A path element [Clean] copies: a name other than [.] and [..]. *)
Definition isElem (e : gostring) : bool :=
  negb (isEmpty e) && forallb filepath.notSep e
  && negb (bytes_eqb e `".") && negb (bytes_eqb e `"..").

(** The states of the loop of [Clean]: the reversed buffer and the index
    [dotdot].  The buffer starts empty, or with the separator of a rooted
    path; the loop appends [..] elements while nothing can be removed, and
    names. *)
Inductive Cleaned (rooted : bool) : list ascii -> nat -> Prop :=
| Cleaned_start :
    Cleaned rooted (if rooted then [filepath.Separator] else [])
            (if rooted then 1 else 0)
| Cleaned_up out :
    rooted = false ->
    Cleaned rooted out (length out) ->
    Cleaned rooted (upAdjust out) (length (upAdjust out))
| Cleaned_elem out dotdot e :
    isElem e = true ->
    Cleaned rooted out dotdot ->
    Cleaned rooted (rev e ++ sepAdjust rooted out) dotdot.

(** The loop of [Clean] with the fuel it needs. *)
Definition cleanRun (rooted : bool) (rest : gostring) (out : list ascii)
           (dotdot : nat) : list ascii :=
  filepath.clean_loop (length rest) rooted rest out dotdot.

(** The end of [Clean]: an empty buffer stands for the dot. *)
Definition cleanFinish (out : list ascii) : gostring :=
  rev (if length out =? 0 then ["."] else out).

(** What [Join] puts before the last element, for a clean directory. *)
Definition dirPrefix (dir : gostring) : gostring :=
  if bytes_eqb dir `"." then []
  else if bytes_eqb dir [filepath.Separator] then [filepath.Separator]
  else dir ++ [filepath.Separator].

(** * Properties *)

(** ** Byte strings *)

Lemma bytes_eqb_refl (a : gostring) : bytes_eqb a a = true.
Proof.
  induction a as [|x a IH]; simpl; [reflexivity|].
  now rewrite Ascii.eqb_refl, IH.
Qed.

Lemma bytes_eqb_eq (a b : gostring) : bytes_eqb a b = true <-> a = b.
Proof.
  split; [|intros ->; apply bytes_eqb_refl].
  revert b; induction a as [|x a IH]; intros [|y b]; simpl; try easy.
  rewrite andb_true_iff, Ascii.eqb_eq.
  intros [-> H]; f_equal; auto.
Qed.

Lemma takeWhile_all (f : ascii -> bool) (l : gostring) :
  forallb f l = true -> takeWhile f l = l.
Proof.
  induction l as [|c l IH]; simpl; [reflexivity|].
  rewrite andb_true_iff; intros [-> H]; f_equal; auto.
Qed.

Lemma dropWhile_all (f : ascii -> bool) (l : gostring) :
  forallb f l = true -> dropWhile f l = [].
Proof.
  induction l as [|c l IH]; simpl; [reflexivity|].
  rewrite andb_true_iff; intros [-> H]; auto.
Qed.

Lemma takeWhile_forallb (f : ascii -> bool) (l : gostring) :
  forallb f (takeWhile f l) = true.
Proof.
  induction l as [|c l IH]; simpl; [reflexivity|].
  destruct (f c) eqn:E; simpl; [now rewrite E|reflexivity].
Qed.

Lemma dropWhile_length (f : ascii -> bool) (l : gostring) :
  length (dropWhile f l) <= length l.
Proof.
  induction l as [|c l IH]; simpl; [lia|].
  destruct (f c); simpl; lia.
Qed.

Lemma forallb_rev (f : ascii -> bool) (l : gostring) :
  forallb f (rev l) = forallb f l.
Proof.
  induction l as [|c l IH]; simpl; [reflexivity|].
  rewrite forallb_app, IH; simpl.
  now rewrite andb_true_r, andb_comm.
Qed.

(** ** The store *)

Lemma lookup_update (f : FS) (path : gostring) (n : node) (p : gostring) :
  fs_update f path n p
  = if bytes_eqb (canon f p) (canon f path) then Some n else f p.
Proof. reflexivity. Qed.

Lemma bytes_eqb_ne (a b : gostring) : a <> b -> bytes_eqb a b = false.
Proof.
  intros H. destruct (bytes_eqb a b) eqn:E; [|reflexivity].
  apply bytes_eqb_eq in E. contradiction.
Qed.

Lemma fs_update_same (f : FS) (name : gostring) (n : node) :
  fs_update f name n name = Some n.
Proof. rewrite lookup_update. now rewrite bytes_eqb_refl. Qed.

Lemma fs_update_other (f : FS) (name : gostring) (n : node) (p : gostring) :
  ~ sameFile f p name -> fs_update f name n p = f p.
Proof.
  intros H. rewrite lookup_update. now rewrite (bytes_eqb_ne _ _ H).
Qed.

(** ** [strings] *)

Lemma HasSuffix_app (s e : gostring) : strings.HasSuffix (s ++ e) e = true.
Proof.
  unfold strings.HasSuffix.
  rewrite length_app.
  replace (length s + length e - length e) with (length s + 0) by lia.
  rewrite skipn_app, Nat.add_0_r, skipn_all, Nat.sub_diag; simpl.
  rewrite bytes_eqb_refl, andb_true_r.
  apply Nat.leb_le; lia.
Qed.

Lemma TrimSuffix_app (s e : gostring) : strings.TrimSuffix (s ++ e) e = s.
Proof.
  unfold strings.TrimSuffix.
  rewrite HasSuffix_app, length_app.
  replace (length s + length e - length e) with (length s + 0) by lia.
  rewrite firstn_app_2; simpl.
  apply app_nil_r.
Qed.

(** ** [filepath] *)

Section PathFacts.

Import filepath.

Lemma Ext_loop_split (r : list ascii) :
  forall t,
    Ext_loop r t = []
    \/ exists a b, takeWhile notSep r = a ++ b /\ Ext_loop r t = rev a ++ t.
Proof.
  induction r as [|c r IH]; intros t; simpl; [now left|].
  unfold notSep at 1.
  destruct (IsPathSeparator c) eqn:Hs; simpl; [now left|].
  destruct (Ascii.eqb c ".") eqn:Hd.
  - right. exists [c], (takeWhile notSep r). now simpl.
  - destruct (IH (c :: t)) as [H | (a & b & Ha & Hb)]; [now left|].
    right. exists (c :: a), b. split.
    + now rewrite Ha.
    + rewrite Hb; simpl. now rewrite <- app_assoc.
Qed.

(** The extension has no separator in it. *)
Lemma Ext_noSep (path : gostring) : forallb notSep (Ext path) = true.
Proof.
  unfold Ext.
  destruct (Ext_loop_split (rev path) []) as [-> | (a & b & Ha & ->)];
    [reflexivity|].
  rewrite app_nil_r, forallb_rev.
  pose proof (takeWhile_forallb notSep (rev path)) as H.
  rewrite Ha, forallb_app, andb_true_iff in H.
  tauto.
Qed.

(** A dot that leads the last element, with no dot after it, starts the
    extension. *)
Lemma Ext_loop_leading_dot (a : list ascii) :
  forall r b t,
    forallb (fun c => negb (Ascii.eqb c ".")) a = true ->
    takeWhile notSep r = a ++ "." :: b ->
    Ext_loop r t = "." :: rev a ++ t.
Proof.
  induction a as [|x a IH]; intros r b t Hnd Hr.
  - destruct r as [|c r]; simpl in Hr; [discriminate|].
    destruct (notSep c) eqn:Hs; [|discriminate].
    injection Hr as -> _.
    simpl. unfold notSep in Hs.
    now destruct (IsPathSeparator ".").
  - destruct r as [|c r]; simpl in Hr; [discriminate|].
    destruct (notSep c) eqn:Hs; [|discriminate].
    injection Hr as -> Hr.
    simpl in Hnd. apply andb_true_iff in Hnd as [Hx Hnd].
    simpl. unfold notSep in Hs.
    destruct (IsPathSeparator x); [discriminate|].
    destruct (Ascii.eqb x "."); [discriminate|].
    rewrite (IH r b (x :: t) Hnd Hr).
    now rewrite <- app_assoc.
Qed.

(** [Base] gives a single separator or a name without separators. *)
Lemma Base_cases (path : gostring) :
  Base path = [Separator] \/ forallb notSep (Base path) = true.
Proof.
  unfold Base.
  destruct (isEmpty path); [now right|].
  destruct (isEmpty (rev (takeWhile notSep _))) eqn:E; [now left|].
  right. rewrite forallb_rev. apply takeWhile_forallb.
Qed.

(** The last element of a path that does not end in a separator. *)
Lemma Base_last_elem (path : gostring) :
  path <> [] ->
  strings.HasSuffix path [Separator] = false ->
  Base path = rev (takeWhile notSep (rev path)).
Proof.
  intros Hne Hsuf.
  unfold Base.
  destruct path as [|p0 path'] eqn:Hp; [congruence|].
  rewrite <- Hp in *. clear Hne.
  assert (Hlast : exists c r, rev path = c :: r /\ IsPathSeparator c = false).
  { destruct (rev path) as [|c r] eqn:Hr.
    - apply (f_equal (@rev ascii)) in Hr. rewrite rev_involutive in Hr.
      subst path. discriminate.
    - exists c, r. split; [reflexivity|].
      destruct (IsPathSeparator c) eqn:Hs; [|reflexivity].
      unfold IsPathSeparator in Hs. apply Ascii.eqb_eq in Hs. subst c.
      apply (f_equal (@rev ascii)) in Hr. rewrite rev_involutive in Hr.
      simpl in Hr. rewrite Hr in Hsuf.
      now rewrite HasSuffix_app in Hsuf. }
  destruct Hlast as (c & r & Hr & Hs).
  replace (isEmpty path) with false by (rewrite Hp; reflexivity).
  rewrite Hr. cbn [dropWhile]. rewrite Hs.
  destruct (rev (takeWhile notSep (c :: r))) eqn:E; [|reflexivity].
  apply (f_equal (@length ascii)) in E.
  rewrite length_rev in E. cbn [takeWhile] in E.
  unfold notSep in E at 1. rewrite Hs in E. discriminate.
Qed.

(** The base name always ends with the extension. *)
Lemma Base_Ext (path : gostring) :
  exists stem, Base path = stem ++ Ext path.
Proof.
  destruct path as [|p0 path'] eqn:Hp.
  - exists `".". reflexivity.
  - rewrite <- Hp.
    destruct (strings.HasSuffix path [Separator]) eqn:Hsuf.
    + (* ends in a separator: no extension *)
      exists (Base path).
      unfold strings.HasSuffix in Hsuf.
      apply andb_true_iff in Hsuf as [Hlen Hsuf].
      apply bytes_eqb_eq in Hsuf.
      assert (Hrev : rev path = Separator :: rev (firstn (length path - 1) path)).
      { rewrite <- (firstn_skipn (length path - 1) path) at 1.
        simpl length in Hsuf. rewrite Hsuf, rev_app_distr. reflexivity. }
      unfold Ext. rewrite Hrev. simpl. now rewrite app_nil_r.
    + rewrite Base_last_elem by (rewrite ?Hp; congruence).
      unfold Ext.
      destruct (Ext_loop_split (rev path) []) as [-> | (a & b & Ha & ->)].
      * eexists. now rewrite app_nil_r.
      * exists (rev b). now rewrite Ha, rev_app_distr, app_nil_r.
Qed.

End PathFacts.

Section CleanFacts.

Import filepath.

Lemma clean_loop_step fuel rooted c t out dotdot :
  clean_loop (S fuel) rooted (c :: t) out dotdot =
  if IsPathSeparator c then clean_loop fuel rooted t out dotdot
  else if Ascii.eqb c "." && startsElem t then
    clean_loop fuel rooted t out dotdot
  else if Ascii.eqb c "." && Ascii.eqb (hd "000" t) "." && startsElem (tl t) then
    if dotdot <? length out then
      clean_loop fuel rooted (tl t) (backtrack dotdot out) dotdot
    else if negb rooted then
      clean_loop fuel rooted (tl t)
        ("." :: "." :: (if 0 <? length out then Separator :: out else out))
        (length ("." :: "." :: (if 0 <? length out then Separator :: out else out)))
    else clean_loop fuel rooted (tl t) out dotdot
  else
    clean_loop fuel rooted (dropWhile notSep (c :: t))
      (rev (takeWhile notSep (c :: t))
         ++ (if (rooted && negb (length out =? 1))
                || (negb rooted && negb (length out =? 0))
             then Separator :: out else out))
      dotdot.
Proof. reflexivity. Qed.

Lemma clean_loop_nil fuel rooted out dotdot :
  clean_loop fuel rooted [] out dotdot = out.
Proof. destruct fuel; reflexivity. Qed.

Lemma dropWhile_app_sep (x c : gostring) :
  dropWhile notSep (x ++ Separator :: c) = dropWhile notSep x ++ Separator :: c.
Proof.
  induction x as [|a x IH]; simpl; [reflexivity|].
  destruct (notSep a); [exact IH | reflexivity].
Qed.

(** The loop never runs out of fuel: any amount that covers the bytes
    left gives the same output. *)
Lemma clean_loop_fuel :
  forall f1 f2 rooted rest out dotdot,
    length rest <= f1 -> length rest <= f2 ->
    clean_loop f1 rooted rest out dotdot = clean_loop f2 rooted rest out dotdot.
Proof.
  induction f1 as [|f1 IH]; intros f2 rooted rest out dotdot H1 H2.
  - destruct rest; [now rewrite !clean_loop_nil | simpl in H1; lia].
  - destruct rest as [|a t]; [now rewrite !clean_loop_nil|].
    destruct f2 as [|f2]; [simpl in H2; lia|].
    cbn [length] in H1, H2.
    assert (Htl : length (tl t) <= length t) by (destruct t; simpl; lia).
    rewrite !clean_loop_step.
    destruct (IsPathSeparator a) eqn:Ha; [apply IH; lia|].
    destruct (Ascii.eqb a "." && startsElem t); [apply IH; lia|].
    destruct (Ascii.eqb a "." && Ascii.eqb (hd "000" t) "." && startsElem (tl t)).
    + destruct (dotdot <? length out); [apply IH; lia|].
      destruct (negb rooted); apply IH; lia.
    + pose proof (dropWhile_length notSep t) as Hd.
      replace (dropWhile notSep (a :: t)) with (dropWhile notSep t)
        by (cbn [dropWhile]; unfold notSep at 2; now rewrite Ha).
      apply IH; lia.
Qed.

Variable c : gostring.
Hypothesis c_noSep : forallb notSep c = true.
Hypothesis c_long : 2 < length c.

(** A last element that is a real name is copied to the output. *)
Lemma clean_loop_elem fuel rooted out dotdot :
  length c <= fuel ->
  exists pre, clean_loop fuel rooted c out dotdot = rev c ++ pre.
Proof.
  intros Hf.
  assert (Hshape : exists c0 c1 c2 ct, c = c0 :: c1 :: c2 :: ct).
  { destruct c as [|c0 [|c1 [|c2 ct]]]; simpl in c_long; try lia; eauto. }
  destruct Hshape as (c0 & c1 & c2 & ct & Hc).
  destruct fuel as [|fuel']; [lia|].
  replace (clean_loop (S fuel') rooted c out dotdot)
    with (clean_loop (S fuel') rooted (c0 :: c1 :: c2 :: ct) out dotdot)
    by now rewrite Hc.
  rewrite clean_loop_step.
  pose proof c_noSep as Hn. rewrite Hc in Hn. simpl in Hn.
  repeat rewrite andb_true_iff in Hn. destruct Hn as (H0 & H1 & H2 & Ht).
  unfold notSep in H0, H1, H2. apply negb_true_iff in H0, H1, H2.
  rewrite H0. cbn [startsElem hd tl]. rewrite H1, H2, !andb_false_r.
  rewrite <- Hc, dropWhile_all, takeWhile_all, clean_loop_nil by exact c_noSep.
  eexists; reflexivity.
Qed.

Lemma clean_loop_last :
  forall fuel rooted x out dotdot,
    length (x ++ Separator :: c) <= fuel ->
    exists pre,
      clean_loop fuel rooted (x ++ Separator :: c) out dotdot = rev c ++ pre.
Proof.
  induction fuel as [|fuel IH]; intros rooted x out dotdot Hf.
  - rewrite length_app in Hf; simpl in Hf; lia.
  - destruct x as [|a x].
    + cbn [app]. rewrite clean_loop_step.
      replace (IsPathSeparator Separator) with true by reflexivity.
      apply clean_loop_elem. simpl in Hf; lia.
    + cbn [app]. rewrite clean_loop_step.
      cbn [app length] in Hf.
      destruct (IsPathSeparator a) eqn:Ha; [apply IH; lia|].
      destruct (Ascii.eqb a "." && startsElem (x ++ Separator :: c));
        [apply IH; lia|].
      destruct (Ascii.eqb a "." && Ascii.eqb (hd "000" (x ++ Separator :: c)) "."
                && startsElem (tl (x ++ Separator :: c))) eqn:Hdd.
      * destruct x as [|b x]; [cbn in Hdd; now rewrite andb_false_r in Hdd|].
        cbn [app tl]. cbn [app length] in Hf.
        destruct (dotdot <? length out); [apply IH; lia|].
        destruct (negb rooted); apply IH; lia.
      * change (a :: x ++ Separator :: c) with ((a :: x) ++ Separator :: c).
        rewrite dropWhile_app_sep.
        replace (dropWhile notSep (a :: x)) with (dropWhile notSep x)
          by (cbn [dropWhile]; unfold notSep at 2; now rewrite Ha).
        apply IH.
        pose proof (dropWhile_length notSep x) as Hl.
        rewrite length_app in *. cbn [length] in *. lia.
Qed.

(** [Clean] keeps a last element that is a real name. *)
Lemma Clean_last (x : gostring) :
  exists pre, Clean (x ++ Separator :: c) = pre ++ c.
Proof.
  assert (Hfin : forall out pre0,
             out = rev c ++ pre0 ->
             rev (if length out =? 0 then ["."] else out) = rev pre0 ++ c).
  { intros out pre0 ->.
    replace (length (rev c ++ pre0) =? 0) with false.
    - now rewrite rev_app_distr, rev_involutive.
    - symmetry; apply Nat.eqb_neq.
      rewrite length_app, length_rev. lia. }
  unfold Clean.
  destruct x as [|a x].
  - cbn [app]. replace (IsPathSeparator Separator) with true by reflexivity.
    destruct (clean_loop_elem (length (Separator :: c)) true [Separator] 1)
      as [pre Hpre]; [simpl; lia|].
    exists (rev pre). now apply Hfin.
  - cbn [app].
    destruct (IsPathSeparator a).
    + destruct (clean_loop_last (length (a :: x ++ Separator :: c)) true
                                x [Separator] 1) as [pre Hpre];
        [simpl; lia|].
      exists (rev pre). now apply Hfin.
    + destruct (clean_loop_last (length (a :: x ++ Separator :: c)) false
                                (a :: x) [] 0) as [pre Hpre];
        [simpl; lia|].
      exists (rev pre). now apply Hfin.
Qed.

End CleanFacts.

Lemma Clean_nonempty (path : gostring) : isEmpty (filepath.Clean path) = false.
Proof.
  unfold filepath.Clean.
  destruct path as [|c t]; [reflexivity|].
  match goal with |- isEmpty (rev (if length ?o =? 0 then _ else _)) = _ =>
    destruct o as [|o0 o'] end; simpl; [reflexivity|].
  destruct (rev o' ++ [o0]) eqn:E; [|reflexivity].
  now apply app_eq_nil in E.
Qed.

Lemma Join_dir (dir elem : gostring) :
  isEmpty dir = false ->
  filepath.Join [dir; elem] = filepath.Clean (dir ++ filepath.Separator :: elem).
Proof.
  intros H. cbn [filepath.Join]. rewrite H. reflexivity.
Qed.

Lemma deriveOutputPath_eq (input stem : gostring) :
  filepath.Base input = stem ++ filepath.Ext input ->
  deriveOutputPath input =
  filepath.Join [filepath.Dir input; stem ++ generatedSuffix ++ filepath.Ext input].
Proof.
  intros H. unfold deriveOutputPath. now rewrite H, TrimSuffix_app.
Qed.

(** The output path ends with the stem, the suffix and the extension; when
    the input consists of separators only the stem is the separator that
    [Clean] merges into the one before it. *)
Lemma deriveOutputPath_tail (input stem : gostring) :
  filepath.Base input = stem ++ filepath.Ext input ->
  exists pre,
    deriveOutputPath input
    = pre ++ (if bytes_eqb (filepath.Base input) [filepath.Separator]
              then [] else stem)
          ++ generatedSuffix ++ filepath.Ext input.
Proof.
  intros Hb.
  rewrite (deriveOutputPath_eq _ _ Hb).
  unfold filepath.Dir.
  rewrite Join_dir by apply Clean_nonempty.
  pose proof (Ext_noSep input) as He.
  destruct (Base_cases input) as [Hsep | Hns].
  - (* the input is made of separators: the stem is one, the extension empty *)
    rewrite Hsep, bytes_eqb_refl.
    rewrite Hsep in Hb.
    destruct stem as [|s0 stem'].
    + simpl in Hb. rewrite <- Hb in He. discriminate.
    + injection Hb as <- Hb.
      symmetry in Hb. apply app_eq_nil in Hb as [-> Hext].
      rewrite Hext in *.
      destruct (Clean_last (generatedSuffix ++ [])
                  eq_refl ltac:(simpl; lia)
                  (filepath.Clean (rev (dropWhile filepath.notSep (rev input)))
                     ++ [filepath.Separator])) as [pre Hpre].
      rewrite <- app_assoc in Hpre. cbn [app] in Hpre.
      exists pre. exact Hpre.
  - assert (Hne : bytes_eqb (filepath.Base input) [filepath.Separator] = false).
    { destruct (bytes_eqb _ _) eqn:E; [|reflexivity].
      apply bytes_eqb_eq in E. rewrite E in Hns. discriminate. }
    rewrite Hne.
    rewrite Hb, forallb_app in Hns. apply andb_true_iff in Hns as [Hs _].
    apply Clean_last.
    + rewrite !forallb_app, Hs, He. reflexivity.
    + rewrite !length_app. simpl. lia.
Qed.

(** C8: [deriveOutputPath] puts [_generated] before the extension of the
    input: the base name is a stem followed by the extension, the result is
    the directory joined with stem, suffix and extension, and the result
    ends with stem, suffix and extension (the stem is dropped there when the
    input is made of separators only).  In particular [assets/cat.png]
    gives [assets/cat_generated.png] and [assets/cat] gives
    [assets/cat_generated]. *)
Theorem deriveOutputPath_inserts_suffix :
  (forall input,
      exists stem pre,
        filepath.Base input = stem ++ filepath.Ext input
        /\ deriveOutputPath input
           = filepath.Join [filepath.Dir input;
                            stem ++ `"_generated" ++ filepath.Ext input]
        /\ deriveOutputPath input
           = pre ++ (if bytes_eqb (filepath.Base input) `"/" then [] else stem)
                 ++ `"_generated" ++ filepath.Ext input)
  /\ deriveOutputPath `"assets/cat.png" = `"assets/cat_generated.png"
  /\ deriveOutputPath `"assets/cat" = `"assets/cat_generated".
Proof.
  split; [|split; reflexivity].
  intros input.
  destruct (Base_Ext input) as [stem Hb].
  destruct (deriveOutputPath_tail _ _ Hb) as [pre Hpre].
  exists stem, pre. split; [exact Hb|].
  split; [exact (deriveOutputPath_eq _ _ Hb)|exact Hpre].
Qed.

(** C10, as stated, fails on a path that ends in a separator: [Base] strips
    the separator and finds the dot file, [Ext] stops at the separator and
    finds no extension, so the whole base name is kept as the stem. *)
Lemma deriveOutputPath_dotfile_trailing_separator :
  filepath.Base `"dir/.env/" = "." :: `"env"
  /\ forallb (fun c => negb (Ascii.eqb c ".")) `"env" = true
  /\ deriveOutputPath `"dir/.env/" = `"dir/.env/.env_generated"
  /\ deriveOutputPath `"dir/.env/"
     <> filepath.Join [filepath.Dir `"dir/.env/";
                       `"_generated" ++ filepath.Base `"dir/.env/"].
Proof.
  repeat split; try reflexivity.
  vm_compute. discriminate.
Qed.

(** C10, amended: for a non-empty path that does not end in a separator and
    whose base name is a dot followed by dot-free bytes, the extension is the
    whole base name and the result is the directory joined with
    [_generated] followed by the base name. *)
Theorem deriveOutputPath_dotfile (input rest : gostring) :
  isEmpty input = false ->
  strings.HasSuffix input `"/" = false ->
  filepath.Base input = "." :: rest ->
  forallb (fun c => negb (Ascii.eqb c ".")) rest = true ->
  filepath.Ext input = filepath.Base input
  /\ deriveOutputPath input
     = filepath.Join [filepath.Dir input; `"_generated" ++ filepath.Base input].
Proof.
  intros Hne Hsuf Hbase Hnd.
  assert (Hne' : input <> []) by (intros ->; discriminate).
  assert (Hext : filepath.Ext input = filepath.Base input).
  { rewrite Hbase. unfold filepath.Ext.
    rewrite (Base_last_elem input Hne' Hsuf) in Hbase.
    apply (f_equal (@rev ascii)) in Hbase.
    rewrite rev_involutive in Hbase. cbn [rev] in Hbase.
    rewrite (Ext_loop_leading_dot (rev rest) (rev input) [] []).
    - now rewrite rev_involutive, app_nil_r.
    - now rewrite forallb_rev.
    - exact Hbase. }
  split; [exact Hext|].
  rewrite (deriveOutputPath_eq input []); [now rewrite Hext|].
  now rewrite Hext.
Qed.

Lemma deriveOutputPath_dotfile_witness :
  (filepath.Ext `"dir/.env" = filepath.Base `"dir/.env"
   /\ deriveOutputPath `"dir/.env"
      = filepath.Join [filepath.Dir `"dir/.env";
                       `"_generated" ++ filepath.Base `"dir/.env"])
  /\ deriveOutputPath `"dir/.env" = `"dir/_generated.env".
Proof.
  split.
  - apply (deriveOutputPath_dotfile `"dir/.env" `"env"); reflexivity.
  - reflexivity.
Defined.

(** ** [base64]: decoding undoes encoding *)

Section Base64Facts.

Import base64.
Open Scope N_scope.

Lemma decodeMap_encode (i : N) : i < 64 -> decodeMap (encode i) = Some i.
Proof.
  intros H.
  rewrite <- (N2Nat.id i).
  assert (Hn : (N.to_nat i < 64)%nat) by lia.
  generalize dependent (N.to_nat i). clear i H. intros n Hn.
  do 64 (destruct n as [|n]; [reflexivity|]).
  lia.
Qed.

(** One step of the decoder on a byte of the alphabet. *)
Lemma Decode_loop_sextet (i : N) (rest : gostring) (si j : nat) (dbuf : list N) :
  i < 64 ->
  Decode_loop (encode i :: rest) si j dbuf =
  if (j =? 3)%nat then
    match Decode_loop rest (S si) 0 [] with
    | Decoded tl => Decoded (quantum_bytes 4 (dbuf ++ [i]) ++ tl)
    | CorruptInputError n => CorruptInputError n
    end
  else Decode_loop rest (S si) (S j) (dbuf ++ [i]).
Proof.
  intros H. cbn [Decode_loop]. now rewrite (decodeMap_encode i H).
Qed.

Lemma land_shiftl_low (x y k : N) : y < 2 ^ k -> N.land (N.shiftl x k) y = 0.
Proof.
  intros Hy. apply N.bits_inj_0. intros n.
  rewrite N.land_spec.
  destruct (N.lt_ge_cases n k) as [Hlt | Hge].
  - now rewrite N.shiftl_spec_low.
  - rewrite <- (N.mod_small y (2 ^ k)) by exact Hy.
    rewrite N.mod_pow2_bits_high by exact Hge.
    apply andb_false_r.
Qed.

(** Or-ing into zeroed low bits is adding. *)
Lemma lor_shiftl_add (x y k : N) :
  y < 2 ^ k -> N.lor (N.shiftl x k) y = x * 2 ^ k + y.
Proof.
  intros Hy.
  rewrite <- N.lxor_lor, <- N.add_nocarry_lxor, N.shiftl_mul_pow2;
    auto using land_shiftl_low.
Qed.

Lemma land_63 (x : N) : N.land x 63 = x mod 64.
Proof. change 63 with (N.ones 6). now rewrite N.land_ones. Qed.

Lemma land_255 (x : N) : N.land x 255 = x mod 256.
Proof. change 255 with (N.ones 8). now rewrite N.land_ones. Qed.

Lemma byte_uint (a : ascii) (x : N) : x mod 256 = uint a -> byte x = a.
Proof.
  intros H. unfold byte. rewrite land_255, H.
  apply ascii_N_embedding.
Qed.

End Base64Facts.

Ltac div_lia := zify; Z.to_euclidean_division_equations; lia.
Section Base64Roundtrip.

Import base64.
Open Scope N_scope.

Lemma recombine (v : N) :
  (((v / 262144) mod 64 * 64 + (v / 4096) mod 64) * 64 + (v / 64) mod 64) * 64
  + v mod 64 = v mod 16777216.
Proof. div_lia. Qed.

Lemma split_bytes (a b c : N) :
  a < 256 -> b < 256 -> c < 256 ->
  let v := (a * 256 + b) * 256 + c in
  (v / 65536) mod 256 = a /\ (v / 256) mod 256 = b /\ v mod 256 = c
  /\ v < 16777216.
Proof. intros Ha Hb Hc v. subst v. div_lia. Qed.

Lemma lor_add (x y k : N) :
  x mod 2 ^ k = 0 -> y < 2 ^ k -> N.lor x y = x + y.
Proof.
  intros Hx Hy.
  assert (Hk : 2 ^ k <> 0) by (apply N.pow_nonzero; discriminate).
  rewrite (N.div_mod x (2 ^ k) Hk) at 1 2.
  rewrite Hx, N.add_0_r, N.mul_comm, <- N.shiftl_mul_pow2.
  rewrite lor_shiftl_add by exact Hy.
  now rewrite N.shiftl_mul_pow2.
Qed.

(** The 24 bits [decodeQuantum] packs. *)
Lemma pack_sextets (s0 s1 s2 s3 : N) :
  s0 < 64 -> s1 < 64 -> s2 < 64 -> s3 < 64 ->
  N.lor (N.lor (N.lor (N.shiftl s0 18) (N.shiftl s1 12)) (N.shiftl s2 6)) s3
  = ((s0 * 64 + s1) * 64 + s2) * 64 + s3.
Proof.
  intros H0 H1 H2 H3.
  rewrite !N.shiftl_mul_pow2.
  change (2 ^ 18) with 262144. change (2 ^ 12) with 4096. change (2 ^ 6) with 64.
  rewrite (lor_add (s0 * 262144) (s1 * 4096) 18)
    by (change (2 ^ 18) with 262144; div_lia).
  rewrite (lor_add _ (s2 * 64) 12) by (change (2 ^ 12) with 4096; div_lia).
  rewrite (lor_add _ s3 6) by (change (2 ^ 6) with 64; div_lia).
  lia.
Qed.

(** The 24 bits [Encode] packs. *)
Lemma pack_bytes (a b c : N) :
  a < 256 -> b < 256 -> c < 256 ->
  N.lor (N.lor (N.shiftl a 16) (N.shiftl b 8)) c = (a * 256 + b) * 256 + c.
Proof.
  intros Ha Hb Hc.
  rewrite !N.shiftl_mul_pow2.
  change (2 ^ 16) with 65536. change (2 ^ 8) with 256.
  rewrite (lor_add (a * 65536) (b * 256) 16)
    by (change (2 ^ 16) with 65536; div_lia).
  rewrite (lor_add _ c 8) by (change (2 ^ 8) with 256; div_lia).
  lia.
Qed.

Lemma sextet_lt (x : N) : N.land x 63 < 64.
Proof. rewrite land_63. now apply N.mod_lt. Qed.

Lemma uint_lt (a : ascii) : uint a < 256.
Proof. apply N_ascii_bounded. Qed.

(** What the decoder makes of the four sextets of a 24-bit value. *)
Lemma quantum_bytes_sextets (dlen : nat) (v : N) :
  v < 16777216 ->
  quantum_bytes dlen
    [N.land (N.shiftr v 18) 63; N.land (N.shiftr v 12) 63;
     N.land (N.shiftr v 6) 63; N.land v 63]
  = firstn (dlen - 1)
      [byte (N.shiftr v 16); byte (N.shiftr v 8); byte v].
Proof.
  intros Hv. unfold quantum_bytes. cbn [nth].
  rewrite pack_sextets by apply sextet_lt.
  rewrite !land_63, !N.shiftr_div_pow2.
  change (2 ^ 18) with 262144. change (2 ^ 12) with 4096. change (2 ^ 6) with 64.
  rewrite recombine, (N.mod_small v) by exact Hv.
  reflexivity.
Qed.

Lemma quantum_full (a b c : ascii) :
  let val := N.lor (N.lor (N.shiftl (uint a) 16) (N.shiftl (uint b) 8)) (uint c) in
  quantum_bytes 4
    [N.land (N.shiftr val 18) 63; N.land (N.shiftr val 12) 63;
     N.land (N.shiftr val 6) 63; N.land val 63]
  = [a; b; c].
Proof.
  intros val. subst val.
  rewrite pack_bytes by apply uint_lt.
  destruct (split_bytes (uint a) (uint b) (uint c)
                        (uint_lt a) (uint_lt b) (uint_lt c))
    as (Ha & Hb & Hc & Hv).
  rewrite quantum_bytes_sextets by exact Hv.
  cbn [firstn Nat.sub].
  rewrite !N.shiftr_div_pow2.
  change (2 ^ 16) with 65536. change (2 ^ 8) with 256.
  f_equal; [|f_equal; [|f_equal]]; apply byte_uint; assumption.
Qed.

Lemma Decode_loop_pad2 (si : nat) (dbuf : list N) :
  Decode_loop [padChar; padChar] si 2 dbuf = Decoded (quantum_bytes 2 dbuf).
Proof. reflexivity. Qed.

Lemma Decode_loop_pad1 (si : nat) (dbuf : list N) :
  Decode_loop [padChar] si 3 dbuf = Decoded (quantum_bytes 3 dbuf).
Proof. reflexivity. Qed.

Lemma quantum_one (a : ascii) :
  let val := N.shiftl (uint a) 16 in
  quantum_bytes 2 [N.land (N.shiftr val 18) 63; N.land (N.shiftr val 12) 63]
  = [a].
Proof.
  intros val.
  pose proof (uint_lt a) as Ha.
  assert (Hv : val = uint a * 65536)
    by (unfold val; now rewrite N.shiftl_mul_pow2).
  assert (H2 : N.land (N.shiftr val 6) 63 = 0)
    by (rewrite land_63, N.shiftr_div_pow2, Hv; change (2 ^ 6) with 64; div_lia).
  assert (H3 : N.land val 63 = 0) by (rewrite land_63, Hv; div_lia).
  change (quantum_bytes 2 [N.land (N.shiftr val 18) 63; N.land (N.shiftr val 12) 63])
    with (quantum_bytes 2 [N.land (N.shiftr val 18) 63; N.land (N.shiftr val 12) 63; 0; 0]).
  rewrite <- H2 at 1. rewrite <- H3 at 1.
  rewrite quantum_bytes_sextets by (rewrite Hv; lia).
  cbn [firstn Nat.sub]. f_equal. apply byte_uint.
  rewrite N.shiftr_div_pow2, Hv. change (2 ^ 16) with 65536. div_lia.
Qed.

Lemma quantum_two (a b : ascii) :
  let val := N.lor (N.shiftl (uint a) 16) (N.shiftl (uint b) 8) in
  quantum_bytes 3 [N.land (N.shiftr val 18) 63; N.land (N.shiftr val 12) 63;
                   N.land (N.shiftr val 6) 63]
  = [a; b].
Proof.
  intros val.
  pose proof (uint_lt a) as Ha. pose proof (uint_lt b) as Hb.
  assert (Hv : val = (uint a * 256 + uint b) * 256 + 0).
  { unfold val. rewrite <- pack_bytes by (try apply uint_lt; lia).
    now rewrite N.lor_0_r. }
  destruct (split_bytes (uint a) (uint b) 0 Ha Hb ltac:(lia))
    as (Ea & Eb & _ & Hlt).
  rewrite <- Hv in Ea, Eb, Hlt.
  assert (H3 : N.land val 63 = 0) by (rewrite land_63, Hv; div_lia).
  change (quantum_bytes 3 [N.land (N.shiftr val 18) 63; N.land (N.shiftr val 12) 63;
                           N.land (N.shiftr val 6) 63])
    with (quantum_bytes 3 [N.land (N.shiftr val 18) 63; N.land (N.shiftr val 12) 63;
                           N.land (N.shiftr val 6) 63; 0]).
  rewrite <- H3 at 1.
  rewrite quantum_bytes_sextets by exact Hlt.
  cbn [firstn Nat.sub].
  rewrite !N.shiftr_div_pow2.
  change (2 ^ 16) with 65536. change (2 ^ 8) with 256.
  f_equal; [|f_equal]; apply byte_uint; assumption.
Qed.

(** Induction three bytes at a time. *)
Lemma list_ind_by3 (P : gostring -> Prop) :
  P [] ->
  (forall a, P [a]) ->
  (forall a b, P [a; b]) ->
  (forall a b c rest, P rest -> P (a :: b :: c :: rest)) ->
  forall l, P l.
Proof.
  intros H0 H1 H2 H3 l.
  assert (H : forall n l, (length l <= n)%nat -> P l).
  { clear l. induction n as [|n IH]; intros l Hl.
    - destruct l; [exact H0 | simpl in Hl; lia].
    - destruct l as [|a [|b [|c rest]]]; auto.
      apply H3, IH. simpl in Hl. lia. }
  exact (H (length l) l (le_n _)).
Qed.

(** Decoding the standard encoding of [src] gives [src] back. *)
Lemma Decode_loop_EncodeToString (src : gostring) :
  forall si, Decode_loop (EncodeToString src) si 0 [] = Decoded src.
Proof.
  induction src as [|a|a b|a b c rest IH] using list_ind_by3; intros si.
  - reflexivity.
  - cbn [EncodeToString].
    rewrite !Decode_loop_sextet by apply sextet_lt.
    cbn [Nat.eqb app].
    now rewrite Decode_loop_pad2, quantum_one.
  - cbn [EncodeToString].
    rewrite !Decode_loop_sextet by apply sextet_lt.
    cbn [Nat.eqb app].
    now rewrite Decode_loop_pad1, quantum_two.
  - cbn [EncodeToString].
    rewrite !Decode_loop_sextet by apply sextet_lt.
    cbn [Nat.eqb app].
    now rewrite IH, quantum_full.
Qed.

Lemma DecodeString_EncodeToString (src : gostring) :
  DecodeString (EncodeToString src) = Some src.
Proof.
  unfold DecodeString, Decode. now rewrite Decode_loop_EncodeToString.
Qed.

(** [DecodeString] gives bytes where [Decode] does. *)
Lemma DecodeString_Some (s dst : gostring) :
  DecodeString s = Some dst <-> Decode s = Decoded dst.
Proof.
  unfold DecodeString. destruct (Decode s); split; congruence.
Qed.

Lemma DecodeString_None (s : gostring) :
  DecodeString s = None <-> exists offset, Decode s = CorruptInputError offset.
Proof.
  unfold DecodeString. destruct (Decode s) as [dst | offset]; split.
  - discriminate.
  - intros [n H]. discriminate.
  - intros _. now exists offset.
  - reflexivity.
Qed.

End Base64Roundtrip.

(** ** Computations that write no file *)

Section Quiet.

Lemma quiet_pure {A} (m : M A) :
  (forall st, snd (m st) = st) -> quiet m.
Proof.
  intros H st. rewrite H. split; [|auto].
  exists []. now rewrite app_nil_r.
Qed.

Lemma quiet_ret {A} (a : A) : quiet (ret a).
Proof. now apply quiet_pure. Qed.

Lemma quiet_fail {A} (msg : gostring) : quiet (@fail A msg).
Proof. now apply quiet_pure. Qed.

Lemma quiet_lift {A} (r : Result A) : quiet (lift r).
Proof. now apply quiet_pure. Qed.

Lemma quiet_get_fs : quiet get_fs.
Proof. now apply quiet_pure. Qed.

Lemma quiet_tell (e : Event) : isWrite e = false -> quiet (tell e).
Proof.
  intros H st. split; [|auto].
  exists [e]. simpl. now rewrite H.
Qed.

Lemma quiet_bind {A B} (m : M A) (k : A -> M B) :
  quiet m -> (forall a, quiet (k a)) -> quiet (bind m k).
Proof.
  intros Hm Hk st. unfold bind.
  destruct (Hm st) as ((evs & Hlog & Hw) & Hfs).
  destruct (m st) as [[a | e] st1]; simpl in Hlog, Hfs.
  - destruct (Hk a st1) as ((evs' & Hlog' & Hw') & Hfs').
    split; [|auto].
    exists (evs ++ evs'). split.
    + now rewrite Hlog', Hlog, app_assoc.
    + now rewrite filter_app, Hw, Hw'.
  - split; [|auto]. exists evs. now split.
Qed.

Lemma quiet_wrap {A} (prefix : gostring) (m : M A) : quiet m -> quiet (wrap prefix m).
Proof.
  intros Hm st. unfold wrap.
  destruct (Hm st) as (Hev & Hfs).
  destruct (m st) as [[a | e] st1]; now split.
Qed.

End Quiet.

Ltac quiet_step :=
  first [ apply quiet_ret | apply quiet_fail | apply quiet_lift
        | apply quiet_get_fs
        | apply quiet_tell; reflexivity
        | apply quiet_wrap
        | apply quiet_bind; [|intros ?] ].

Ltac quiet_cases :=
  repeat first
    [ quiet_step
    | match goal with
      | |- quiet (match ?x with _ => _ end) => destruct x
      | |- quiet (if ?b then _ else _) => destruct b
      end ].

(** [os.MkdirAll] adds directories only. *)
Lemma quiet_MkdirAll env path : quiet (os_MkdirAll env path).
Proof.
  intros st.
  unfold os_MkdirAll, bind, tell, get_fs, emit, ret, fail, put_fs. cbn [fs log].
  assert (Hev : forall (r : Result unit) f,
             exists evs,
               log (snd (r, {| fs := f; log := log st ++ [EvMkdirAll path] |}))
               = log st ++ evs /\ filter isWrite evs = []).
  { intros r f. exists [EvMkdirAll path]. now split. }
  destruct (fs st path) as [[d | | ] | ] eqn:Hp; try (split; [apply Hev | auto]).
  destruct (e_mkdir env path); cbn [fs log]; (split; [apply Hev |]); auto.
  intros p d. cbn [snd fs]. rewrite lookup_update.
  destruct (bytes_eqb _ _); [discriminate | auto].
Qed.

Lemma quiet_addImagePart env w fieldName imagePath :
  quiet (addImagePart env w fieldName imagePath).
Proof. unfold addImagePart, multipart.CreatePart, multipart.Write. quiet_cases. Qed.

Lemma quiet_addImageParts env fieldName imagePaths :
  forall w, quiet (addImageParts env w fieldName imagePaths).
Proof.
  induction imagePaths as [|p rest IH]; intros w; cbn [addImageParts].
  - apply quiet_ret.
  - apply quiet_bind; [apply quiet_addImagePart | intros w'; apply IH].
Qed.

Lemma quiet_buildMultipartBody env imagePaths prompt size :
  quiet (buildMultipartBody env imagePaths prompt size).
Proof.
  unfold buildMultipartBody.
  apply quiet_bind; [apply quiet_addImageParts | intros w1].
  quiet_cases.
Qed.

Lemma quiet_root_getAzureToken env : quiet (root.getAzureToken env).
Proof. unfold root.getAzureToken. quiet_cases. Qed.

Lemma quiet_generate_getAzureToken env : quiet (generate.getAzureToken env).
Proof. unfold generate.getAzureToken. quiet_cases. Qed.

(** ** The one write *)

Lemma main_response_ok env outputFile respBytes envelope st :
  e_unmarshal env respBytes = Ok envelope ->
  main_response env outputFile respBytes st =
  match main_decode envelope with
  | Ok imageBytes =>
    wrap `"Error writing output file" (os_WriteFile env outputFile imageBytes) st
  | Err msg => (Err msg, st)
  end.
Proof.
  intros H. unfold main_response, bind, ret, lift. now rewrite H.
Qed.

(** The call [truncate(string(respBytes), 500)] does not panic. *)
Lemma truncate_500 (s : gostring) :
  truncate s 500
  = Ok (if length s <=? 500 then s else firstn 500 s ++ `"...").
Proof.
  unfold truncate.
  destruct (Z.leb_spec (Z.of_nat (length s)) 500) as [H | H].
  - replace (length s <=? 500) with true by (symmetry; apply Nat.leb_le; lia).
    reflexivity.
  - replace (length s <=? 500) with false by (symmetry; apply Nat.leb_gt; lia).
    reflexivity.
Qed.

Lemma main_response_parse_error env outputFile respBytes e st :
  e_unmarshal env respBytes = Err e ->
  main_response env outputFile respBytes st =
  (Err (`"Error parsing response JSON: " ++ e ++ ["010"]
         ++ `"Raw (first 500 bytes): "
         ++ (if length respBytes <=? 500 then respBytes
             else firstn 500 respBytes ++ `"...")), st).
Proof.
  intros H. unfold main_response, bind, fail. now rewrite H, truncate_500.
Qed.

Lemma WriteFile_log env name data st :
  log (snd (os_WriteFile env name data st)) = log st ++ [EvWriteFile name data].
Proof.
  unfold os_WriteFile, bind, tell, get_fs, emit, ret, fail, put_fs. cbn [fs log].
  destruct (match fs st name with
            | Some Directory => _ | Some NoAccess => _ | _ => _ end);
    [reflexivity|].
  cbn [fs log].
  destruct (_ <? _); [reflexivity|].
  destruct (e_close env); reflexivity.
Qed.

Lemma quiet_sendRequest env req : quiet (sendRequest env req).
Proof.
  assert (Hhops : quiet (tellAll (map EvRedirect (e_hops env req)))).
  { intros st. split; [|auto].
    exists (map EvRedirect (e_hops env req)). split; [reflexivity|].
    induction (e_hops env req) as [|r l IH]; [reflexivity | exact IH]. }
  unfold sendRequest.
  destruct (e_http env req); [apply quiet_fail | | |];
    (apply quiet_bind; [apply quiet_tell; reflexivity | intros _]);
    (apply quiet_bind; [exact Hhops | intros _]);
    (apply quiet_fail || apply quiet_ret).
Qed.

Lemma quiet_main_config env : quiet (generate.main_config env).
Proof. unfold generate.main_config, generate.godotenv_Load. quiet_cases. Qed.

Section WritesOnlyDecoded.

Variable env : Env.
Variable outputFile : gostring.

Lemma wod_fail {A} (done : A) (msg : gostring) :
  writesOnlyDecoded env outputFile done (fail msg).
Proof.
  intros st. exists []. rewrite app_nil_r. split; [reflexivity|].
  left. split; [reflexivity|]. split; [discriminate | auto].
Qed.

Lemma wod_ret {A} (done a : A) :
  a <> done -> writesOnlyDecoded env outputFile done (ret a).
Proof.
  intros Hne st. exists []. rewrite app_nil_r. split; [reflexivity|].
  left. split; [reflexivity|]. split; [|auto].
  cbn. intros H. injection H as H. contradiction.
Qed.

Lemma wod_quiet_bind {A B} (done : B) (m : M A) (k : A -> M B) :
  quiet m ->
  (forall a, writesOnlyDecoded env outputFile done (k a)) ->
  writesOnlyDecoded env outputFile done (bind m k).
Proof.
  intros Hm Hk st. unfold bind.
  destruct (Hm st) as ((evs & Hlog & Hw) & Hfs).
  destruct (m st) as [[a | e] st1]; simpl in Hlog, Hfs.
  - destruct (Hk a st1) as (evs' & Hlog' & Hcase).
    exists (evs ++ evs'). split; [now rewrite Hlog', Hlog, app_assoc|].
    rewrite filter_app, Hw. cbn [app].
    destruct Hcase as [(Hw' & Hmsg & Hfs') | Hdec]; [left | right; exact Hdec].
    repeat split; auto.
  - exists evs. split; [exact Hlog|].
    left. split; [exact Hw|]. split; [discriminate | exact Hfs].
Qed.

(** What comes after the write is the end of [main]. *)
Lemma wod_then_done (m : M unit) :
  writesOnlyDecoded env outputFile tt m ->
  writesOnlyDecoded env outputFile ExitDone (m ;;; ret ExitDone).
Proof.
  intros Hm st. unfold bind, ret.
  destruct (Hm st) as (evs & Hlog & Hcase).
  destruct (m st) as [[[] | e] st1]; cbn [fst snd] in *;
    exists evs; (split; [exact Hlog|]).
  - destruct Hcase as [(Hw & Hne & Hfs) | Hdec]; [now contradiction Hne | now right].
  - destruct Hcase as [(Hw & Hne & Hfs) | Hdec]; [left | now right].
    split; [exact Hw|]. split; [discriminate | exact Hfs].
Qed.

Lemma wod_main_response (respBytes : gostring) :
  writesOnlyDecoded env outputFile tt (main_response env outputFile respBytes).
Proof.
  intros st.
  destruct (e_unmarshal env respBytes) as [envelope | e] eqn:Hu.
  - rewrite (main_response_ok _ _ _ _ _ Hu).
    destruct (main_decode envelope) as [imageBytes | msg] eqn:Hd.
    + exists [EvWriteFile outputFile imageBytes]. split.
      * unfold wrap.
        pose proof (WriteFile_log env outputFile imageBytes st) as Hl.
        destruct (os_WriteFile env outputFile imageBytes st) as [[[]|e] st1];
          exact Hl.
      * right. now exists respBytes, envelope, imageBytes.
    + exists []. rewrite app_nil_r. split; [reflexivity|].
      left. split; [reflexivity|]. split; [discriminate | auto].
  - rewrite (main_response_parse_error _ _ _ _ _ Hu).
    exists []. rewrite app_nil_r. split; [reflexivity|].
    left. split; [reflexivity|]. split; [discriminate | auto].
Qed.

End WritesOnlyDecoded.

Lemma wod_main_rest env host dep api (getToken : M gostring) flags prompt :
  quiet getToken ->
  writesOnlyDecoded env (deriveOutputPath (flag_i flags)) tt
    (main_rest env host dep api getToken flags prompt).
Proof.
  intros Htok. unfold main_rest.
  destruct (isEmpty (flag_i flags)); [apply wod_fail|].
  apply wod_quiet_bind; [apply quiet_get_fs | intros f].
  destruct (notExist f (flag_i flags)); [apply wod_fail|].
  destruct (_ && _); [apply wod_fail|].
  apply wod_quiet_bind; [apply quiet_wrap, quiet_MkdirAll | intros _].
  apply wod_quiet_bind; [apply quiet_wrap, Htok | intros token].
  apply wod_quiet_bind;
    [apply quiet_wrap, quiet_buildMultipartBody | intros bc].
  apply wod_quiet_bind; [apply quiet_sendRequest | intros respBytes].
  apply wod_main_response.
Qed.

Lemma wod_root_main env flags :
  writesOnlyDecoded env (deriveOutputPath (flag_i flags)) tt (root.main env flags).
Proof.
  unfold root.main.
  destruct (isEmpty (flag_p flags)); [apply wod_fail|].
  apply wod_main_rest, quiet_root_getAzureToken.
Qed.

Lemma wod_generate_main_flags env config flags :
  writesOnlyDecoded env (deriveOutputPath (flag_i flags)) tt
    (generate.main_flags env config flags).
Proof.
  unfold generate.main_flags. destruct config as [[host dep] api].
  destruct (isEmpty (flag_p flags)); [apply wod_fail|].
  apply wod_quiet_bind; [apply quiet_get_fs | intros f].
  apply wod_quiet_bind; [quiet_cases | intros prompt].
  apply wod_main_rest, quiet_generate_getAzureToken.
Qed.

Lemma wod_generate_main env flags :
  writesOnlyDecoded env (deriveOutputPath (flag_i flags)) tt
    (generate.main env flags).
Proof.
  unfold generate.main.
  apply wod_quiet_bind; [apply quiet_main_config | intros config].
  apply wod_generate_main_flags.
Qed.

(** Every run, whatever the command line. *)
Lemma wod_root_run env args :
  writesOnlyDecoded env (outputOf args) ExitDone (root.run env args).
Proof.
  unfold root.run, outputOf, parsedFlags.
  destruct (flag.Parse args) as [flags | | msg].
  - apply wod_then_done, wod_root_main.
  - apply wod_ret. discriminate.
  - apply wod_ret. discriminate.
Qed.

Lemma wod_generate_run env args :
  writesOnlyDecoded env (outputOf args) ExitDone (generate.run env args).
Proof.
  unfold generate.run, outputOf, parsedFlags.
  apply wod_quiet_bind; [apply quiet_main_config | intros config].
  destruct (flag.Parse args) as [flags | | msg].
  - apply wod_then_done, wod_generate_main_flags.
  - apply wod_ret. discriminate.
  - apply wod_ret. discriminate.
Qed.

(** ** The three diagnostics of the decoding step are different texts *)

Lemma remote_ne_noImageData (e : apiError) :
  remoteErrorMessage e <> noImageDataMessage.
Proof.
  unfold remoteErrorMessage. intros H.
  apply (f_equal (@rev ascii)) in H.
  rewrite !app_assoc, rev_app_distr in H.
  discriminate.
Qed.

Lemma remote_ne_corrupt (e : apiError) (offset : nat) :
  remoteErrorMessage e <> corruptPayloadMessage offset.
Proof. discriminate. Qed.

Lemma noImageData_ne_corrupt (offset : nat) :
  noImageDataMessage <> corruptPayloadMessage offset.
Proof. discriminate. Qed.

(** ** Decoding the envelope *)

(** C1: when the error object is populated the decoder fails with the
    remote message, type and code copied into the diagnostic, whatever the
    data list holds; [main] ends there and touches neither store nor log. *)
Theorem remote_error_takes_precedence
        (env : Env) (outputFile respBytes : gostring)
        (data : list imageDatum) (e : apiError) (st : State) :
  e_unmarshal env respBytes = Ok {| Data := data; Error := Some e |} ->
  main_decode {| Data := data; Error := Some e |}
  = Err (`"Image edit failed: " ++ Message e ++ `" (type=" ++ Type_ e
          ++ `", code=" ++ Code e ++ `")")
  /\ main_response env outputFile respBytes st
     = (Err (`"Image edit failed: " ++ Message e ++ `" (type=" ++ Type_ e
              ++ `", code=" ++ Code e ++ `")"), st).
Proof.
  intros Hu. split; [reflexivity|].
  now rewrite (main_response_ok _ _ _ _ _ Hu).
Qed.

Lemma remote_error_takes_precedence_witness :
  let envelope := {| Data := [ {| B64JSON := `"SGVsbG8=" |} ];
                     Error := Some sampleError |} in
  let env := sampleEnv (Ok envelope) None in
  e_unmarshal env `"{}" = Ok envelope
  /\ main_decode envelope
     = Err `"Image edit failed: Your request was rejected (type=invalid_request_error, code=moderation_blocked)"
  /\ main_response env `"a/cat_generated.png" `"{}" sampleState
     = (Err `"Image edit failed: Your request was rejected (type=invalid_request_error, code=moderation_blocked)",
        sampleState).
Proof.
  split; [reflexivity|].
  apply (remote_error_takes_precedence
           (sampleEnv (Ok {| Data := [ {| B64JSON := `"SGVsbG8=" |} ];
                             Error := Some sampleError |}) None)
           `"a/cat_generated.png" `"{}"
           [ {| B64JSON := `"SGVsbG8=" |} ] sampleError sampleState).
  reflexivity.
Defined.

(** C4: with no error object, an empty data list or an empty first payload
    gives the [no image data] diagnostic, which is neither the text of an
    index panic nor that of a remote error nor that of a corrupt payload;
    [main] ends there and touches neither store nor log. *)
Theorem no_image_data_failure
        (env : Env) (outputFile respBytes : gostring)
        (data : list imageDatum) (st : State) :
  e_unmarshal env respBytes = Ok {| Data := data; Error := None |} ->
  (data = [] \/ exists d rest, data = d :: rest /\ B64JSON d = []) ->
  main_decode {| Data := data; Error := None |}
  = Err `"Image edit failed: no image data in response"
  /\ main_response env outputFile respBytes st
     = (Err `"Image edit failed: no image data in response", st)
  /\ noImageDataMessage <> indexPanicMessage
  /\ (forall offset, noImageDataMessage <> corruptPayloadMessage offset)
  /\ (forall e, noImageDataMessage <> remoteErrorMessage e).
Proof.
  intros Hu Hdata.
  assert (Hd : main_decode {| Data := data; Error := None |}
               = Err noImageDataMessage).
  { destruct Hdata as [-> | (d & rest & -> & Hb)]; [reflexivity|].
    unfold main_decode. cbn [Error Data length Nat.eqb nth_error].
    now rewrite Hb. }
  split; [exact Hd|].
  split; [now rewrite (main_response_ok _ _ _ _ _ Hu), Hd|].
  split; [discriminate|].
  split; [exact noImageData_ne_corrupt|].
  intros e H. now apply (remote_ne_noImageData e).
Qed.

Lemma no_image_data_failure_witness :
  let envelope := {| Data := []; Error := None |} in
  let env := sampleEnv (Ok envelope) None in
  e_unmarshal env `"{}" = Ok envelope
  /\ main_decode envelope = Err `"Image edit failed: no image data in response"
  /\ main_response env `"a/cat_generated.png" `"{}" sampleState
     = (Err `"Image edit failed: no image data in response", sampleState).
Proof.
  split; [reflexivity|].
  destruct (no_image_data_failure
              (sampleEnv (Ok {| Data := []; Error := None |}) None)
              `"a/cat_generated.png" `"{}" [] sampleState
              eq_refl (or_introl eq_refl)) as (H1 & H2 & _).
  split; [exact H1 | exact H2].
Defined.

(** ** Writing the image *)

(** When [os.WriteFile] returns no error the file holds the bytes given. *)
Lemma WriteFile_ok_content env name data st st' :
  os_WriteFile env name data st = (Ok tt, st') ->
  fs st' name = Some (RegularFile data).
Proof.
  unfold os_WriteFile, bind, tell, get_fs, emit, ret, fail, put_fs. cbn [fs log].
  destruct (match fs st name with
            | Some Directory => _ | Some NoAccess => _ | _ => _ end);
    [discriminate|].
  cbn [fs log].
  destruct (_ <? _) eqn:Hlen; [discriminate|].
  destruct (e_close env); [discriminate|].
  intros H. injection H as <-. cbn [fs].
  rewrite fs_update_same. do 2 f_equal.
  destruct (e_wcap env) as [cap|]; [|reflexivity].
  apply Nat.ltb_ge in Hlen. rewrite length_firstn in Hlen.
  apply firstn_all2. lia.
Qed.

(** When nothing stands in the way [os.WriteFile] returns no error. *)
Lemma WriteFile_succeeds env name data st :
  match fs st name with
  | Some Directory | Some NoAccess => false
  | _ => true
  end = true ->
  e_openw env name = None ->
  match e_wcap env with
  | Some cap => length data <=? cap
  | None => true
  end = true ->
  e_close env = None ->
  exists st', os_WriteFile env name data st = (Ok tt, st').
Proof.
  intros Hnode Hopen Hcap Hclose.
  unfold os_WriteFile, bind, tell, get_fs, emit, ret, fail, put_fs. cbn [fs log].
  replace (match fs st name with
           | Some Directory => Some `"is a directory"
           | Some NoAccess => Some `"permission denied"
           | _ => e_openw env name
           end) with (@None gostring)
    by (destruct (fs st name) as [[]|]; (discriminate || now rewrite Hopen)).
  cbn [fs log].
  replace (length match e_wcap env with
                  | Some cap => firstn cap data
                  | None => data
                  end <? length data) with false.
  - rewrite Hclose. eexists; reflexivity.
  - symmetry. apply Nat.ltb_ge.
    destruct (e_wcap env) as [cap|]; [|lia].
    apply Nat.leb_le in Hcap. rewrite firstn_all2; lia.
Qed.

(** C5, as stated, fails for the empty byte sequence: its standard encoding
    is the empty string, which the decoder takes for a missing image. *)
Lemma empty_image_not_decoded :
  base64.EncodeToString [] = []
  /\ base64.DecodeString (base64.EncodeToString []) = Some []
  /\ main_decode {| Data := [ {| B64JSON := base64.EncodeToString [] |} ];
                    Error := None |}
     = Err `"Image edit failed: no image data in response"
  /\ main_decode {| Data := [ {| B64JSON := base64.EncodeToString [] |} ];
                    Error := None |}
     <> Ok [].
Proof. repeat split; try reflexivity. discriminate. Qed.

(** C5, amended: for a non-empty byte sequence [B], the standard encoding
    of [B] decodes to [B]; an envelope without error object whose first
    payload decodes to [B] gives exactly [B]; whenever [main] then ends
    normally the output file holds exactly [B]; and it does end normally
    when the file can be opened, the device takes all bytes and the file
    closes. *)
Theorem image_bytes_roundtrip
        (B b64 : gostring) (rest : list imageDatum)
        (env : Env) (outputFile respBytes : gostring) (st : State) :
  isEmpty B = false ->
  base64.DecodeString b64 = Some B ->
  e_unmarshal env respBytes
  = Ok {| Data := {| B64JSON := b64 |} :: rest; Error := None |} ->
  match fs st outputFile with
  | Some Directory | Some NoAccess => false
  | _ => true
  end = true ->
  e_openw env outputFile = None ->
  match e_wcap env with
  | Some cap => length B <=? cap
  | None => true
  end = true ->
  e_close env = None ->
  base64.DecodeString (base64.EncodeToString B) = Some B
  /\ main_decode {| Data := {| B64JSON := b64 |} :: rest; Error := None |} = Ok B
  /\ exists st',
      main_response env outputFile respBytes st = (Ok tt, st')
      /\ fs st' outputFile = Some (RegularFile B)
      /\ log st' = log st ++ [EvWriteFile outputFile B].
Proof.
  intros HB Hdec Hu Hnode Hopen Hcap Hclose.
  split; [apply DecodeString_EncodeToString|].
  assert (Hd : main_decode {| Data := {| B64JSON := b64 |} :: rest; Error := None |}
               = Ok B).
  { unfold main_decode. cbn [Error Data length Nat.eqb nth_error B64JSON].
    apply DecodeString_Some in Hdec.
    destruct b64 as [|c b64']; [|cbn [isEmpty]; now rewrite Hdec].
    cbv in Hdec. injection Hdec as <-. discriminate. }
  split; [exact Hd|].
  rewrite (main_response_ok _ _ _ _ _ Hu), Hd.
  destruct (WriteFile_succeeds env outputFile B st Hnode Hopen Hcap Hclose)
    as [st' Hw].
  exists st'. unfold wrap. rewrite Hw.
  split; [reflexivity|].
  split; [exact (WriteFile_ok_content _ _ _ _ _ Hw)|].
  pose proof (WriteFile_log env outputFile B st) as Hl.
  now rewrite Hw in Hl.
Qed.

Lemma image_bytes_roundtrip_witness :
  let B := `"Hello, world!!" in
  let b64 := `"SGVsbG8sIHdvcmxkISE=" in
  let envelope := {| Data := [ {| B64JSON := b64 |} ]; Error := None |} in
  let env := sampleEnv (Ok envelope) None in
  base64.EncodeToString B = b64
  /\ base64.DecodeString (base64.EncodeToString B) = Some B
  /\ main_decode envelope = Ok B
  /\ exists st',
      main_response env `"a/cat_generated.png" `"{}" sampleState = (Ok tt, st')
      /\ fs st' `"a/cat_generated.png" = Some (RegularFile B)
      /\ log st' = log sampleState ++ [EvWriteFile `"a/cat_generated.png" B].
Proof.
  split; [reflexivity|].
  apply (image_bytes_roundtrip
           `"Hello, world!!" `"SGVsbG8sIHdvcmxkISE=" []
           (sampleEnv (Ok {| Data := [ {| B64JSON := `"SGVsbG8sIHdvcmxkISE=" |} ];
                             Error := None |}) None)
           `"a/cat_generated.png" `"{}" sampleState);
    reflexivity.
Defined.

(** When the device gives up after three bytes, [main] ends with the
    write error and the file is left with those three bytes. *)
Lemma partial_write_example :
  let envelope := {| Data := [ {| B64JSON := `"SGVsbG8sIHdvcmxkISE=" |} ];
                     Error := None |} in
  let run := main_response (sampleEnv (Ok envelope) (Some 3))
                           `"a/cat_generated.png" `"{}" sampleState in
  fst run = Err `"Error writing output file: write a/cat_generated.png: no space left on device"
  /\ fs sampleState `"a/cat_generated.png" = None
  /\ fs (snd run) `"a/cat_generated.png" = Some (RegularFile `"Hel").
Proof. repeat split. Qed.

(** C6, as stated, fails when the envelope also carries an error object:
    the payload is not valid base64, yet the failure is the remote error,
    not the corrupt payload one. *)
Lemma corrupt_payload_behind_remote_error :
  let envelope := {| Data := [ {| B64JSON := `"!!!" |} ];
                     Error := Some sampleError |} in
  base64.DecodeString `"!!!" = None
  /\ main_decode envelope = Err (remoteErrorMessage sampleError)
  /\ forall offset, main_decode envelope <> Err (corruptPayloadMessage offset).
Proof. repeat split. discriminate. Qed.

(** C6, amended: with no error object, a first payload that is not valid
    standard base64 gives the corrupt payload diagnostic, which names the
    offset of the offending byte and is a text different from those of the
    remote error and of the missing image, and [main] ends there touching
    neither store nor log.  Every run of each of the two programs,
    whatever its command line, either does not end normally and writes no
    file, or calls [os.WriteFile] exactly once, on the derived output path,
    with the bytes of an envelope that decoded in full. *)
Theorem write_only_after_decode (env : Env) (args : list gostring) :
  (forall (outputFile respBytes : gostring) (d : imageDatum)
          (rest : list imageDatum) (st : State),
      e_unmarshal env respBytes = Ok {| Data := d :: rest; Error := None |} ->
      base64.DecodeString (B64JSON d) = None ->
      exists offset : nat,
        base64.Decode (B64JSON d) = base64.CorruptInputError offset
        /\ main_decode {| Data := d :: rest; Error := None |}
           = Err (`"Error decoding base64 image: illegal base64 data at input byte "
                  ++ itoa offset)
        /\ main_response env outputFile respBytes st
           = (Err (`"Error decoding base64 image: illegal base64 data at input byte "
                   ++ itoa offset), st))
  /\ (forall offset, corruptPayloadMessage offset <> noImageDataMessage)
  /\ (forall offset e, corruptPayloadMessage offset <> remoteErrorMessage e)
  /\ writesOnlyDecoded env (outputOf args) ExitDone (root.run env args)
  /\ writesOnlyDecoded env (outputOf args) ExitDone (generate.run env args).
Proof.
  split.
  { intros outputFile respBytes d rest st Hu Hdec.
    apply DecodeString_None in Hdec. destruct Hdec as [offset Hdec].
    exists offset. split; [exact Hdec|].
    assert (Hd : main_decode {| Data := d :: rest; Error := None |}
                 = Err (corruptPayloadMessage offset)).
    { unfold main_decode. cbn [Error Data length Nat.eqb nth_error].
      destruct (B64JSON d) as [|c b]; [discriminate|].
      cbn [isEmpty]. now rewrite Hdec. }
    split; [exact Hd|].
    now rewrite (main_response_ok _ _ _ _ _ Hu), Hd. }
  split; [discriminate|].
  split; [discriminate|].
  split; [apply wod_root_run | apply wod_generate_run].
Qed.

Lemma write_only_after_decode_witness :
  let corrupt := {| Data := [ {| B64JSON := `"SGVs!G8=" |} ]; Error := None |} in
  let envelope := {| Data := [ {| B64JSON := `"SGVsbG8sIHdvcmxkISE=" |} ];
                     Error := None |} in
  let args := [ `"-p"; `"a cat"; `"-i"; `"a/cat.png" ] in
  (e_unmarshal (sampleEnv (Ok corrupt) None) `"{}" = Ok corrupt
   /\ base64.DecodeString `"SGVs!G8=" = None
   /\ main_decode corrupt
      = Err `"Error decoding base64 image: illegal base64 data at input byte 4"
   /\ main_response (sampleEnv (Ok corrupt) None) `"a/cat_generated.png" `"{}"
                    sampleState
      = (Err `"Error decoding base64 image: illegal base64 data at input byte 4",
         sampleState))
  /\ outputOf args = `"a/cat_generated.png"
  /\ writesOnlyDecoded (sampleEnv (Ok envelope) None) `"a/cat_generated.png"
                       ExitDone (generate.run (sampleEnv (Ok envelope) None) args)
  /\ fst (generate.run (sampleEnv (Ok envelope) None) args sampleState)
     = Ok ExitDone
  /\ filter isWrite
            (log (snd (generate.run (sampleEnv (Ok envelope) None) args
                                    sampleState)))
     = [EvWriteFile `"a/cat_generated.png" `"Hello, world!!"].
Proof.
  split.
  { destruct (write_only_after_decode
                (sampleEnv (Ok {| Data := [ {| B64JSON := `"SGVs!G8=" |} ];
                                  Error := None |}) None) [])
      as (H & _).
    destruct (H `"a/cat_generated.png" `"{}" {| B64JSON := `"SGVs!G8=" |} []
                sampleState eq_refl eq_refl) as (offset & Hoff & Hd & Hm).
    vm_compute in Hoff. injection Hoff as <-.
    split; [reflexivity|]. split; [reflexivity|].
    split; [exact Hd | exact Hm]. }
  split; [reflexivity|].
  split; [|split; reflexivity].
  exact (proj2 (proj2 (proj2 (proj2
           (write_only_after_decode
              (sampleEnv (Ok {| Data := [ {| B64JSON := `"SGVsbG8sIHdvcmxkISE=" |} ];
                                Error := None |}) None)
              [ `"-p"; `"a cat"; `"-i"; `"a/cat.png" ]))))).
Defined.

(** ** The multipart writer *)

(** Both sides of an equation between byte strings, as one chain of
    appends. *)
Ltac flatten_bytes :=
  repeat first [ rewrite <- app_assoc | rewrite app_nil_r | progress cbn [app] ].

Section WriterFacts.

Import multipart.

Lemma renderParts_app b first ps qs :
  renderParts b first (ps ++ qs)
  = renderParts b first ps ++ renderParts b (first && isnil ps) qs.
Proof.
  revert first; induction ps as [|p ps IH]; intros first; cbn [app renderParts isnil].
  - now rewrite andb_true_r.
  - rewrite IH, andb_false_r. cbn [andb].
    destruct first; flatten_bytes; reflexivity.
Qed.

(** A part header and its body, as [CreatePart] and [Write] lay them
    out. *)
Lemma CreatePart_Write w header data :
  exists w',
    (match CreatePart w header with
     | Ok p => Write p data
     | Err e => Err e
     end) = Ok w'
    /\ buf w' = buf w ++ renderParts (boundary w) (negb (lastpart w))
                   [ {| part_header := sortHeader header; part_body := data |} ]
    /\ boundary w' = boundary w
    /\ lastpart w' = true.
Proof.
  eexists. split; [reflexivity|].
  cbn [CreatePart Write buf boundary lastpart renderParts renderPart
       part_header part_body].
  repeat split. unfold headerLine, CRLF.
  destruct (lastpart w); cbn [negb]; flatten_bytes; reflexivity.
Qed.

End WriterFacts.

Section BuildFacts.

Import multipart.

Variable env : Env.

Lemma addImagePart_readable w fieldName imagePath data st :
  readable (fs st) imagePath data ->
  exists w',
    addImagePart env w fieldName imagePath st = (Ok w', emit (EvOpen imagePath) st)
    /\ buf w' = buf w ++ renderParts (boundary w) (negb (lastpart w))
                   [imagePart env fieldName imagePath data]
    /\ boundary w' = boundary w
    /\ lastpart w' = true.
Proof.
  intros Hr. unfold readable in Hr.
  unfold addImagePart, bind, tell, get_fs. cbn [emit fs].
  rewrite Hr.
  eexists. split; [reflexivity|].
  cbn [CreatePart Write buf boundary lastpart renderParts renderPart
       imagePart part_header part_body].
  repeat split. unfold headerLine, CRLF.
  destruct (lastpart w); cbn [negb]; flatten_bytes; reflexivity.
Qed.

Lemma addImagePart_unreadable w fieldName imagePath st :
  (forall data, ~ readable (fs st) imagePath data) ->
  exists msg,
    addImagePart env w fieldName imagePath st = (Err msg, emit (EvOpen imagePath) st).
Proof.
  intros Hn. unfold readable in Hn.
  unfold addImagePart, bind, tell, get_fs. cbn [emit fs].
  destruct (fs st imagePath) as [[data| |]|]; try (eexists; reflexivity).
  now destruct (Hn data).
Qed.

Lemma addImageParts_readable fieldName :
  forall imagePaths datas w st,
    Forall2 (readable (fs st)) imagePaths datas ->
    exists w' st',
      addImageParts env w fieldName imagePaths st = (Ok w', st')
      /\ fs st' = fs st
      /\ buf w' = buf w ++ renderParts (boundary w) (negb (lastpart w))
                     (imageParts env fieldName (combine imagePaths datas))
      /\ boundary w' = boundary w
      /\ lastpart w' = lastpart w || negb (isnil imagePaths).
Proof.
  induction imagePaths as [|p ps IH]; intros datas w st Hall.
  - inversion Hall; subst.
    exists w, st. cbn. rewrite app_nil_r, orb_false_r. now repeat split.
  - inversion Hall as [|? d ? ds Hp Hps]; subst.
    destruct (addImagePart_readable w fieldName p d st Hp)
      as (w1 & Hrun & Hbuf & Hb & Hl).
    destruct (IH ds w1 (emit (EvOpen p) st) Hps)
      as (w' & st' & Hrun' & Hfs' & Hbuf' & Hb' & Hl').
    exists w', st'.
    cbn [addImageParts]. unfold bind at 1. rewrite Hrun, Hrun'.
    split; [reflexivity|]. split; [exact Hfs'|].
    split.
    + rewrite Hbuf', Hbuf, Hb, Hl. cbn [negb combine].
      change (imageParts env fieldName ((p, d) :: combine ps ds))
        with ([imagePart env fieldName p d]
                ++ imageParts env fieldName (combine ps ds)).
      rewrite renderParts_app. cbn [isnil]. rewrite andb_false_r.
      now rewrite <- app_assoc.
    + split; [congruence|]. rewrite Hl', Hl. cbn. now rewrite orb_true_r.
Qed.

Lemma addImageParts_ok_inv fieldName :
  forall imagePaths w st w' st',
    addImageParts env w fieldName imagePaths st = (Ok w', st') ->
    exists datas, Forall2 (readable (fs st)) imagePaths datas.
Proof.
  induction imagePaths as [|p ps IH]; intros w st w' st' Hrun.
  - exists []. constructor.
  - cbn [addImageParts] in Hrun. unfold bind at 1 in Hrun.
    destruct (fs st p) as [[d| |]|] eqn:Hp.
    2-4: destruct (addImagePart_unreadable w fieldName p st) as [msg Hm];
      [intros data Hr; unfold readable in Hr; congruence
      | rewrite Hm in Hrun; discriminate].
    destruct (addImagePart_readable w fieldName p d st Hp) as (w1 & Hm & _).
    rewrite Hm in Hrun.
    destruct (IH _ _ _ _ Hrun) as [ds Hds].
    exists (d :: ds). constructor; assumption.
Qed.

(** The text fields, for keys that [quoteEscaper] leaves as they are. *)
Lemma writeFields_spec :
  forall kvs w,
    Forall (fun kv => escapeQuotes (fst kv) = fst kv) kvs ->
    exists w',
      writeFields w kvs = Ok w'
      /\ buf w' = buf w ++ renderParts (boundary w) (negb (lastpart w))
                     (map fieldPart kvs)
      /\ boundary w' = boundary w
      /\ lastpart w' = lastpart w || negb (isnil kvs).
Proof.
  induction kvs as [|[k v] kvs IH]; intros w Hkeys.
  - exists w. cbn. rewrite app_nil_r, orb_false_r. now repeat split.
  - inversion Hkeys as [|? ? Hk Hrest]; subst. cbn [fst] in Hk.
    cbn [writeFields]. unfold WriteField, CreateFormField.
    destruct (CreatePart_Write w (Set_ [] `"Content-Disposition"
                                       (formFieldDisposition k)) v)
      as (w1 & Hrun & Hbuf & Hb & Hl).
    rewrite Hrun.
    destruct (IH w1 Hrest) as (w' & Hrun' & Hbuf' & Hb' & Hl').
    exists w'. split; [exact Hrun'|].
    split.
    + rewrite Hbuf', Hbuf, Hb, Hl. cbn [negb map].
      change (fieldPart (k, v) :: ?l) with ([fieldPart (k, v)] ++ l).
      rewrite renderParts_app. cbn [isnil]. rewrite andb_false_r.
      unfold fieldPart, formFieldDisposition. cbn [fst snd Set_ sortHeader
        fold_right insert_sorted].
      rewrite Hk. now rewrite <- app_assoc.
    + split; [congruence|]. rewrite Hl', Hl. cbn. now rewrite orb_true_r.
Qed.

Lemma rangeFields_keys (o : MapOrder) (prompt size : gostring) :
  Forall (fun kv => escapeQuotes (fst kv) = fst kv) (rangeFields o prompt size).
Proof. destruct o; repeat constructor. Qed.

(** No byte of a boundary needs quoting. *)
Lemma hexdigit_plain (n : nat) :
  existsb (Ascii.eqb (hexdigit n)) tspecials = false.
Proof.
  do 16 (destruct n as [|n]; [reflexivity|]). destruct n; reflexivity.
Qed.

Lemma randomBoundary_plain (rnd : gostring) :
  ContainsAny (randomBoundary rnd) tspecials = false.
Proof.
  induction rnd as [|c rnd IH]; [reflexivity|].
  unfold ContainsAny, randomBoundary in *. cbn [flat_map hexByte app existsb].
  now rewrite !hexdigit_plain, IH.
Qed.

Lemma FormDataContentType_boundary (w : Writer) :
  ContainsAny (boundary w) tspecials = false ->
  FormDataContentType w = `"multipart/form-data; boundary=" ++ boundary w.
Proof. intros H. unfold FormDataContentType. now rewrite H. Qed.

Lemma stripPrefix_app (p s : gostring) : stripPrefix p (p ++ s) = Some s.
Proof.
  induction p as [|c p IH]; cbn; [now destruct s|].
  now rewrite Ascii.eqb_refl.
Qed.

Lemma boundaryParam_plain (b : gostring) :
  ContainsAny b tspecials = false ->
  boundaryParam (`"multipart/form-data; boundary=" ++ b) = Some b.
Proof.
  intros H. unfold boundaryParam. rewrite stripPrefix_app.
  destruct b as [|c r]; [reflexivity|].
  unfold ContainsAny in H. cbn [existsb] in H.
  apply orb_false_iff in H as [H _].
  replace (Ascii.eqb c dquote) with false; [reflexivity|].
  symmetry. destruct (Ascii.eqb c dquote) eqn:E; [|reflexivity].
  apply Ascii.eqb_eq in E. subst c. discriminate.
Qed.

(** What [buildMultipartBody] returns when every image is readable. *)
Lemma buildMultipartBody_readable imagePaths datas prompt size st :
  Forall2 (readable (fs st)) imagePaths datas ->
  let b := randomBoundary (e_rand env) in
  let fieldName := if 1 <? length imagePaths then `"image[]" else `"image" in
  fst (buildMultipartBody env imagePaths prompt size st)
  = Ok (renderBody b (imageParts env fieldName (combine imagePaths datas)
                        ++ map fieldPart (rangeFields (e_order env) prompt size)),
        `"multipart/form-data; boundary=" ++ b).
Proof.
  intros Hall b fieldName.
  unfold buildMultipartBody. fold fieldName.
  destruct (addImageParts_readable fieldName imagePaths datas
                                   (NewWriter (e_rand env)) st Hall)
    as (w1 & st1 & Hrun1 & _ & Hbuf1 & Hb1 & Hl1).
  destruct (writeFields_spec (rangeFields (e_order env) prompt size) w1
                             (rangeFields_keys _ _ _))
    as (w2 & Hrun2 & Hbuf2 & Hb2 & Hl2).
  unfold bind at 1. rewrite Hrun1.
  unfold bind at 1. unfold lift at 1. rewrite Hrun2.
  unfold bind, wrap, lift, ret, Close. cbn [fst buf boundary].
  rewrite FormDataContentType_boundary; cbn [boundary];
    rewrite Hb2, Hb1; cbn [NewWriter boundary];
    [|apply randomBoundary_plain].
  f_equal. f_equal.
  rewrite Hbuf2, Hbuf1, Hb1, Hl1. cbn [NewWriter buf boundary lastpart app negb orb].
  unfold renderBody, closeDelimiter. fold b.
  rewrite renderParts_app. cbn [andb].
  replace (isnil (imageParts env fieldName (combine imagePaths datas)))
    with (isnil imagePaths).
  - now rewrite negb_involutive, <- !app_assoc.
  - destruct Hall; reflexivity.
Qed.

Lemma buildMultipartBody_ok_inv imagePaths prompt size st r st' :
  buildMultipartBody env imagePaths prompt size st = (Ok r, st') ->
  exists datas, Forall2 (readable (fs st)) imagePaths datas.
Proof.
  unfold buildMultipartBody. unfold bind at 1.
  destruct (addImageParts env _ _ imagePaths st) as [[w1 | e] st1] eqn:Hrun;
    [|discriminate].
  intros _. exact (addImageParts_ok_inv _ _ _ _ _ _ Hrun).
Qed.

End BuildFacts.

Lemma buildMultipartBody_unreadable env imagePaths prompt size st :
  ~ (exists datas, Forall2 (readable (fs st)) imagePaths datas) ->
  exists msg, fst (buildMultipartBody env imagePaths prompt size st) = Err msg.
Proof.
  intros Hn.
  destruct (buildMultipartBody env imagePaths prompt size st) as [[r | e] st'] eqn:Hrun.
  - destruct Hn. exact (buildMultipartBody_ok_inv _ _ _ _ _ _ _ Hrun).
  - now exists e.
Qed.

(** *** Reading a disposition back *)

Lemma takeWhile_stop (f : ascii -> bool) (x : gostring) (c : ascii) (r : gostring) :
  forallb f x = true -> f c = false ->
  takeWhile f (x ++ c :: r) = x /\ dropWhile f (x ++ c :: r) = c :: r.
Proof.
  intros Hx Hc. induction x as [|a x IH]; cbn [app takeWhile dropWhile].
  - now rewrite Hc.
  - cbn [forallb] in Hx. apply andb_prop in Hx as [Ha Hx].
    rewrite Ha. destruct (IH Hx) as [-> ->]. now split.
Qed.

(** One parameter [; key="value"] in front of the rest. *)
Lemma readParams_step (fuel : nat) (key value rest : gostring) :
  forallb keyByte key = true ->
  plainName value = true ->
  readParams (S fuel)
             ([";"; " "] ++ key ++ ["="; dquote] ++ value ++ [dquote] ++ rest)
  = match readParams fuel rest with
    | None => None
    | Some ps =>
      if isEmpty key || existsb (fun kv => bytes_eqb (fst kv) key) ps
      then None
      else Some ((key, value) :: ps)
    end.
Proof.
  intros Hkey Hvalue.
  cbn [readParams app stripPrefix Ascii.eqb Bool.eqb].
  destruct (takeWhile_stop keyByte key "=" (dquote :: value ++ dquote :: rest)
                           Hkey eq_refl) as [-> ->].
  cbn [stripPrefix Ascii.eqb Bool.eqb]. rewrite Ascii.eqb_refl.
  destruct (takeWhile_stop plainByte value dquote rest Hvalue eq_refl)
    as [-> ->].
  now rewrite Ascii.eqb_refl.
Qed.

(** The disposition [addImagePart] writes, for names that need no
    escaping. *)
Lemma readDisposition_file (fieldName fileName : gostring) :
  plainName fieldName = true ->
  plainName fileName = true ->
  readDisposition (`"form-data; name=" ++ [dquote] ++ fieldName ++ [dquote]
                     ++ `"; filename=" ++ [dquote] ++ fileName ++ [dquote])
  = Some [(`"name", fieldName); (`"filename", fileName)].
Proof.
  intros Hfield Hfile. unfold readDisposition.
  change (`"form-data; name=" ++ [dquote] ++ fieldName ++ [dquote]
            ++ `"; filename=" ++ [dquote] ++ fileName ++ [dquote])
    with (`"form-data"
            ++ ([";"; " "] ++ `"name" ++ ["="; dquote] ++ fieldName ++ [dquote]
                  ++ ([";"; " "] ++ `"filename" ++ ["="; dquote] ++ fileName
                        ++ [dquote] ++ []))).
  rewrite stripPrefix_app.
  match goal with
  | |- readParams (S (length ?r)) _ = _ =>
    assert (Hlen : exists m, length r = S (S m)) by (eexists; reflexivity)
  end.
  destruct Hlen as [m ->].
  rewrite !readParams_step by (reflexivity || assumption).
  reflexivity.
Qed.

(** The disposition [WriteField] writes for one of the three text fields. *)
Lemma readDisposition_field (key : gostring) :
  forallb keyByte key = true -> isEmpty key = false ->
  readDisposition (`"form-data; name=" ++ [dquote] ++ key ++ [dquote])
  = Some [(`"name", key)].
Proof.
  intros Hkey Hne. unfold readDisposition.
  change (`"form-data; name=" ++ [dquote] ++ key ++ [dquote])
    with (`"form-data"
            ++ ([";"; " "] ++ `"name" ++ ["="; dquote] ++ key ++ [dquote] ++ [])).
  rewrite stripPrefix_app.
  match goal with
  | |- readParams (S (length ?r)) _ = _ =>
    assert (Hlen : exists m, length r = S m) by (eexists; reflexivity)
  end.
  destruct Hlen as [m ->].
  rewrite readParams_step; [reflexivity | reflexivity |].
  unfold plainName. clear Hne.
  induction key as [|c key IH]; [reflexivity|].
  cbn [forallb] in *. apply andb_prop in Hkey as [Hc Hkey].
  rewrite (IH Hkey), andb_true_r.
  unfold keyByte in Hc. apply andb_prop in Hc as [Hlo Hhi].
  apply Nat.leb_le in Hlo.
  unfold plainByte.
  rewrite !andb_true_iff, !negb_true_iff.
  repeat split; apply Ascii.eqb_neq; intros ->; cbn in Hlo; lia.
Qed.

Lemma plainName_image : plainName `"image" = true.
Proof. reflexivity. Qed.

Lemma plainName_images : plainName `"image[]" = true.
Proof. reflexivity. Qed.

Lemma dispositionOf_imagePart env fieldName imagePath data :
  plainName fieldName = true ->
  plainName (filepath.Base imagePath) = true ->
  dispositionOf (imagePart env fieldName imagePath data)
  = Some [(`"name", fieldName); (`"filename", filepath.Base imagePath)].
Proof.
  intros Hfield Hfile. unfold dispositionOf, imagePart.
  cbn [part_header headerGet]. rewrite bytes_eqb_refl.
  now apply readDisposition_file.
Qed.

Lemma isFilePart_imagePart env fieldName imagePath data :
  plainName fieldName = true ->
  plainName (filepath.Base imagePath) = true ->
  isFilePart (imagePart env fieldName imagePath data) = true.
Proof.
  intros Hfield Hfile. unfold isFilePart.
  now rewrite dispositionOf_imagePart.
Qed.

Lemma fieldNameOf_imagePart env fieldName imagePath data :
  plainName fieldName = true ->
  plainName (filepath.Base imagePath) = true ->
  fieldNameOf (imagePart env fieldName imagePath data) = Some fieldName.
Proof.
  intros Hfield Hfile. unfold fieldNameOf.
  now rewrite dispositionOf_imagePart.
Qed.

Lemma fields_not_files (o : MapOrder) (prompt size : gostring) :
  filter isFilePart (map fieldPart (rangeFields o prompt size)) = [].
Proof. destruct o; reflexivity. Qed.

Lemma renderParts_later (b : gostring) (ps : list Part) :
  renderParts b false ps
  = flat_map (fun q => CRLF ++ `"--" ++ b ++ CRLF ++ renderPart q) ps.
Proof.
  induction ps as [|p ps IH]; [reflexivity|].
  cbn [renderParts flat_map]. now rewrite IH, <- !app_assoc.
Qed.







(** C7: when the build succeeds the content type is
    [multipart/form-data; boundary=] followed by the writer's boundary, a
    receiver reads that boundary back from it, and the body is made of the
    parts, the first behind [--boundary], each later one behind a line break
    and [--boundary], closed by a line break and [--boundary--]. *)
Theorem content_type_carries_boundary
        (env : Env) (imagePaths : list gostring) (prompt size : gostring)
        (st st' : State) (body contentType : gostring) :
  buildMultipartBody env imagePaths prompt size st = (Ok (body, contentType), st') ->
  let b := multipart.randomBoundary (e_rand env) in
  contentType = `"multipart/form-data; boundary=" ++ b
  /\ boundaryParam contentType = Some b
  /\ exists datas part laterParts,
      Forall2 (readable (fs st)) imagePaths datas
      /\ part :: laterParts
         = imageParts env (if 1 <? length imagePaths then `"image[]" else `"image")
                      (combine imagePaths datas)
             ++ map fieldPart (rangeFields (e_order env) prompt size)
      /\ body = renderBody b (part :: laterParts)
      /\ body = `"--" ++ b ++ CRLF ++ renderPart part
                  ++ flat_map (fun q => CRLF ++ `"--" ++ b ++ CRLF ++ renderPart q)
                              laterParts
                  ++ CRLF ++ `"--" ++ b ++ `"--" ++ CRLF.
Proof.
  intros Hrun b.
  destruct (buildMultipartBody_ok_inv _ _ _ _ _ _ _ Hrun) as [datas Hall].
  pose proof (buildMultipartBody_readable env imagePaths datas prompt size st Hall)
    as Hok.
  cbv zeta in Hok. rewrite Hrun in Hok. cbn [fst] in Hok.
  injection Hok as Hbody Hct. fold b in Hbody, Hct.
  split; [exact Hct|].
  split; [rewrite Hct; apply boundaryParam_plain, randomBoundary_plain|].
  set (parts := imageParts env (if 1 <? length imagePaths then `"image[]" else `"image")
                           (combine imagePaths datas)
                  ++ map fieldPart (rangeFields (e_order env) prompt size)) in *.
  assert (Hne : exists part laterParts, parts = part :: laterParts).
  { unfold parts.
    destruct (imageParts _ _ _) as [|p ps]; [|now exists p, (ps ++ map fieldPart (rangeFields (e_order env) prompt size))].
    destruct (e_order env); cbn; eauto. }
  destruct Hne as (part & laterParts & Hparts).
  exists datas, part, laterParts.
  split; [exact Hall|]. split; [now rewrite <- Hparts|].
  assert (Hbody' : body = renderBody b (part :: laterParts))
    by (rewrite <- Hparts; exact Hbody).
  split; [exact Hbody'|].
  rewrite Hbody'. unfold renderBody, closeDelimiter.
  cbn [renderParts]. rewrite renderParts_later.
  unfold CRLF. flatten_bytes. reflexivity.
Qed.

Lemma content_type_carries_boundary_witness :
  let env := sampleEnv (Err `"unused") None in
  let run := buildMultipartBody env [`"a/cat.png"] `"hi" `"1024x1024" sampleState in
  run = (Ok (sampleBody, `"multipart/form-data; boundary=01ab"), snd run)
  /\ boundaryParam `"multipart/form-data; boundary=01ab" = Some `"01ab"
  /\ multipart.randomBoundary (e_rand env) = `"01ab".
Proof.
  intros env run.
  assert (Hrun : run = (Ok (sampleBody, `"multipart/form-data; boundary=01ab"),
                        snd run))
    by (vm_compute; reflexivity).
  split; [exact Hrun|].
  split; [|reflexivity].
  exact (proj1 (proj2 (content_type_carries_boundary
                         env [`"a/cat.png"] `"hi" `"1024x1024" sampleState
                         (snd run) sampleBody
                         `"multipart/form-data; boundary=01ab" Hrun))).
Defined.

(** ** Computations that log no event of a kind *)

Section Silent.

Variable P : Event -> bool.

Lemma silent_pure {A} (m : M A) :
  (forall st, log (snd (m st)) = log st) -> silent P m.
Proof.
  intros H st. exists []. now rewrite H, app_nil_r.
Qed.

Lemma silent_ret {A} (a : A) : silent P (ret a).
Proof. now apply silent_pure. Qed.

Lemma silent_fail {A} (msg : gostring) : silent P (@fail A msg).
Proof. now apply silent_pure. Qed.

Lemma silent_lift {A} (r : Result A) : silent P (lift r).
Proof. now apply silent_pure. Qed.

Lemma silent_get_fs : silent P get_fs.
Proof. now apply silent_pure. Qed.

Lemma silent_put_fs (f : FS) : silent P (put_fs f).
Proof. now apply silent_pure. Qed.

Lemma silent_tell (e : Event) : P e = false -> silent P (tell e).
Proof. intros H st. exists [e]. simpl. now rewrite H. Qed.

Lemma silent_bind {A B} (m : M A) (k : A -> M B) :
  silent P m -> (forall a, silent P (k a)) -> silent P (bind m k).
Proof.
  intros Hm Hk st. unfold bind.
  destruct (Hm st) as (evs & Hlog & Hw).
  destruct (m st) as [[a | e] st1]; simpl in Hlog.
  - destruct (Hk a st1) as (evs' & Hlog' & Hw').
    exists (evs ++ evs'). split.
    + now rewrite Hlog', Hlog, app_assoc.
    + now rewrite filter_app, Hw, Hw'.
  - exists evs. now split.
Qed.

Lemma silent_wrap {A} (prefix : gostring) (m : M A) :
  silent P m -> silent P (wrap prefix m).
Proof.
  intros Hm st. unfold wrap.
  destruct (Hm st) as (evs & Hlog & Hw).
  destruct (m st) as [[a | e] st1]; exists evs; now split.
Qed.

Lemma failsSilently_fail {A} (msg : gostring) : failsSilently P (@fail A msg).
Proof.
  intros st. split; [now exists msg|].
  exists []. now rewrite app_nil_r.
Qed.

(** A failure ends the computation: what follows does not run. *)
Lemma failsSilently_bind_here {A B} (m : M A) (k : A -> M B) :
  failsSilently P m -> failsSilently P (bind m k).
Proof.
  intros Hm st. unfold bind.
  destruct (Hm st) as ((msg & Hmsg) & Hev).
  destruct (m st) as [[a | e] st1]; simpl in Hmsg; [discriminate|].
  split; [now exists e | exact Hev].
Qed.

Lemma failsSilently_bind_later {A B} (m : M A) (k : A -> M B) :
  silent P m -> (forall a, failsSilently P (k a)) -> failsSilently P (bind m k).
Proof.
  intros Hm Hk st. unfold bind.
  destruct (Hm st) as (evs & Hlog & Hw).
  destruct (m st) as [[a | e] st1]; simpl in Hlog.
  - destruct (Hk a st1) as (Hmsg & evs' & Hlog' & Hw').
    split; [exact Hmsg|].
    exists (evs ++ evs'). split.
    + now rewrite Hlog', Hlog, app_assoc.
    + now rewrite filter_app, Hw, Hw'.
  - split; [now exists e|]. exists evs. now split.
Qed.

Lemma failsSilently_wrap {A} (prefix : gostring) (m : M A) :
  failsSilently P m -> failsSilently P (wrap prefix m).
Proof.
  intros Hm st. unfold wrap.
  destruct (Hm st) as ((msg & Hmsg) & Hev).
  destruct (m st) as [[a | e] st1]; simpl in Hmsg; [discriminate|].
  split; [eexists; reflexivity | exact Hev].
Qed.

End Silent.

Ltac silent_step :=
  first [ apply silent_ret | apply silent_fail | apply silent_lift
        | apply silent_get_fs | apply silent_put_fs
        | apply silent_tell; solve [auto | reflexivity]
        | apply silent_wrap
        | apply silent_bind; [|intros ?] ].

Ltac silent_cases :=
  repeat first
    [ silent_step
    | match goal with
      | |- silent _ (match ?x with _ => _ end) => destruct x
      | |- silent _ (if ?b then _ else _) => destruct b
      end ].

Section SilentSteps.

Variable P : Event -> bool.
Hypothesis P_mkdir : forall p, P (EvMkdirAll p) = false.
Hypothesis P_open : forall p, P (EvOpen p) = false.

Lemma silent_MkdirAll env path : silent P (os_MkdirAll env path).
Proof. unfold os_MkdirAll. silent_cases. Qed.

Lemma silent_addImagePart env w fieldName imagePath :
  silent P (addImagePart env w fieldName imagePath).
Proof. unfold addImagePart, multipart.CreatePart, multipart.Write. silent_cases. Qed.

Lemma silent_addImageParts env fieldName imagePaths :
  forall w, silent P (addImageParts env w fieldName imagePaths).
Proof.
  induction imagePaths as [|p rest IH]; intros w; cbn [addImageParts].
  - apply silent_ret.
  - apply silent_bind; [apply silent_addImagePart | intros w'; apply IH].
Qed.

Lemma silent_buildMultipartBody env imagePaths prompt size :
  silent P (buildMultipartBody env imagePaths prompt size).
Proof.
  unfold buildMultipartBody.
  apply silent_bind; [apply silent_addImageParts | intros w1].
  silent_cases.
Qed.

Lemma silent_main_config env : silent P (generate.main_config env).
Proof. unfold generate.main_config, generate.godotenv_Load. silent_cases. Qed.

Hypothesis P_do : forall r, P (EvDo r) = false.
Hypothesis P_redirect : forall r, P (EvRedirect r) = false.

Lemma silent_sendRequest env req : silent P (sendRequest env req).
Proof.
  assert (Hhops : silent P (tellAll (map EvRedirect (e_hops env req)))).
  { intros st. exists (map EvRedirect (e_hops env req)). split; [reflexivity|].
    induction (e_hops env req) as [|r l IH]; [reflexivity|].
    cbn [map filter]. now rewrite P_redirect. }
  unfold sendRequest.
  destruct (e_http env req); [apply silent_fail | | |];
    (apply silent_bind; [apply silent_tell, P_do | intros _]);
    (apply silent_bind; [exact Hhops | intros _]);
    (apply silent_fail || apply silent_ret).
Qed.

Hypothesis P_write : forall p d, P (EvWriteFile p d) = false.

Lemma silent_WriteFile env name data : silent P (os_WriteFile env name data).
Proof. unfold os_WriteFile. silent_cases. Qed.

Lemma silent_main_response env outputFile respBytes :
  silent P (main_response env outputFile respBytes).
Proof.
  unfold main_response.
  apply silent_bind; [silent_cases | intros envelope].
  apply silent_bind; [apply silent_lift | intros imageBytes].
  apply silent_wrap, silent_WriteFile.
Qed.

End SilentSteps.

Section Attempts.

Variable attempts : list (list Event).

Lemma attempts_fail {A} (msg : gostring) : attemptsWithin attempts (@fail A msg).
Proof. intros st. exists []. rewrite app_nil_r. split; [reflexivity | now left]. Qed.

Lemma attempts_bind_before {A B} (m : M A) (k : A -> M B) :
  silent isTokenCall m ->
  (forall a, attemptsWithin attempts (k a)) ->
  attemptsWithin attempts (bind m k).
Proof.
  intros Hm Hk st. unfold bind.
  destruct (Hm st) as (evs & Hlog & Hw).
  destruct (m st) as [[a | e] st1]; simpl in Hlog.
  - destruct (Hk a st1) as (evs' & Hlog' & Hin).
    exists (evs ++ evs'). split.
    + now rewrite Hlog', Hlog, app_assoc.
    + now rewrite filter_app, Hw.
  - exists evs. split; [exact Hlog | now left].
Qed.

Lemma attempts_bind_after {A B} (m : M A) (k : A -> M B) :
  attemptsWithin attempts m ->
  (forall a, silent isTokenCall (k a)) ->
  attemptsWithin attempts (bind m k).
Proof.
  intros Hm Hk st. unfold bind.
  destruct (Hm st) as (evs & Hlog & Hin).
  destruct (m st) as [[a | e] st1]; simpl in Hlog.
  - destruct (Hk a st1) as (evs' & Hlog' & Hw').
    exists (evs ++ evs'). split.
    + now rewrite Hlog', Hlog, app_assoc.
    + now rewrite filter_app, Hw', app_nil_r.
  - exists evs. now split.
Qed.

Lemma attempts_wrap {A} (prefix : gostring) (m : M A) :
  attemptsWithin attempts m -> attemptsWithin attempts (wrap prefix m).
Proof.
  intros Hm st. unfold wrap.
  destruct (Hm st) as (evs & Hlog & Hin).
  destruct (m st) as [[a | e] st1]; exists evs; now split.
Qed.

(** [main] acquires a token once. *)
Lemma attempts_main_rest env host dep api (getToken : M gostring) flags prompt :
  attemptsWithin attempts getToken ->
  attemptsWithin attempts (main_rest env host dep api getToken flags prompt).
Proof.
  intros Htok. unfold main_rest.
  destruct (isEmpty (flag_i flags)); [apply attempts_fail|].
  apply attempts_bind_before; [apply silent_get_fs | intros f].
  destruct (notExist f (flag_i flags)); [apply attempts_fail|].
  destruct (_ && _); [apply attempts_fail|].
  apply attempts_bind_before;
    [apply silent_wrap, silent_MkdirAll; reflexivity | intros _].
  apply attempts_bind_after; [apply attempts_wrap, Htok | intros token].
  apply silent_bind;
    [apply silent_wrap, silent_buildMultipartBody; reflexivity | intros bc].
  apply silent_bind; [apply silent_sendRequest; reflexivity | intros respBytes].
  apply silent_main_response; reflexivity.
Qed.

End Attempts.

(** When the token cannot be had, [main] ends before the request. *)
Lemma main_rest_token_failure env host dep api (getToken : M gostring) flags prompt :
  failsSilently isSendOrWrite getToken ->
  failsSilently isSendOrWrite (main_rest env host dep api getToken flags prompt).
Proof.
  intros Htok. unfold main_rest.
  destruct (isEmpty (flag_i flags)); [apply failsSilently_fail|].
  apply failsSilently_bind_later; [apply silent_get_fs | intros f].
  destruct (notExist f (flag_i flags)); [apply failsSilently_fail|].
  destruct (_ && _); [apply failsSilently_fail|].
  apply failsSilently_bind_later;
    [apply silent_wrap, silent_MkdirAll; reflexivity | intros _].
  apply failsSilently_bind_here, failsSilently_wrap, Htok.
Qed.

(** ** [getAzureToken] *)

Lemma generate_getAzureToken_ok env st tk :
  e_credential env = None ->
  e_token env generate.tokenScopes = Ok tk ->
  generate.getAzureToken env st
  = (Ok tk, emit (EvGetToken generate.tokenScopes)
                 (emit EvNewDefaultAzureCredential st)).
Proof.
  intros Hc Ht. unfold generate.getAzureToken, bind, tell, fail, ret.
  now rewrite Hc, Ht.
Qed.

Lemma generate_getAzureToken_attempts env :
  attemptsWithin
    [[EvNewDefaultAzureCredential];
     [EvNewDefaultAzureCredential; EvGetToken generate.tokenScopes]]
    (generate.getAzureToken env).
Proof.
  intros st. unfold generate.getAzureToken, bind, tell, fail, ret.
  destruct (e_credential env).
  - exists [EvNewDefaultAzureCredential]. split; [reflexivity|].
    right. now left.
  - exists [EvNewDefaultAzureCredential; EvGetToken generate.tokenScopes].
    split; [destruct (e_token env _); cbn; now rewrite <- app_assoc|].
    right. right. now left.
Qed.

Lemma root_getAzureToken_attempts env :
  attemptsWithin [[EvExec `"az" root.azArgs]] (root.getAzureToken env).
Proof.
  intros st. exists [EvExec `"az" root.azArgs]. split; [|right; now left].
  unfold root.getAzureToken, bind, tell, fail, ret.
  destruct (e_binary env `"az") as [run|]; [|reflexivity].
  destruct (run root.azArgs) as [[|code] out err]; reflexivity.
Qed.

Lemma generate_getAzureToken_failure env :
  match e_credential env, e_token env generate.tokenScopes with
  | None, Ok _ => False
  | _, _ => True
  end ->
  failsSilently isSendOrWrite (generate.getAzureToken env).
Proof.
  intros Hf st. unfold generate.getAzureToken, bind, tell, fail, ret.
  destruct (e_credential env) as [e|].
  - split; [eexists; reflexivity|].
    exists [EvNewDefaultAzureCredential]. now split.
  - destruct (e_token env generate.tokenScopes) as [tk|e]; [contradiction|].
    split; [eexists; reflexivity|].
    exists [EvNewDefaultAzureCredential; EvGetToken generate.tokenScopes].
    split; [cbn; now rewrite <- app_assoc | reflexivity].
Qed.

Lemma root_getAzureToken_failure env :
  match e_binary env `"az" with
  | Some run => match run root.azArgs with Exited 0 _ _ => False | _ => True end
  | None => True
  end ->
  failsSilently isSendOrWrite (root.getAzureToken env).
Proof.
  intros Hf st. unfold root.getAzureToken, bind, tell, fail, ret.
  assert (Hev : forall (r : Result gostring),
             exists evs,
               log (snd (r, emit (EvExec `"az" root.azArgs) st)) = log st ++ evs
               /\ filter isSendOrWrite evs = []).
  { intros r. exists [EvExec `"az" root.azArgs]. now split. }
  destruct (e_binary env `"az") as [run|].
  - destruct (run root.azArgs) as [[|code] out err]; [contradiction|].
    split; [eexists; reflexivity | apply Hev].
  - split; [eexists; reflexivity | apply Hev].
Qed.

Lemma generate_main_token_failure env flags :
  failsSilently isSendOrWrite (generate.getAzureToken env) ->
  failsSilently isSendOrWrite (generate.main env flags).
Proof.
  intros Htok. unfold generate.main.
  apply failsSilently_bind_later;
    [apply silent_main_config; reflexivity | intros [[host dep] api]].
  unfold generate.main_flags.
  destruct (isEmpty (flag_p flags)); [apply failsSilently_fail|].
  apply failsSilently_bind_later; [apply silent_get_fs | intros f].
  apply failsSilently_bind_later; [silent_cases | intros prompt].
  now apply main_rest_token_failure.
Qed.

Lemma root_main_token_failure env flags :
  failsSilently isSendOrWrite (root.getAzureToken env) ->
  failsSilently isSendOrWrite (root.main env flags).
Proof.
  intros Htok. unfold root.main.
  destruct (isEmpty (flag_p flags)); [apply failsSilently_fail|].
  now apply main_rest_token_failure.
Qed.

Lemma generate_main_attempts env flags :
  attemptsWithin
    [[EvNewDefaultAzureCredential];
     [EvNewDefaultAzureCredential; EvGetToken generate.tokenScopes]]
    (generate.main env flags).
Proof.
  unfold generate.main.
  apply attempts_bind_before;
    [apply silent_main_config; reflexivity | intros [[host dep] api]].
  unfold generate.main_flags.
  destruct (isEmpty (flag_p flags)); [apply attempts_fail|].
  apply attempts_bind_before; [apply silent_get_fs | intros f].
  apply attempts_bind_before; [silent_cases | intros prompt].
  apply attempts_main_rest, generate_getAzureToken_attempts.
Qed.

Lemma root_main_attempts env flags :
  attemptsWithin [[EvExec `"az" root.azArgs]] (root.main env flags).
Proof.
  unfold root.main.
  destruct (isEmpty (flag_p flags)); [apply attempts_fail|].
  apply attempts_main_rest, root_getAzureToken_attempts.
Qed.

(** C9, as stated, fails for the root program: with no [az] on the path
    it gets no token although the credential chain would give one. *)
Lemma root_token_needs_az :
  let env := sampleEnv (Err `"unused") None in
  e_binary env `"az" = None
  /\ e_credential env = None
  /\ e_token env generate.tokenScopes = Ok `"tok"
  /\ fst (generate.getAzureToken env sampleState) = Ok `"tok"
  /\ fst (root.getAzureToken env sampleState)
     = Err (`"exec: " ++ [dquote] ++ `"az" ++ [dquote]
             ++ `": executable file not found in $PATH")
  /\ ~ token_needs_no_binary root.getAzureToken.
Proof.
  repeat split.
  intros H.
  specialize (H (sampleEnv (Err `"unused") None) sampleState `"tok" eq_refl eq_refl).
  discriminate.
Qed.

(** C9, amended: the program [cmd/generate] gets its token from the
    credential chain whatever programs are installed (it starts none, and
    its result does not depend on them); the root program runs [az].  Either
    program makes at most one acquisition attempt in a run: one credential
    and at most one token request, respectively one run of [az].  When the
    acquisition fails the run ends in an error with no request sent and no
    file written; when it succeeds the token is the one acquired. *)
Theorem token_from_credential_chain
        (env : Env) (flags : Flags)
        (binaries : gostring -> option (list gostring -> ProcExit)) (st : State) :
  token_needs_no_binary generate.getAzureToken
  /\ generate.getAzureToken (withBinaries env binaries) st
     = generate.getAzureToken env st
  /\ silent isExec (generate.getAzureToken env)
  /\ attemptsWithin
       [[EvNewDefaultAzureCredential];
        [EvNewDefaultAzureCredential; EvGetToken generate.tokenScopes]]
       (generate.main env flags)
  /\ attemptsWithin [[EvExec `"az" root.azArgs]] (root.main env flags)
  /\ match e_credential env, e_token env generate.tokenScopes with
     | None, Ok tk => fst (generate.getAzureToken env st) = Ok tk
     | _, _ => failsSilently isSendOrWrite (generate.main env flags)
     end
  /\ match e_binary env `"az" with
     | Some run =>
       match run root.azArgs with
       | Exited 0 out _ =>
         fst (root.getAzureToken env st) = Ok (strings.TrimSpace out)
       | _ => failsSilently isSendOrWrite (root.main env flags)
       end
     | None => failsSilently isSendOrWrite (root.main env flags)
     end.
Proof.
  split.
  { intros env' st' tk Hc Ht. now rewrite (generate_getAzureToken_ok _ _ _ Hc Ht). }
  split; [reflexivity|].
  split; [unfold generate.getAzureToken; silent_cases|].
  split; [apply generate_main_attempts|].
  split; [apply root_main_attempts|].
  split.
  - destruct (e_credential env) as [e|] eqn:Hc.
    + apply generate_main_token_failure, generate_getAzureToken_failure.
      now rewrite Hc.
    + destruct (e_token env generate.tokenScopes) as [tk|e] eqn:Ht.
      * now rewrite (generate_getAzureToken_ok _ _ _ Hc Ht).
      * apply generate_main_token_failure, generate_getAzureToken_failure.
        now rewrite Hc, Ht.
  - destruct (e_binary env `"az") as [run|] eqn:Hb.
    + destruct (run root.azArgs) as [[|code] out err] eqn:Hr.
      * unfold root.getAzureToken, bind, tell, ret. now rewrite Hb, Hr.
      * apply root_main_token_failure, root_getAzureToken_failure.
        now rewrite Hb, Hr.
    + apply root_main_token_failure, root_getAzureToken_failure.
      now rewrite Hb.
Qed.

(** ** More on [Clean] and [deriveOutputPath] *)

Section CleanLastElement.

Import filepath.

Lemma takeWhile_app_all (f : ascii -> bool) (a b : gostring) :
  forallb f a = true -> takeWhile f (a ++ b) = a ++ takeWhile f b.
Proof.
  induction a as [|x a IH]; simpl; [reflexivity|].
  rewrite andb_true_iff. intros [-> H]. now rewrite IH.
Qed.

(** Backtracking in a rooted path never removes the leading separator. *)
Lemma back_loop_rooted :
  forall out c,
    (exists o, out = o ++ [Separator]) ->
    exists o', back_loop 1 c out = o' ++ [Separator].
Proof.
  induction out as [|c' out IH]; intros c [o Ho].
  - destruct o; discriminate.
  - cbn [back_loop].
    destruct ((1 <? length (c' :: out)) && notSep c) eqn:Hc; [|now exists o].
    apply IH.
    apply andb_true_iff in Hc as [Hlen _]. apply Nat.ltb_lt in Hlen.
    destruct o as [|o0 o']; [injection Ho as -> ->; simpl in Hlen; lia|].
    injection Ho as -> ->. now exists o'.
Qed.

Variable c : gostring.
Hypothesis c_noSep : forallb notSep c = true.
Hypothesis c_long : 2 < length c.

Lemma clean_loop_elem_sep fuel rooted out dotdot :
  rootedBuffer rooted out dotdot ->
  length c <= fuel ->
  exists pre,
    clean_loop fuel rooted c out dotdot = rev c ++ pre
    /\ (pre = [] \/ exists o, pre = Separator :: o).
Proof.
  intros Hinv Hf.
  assert (Hshape : exists c0 c1 c2 ct, c = c0 :: c1 :: c2 :: ct).
  { destruct c as [|c0 [|c1 [|c2 ct]]]; simpl in c_long; try lia; eauto. }
  destruct Hshape as (c0 & c1 & c2 & ct & Hc).
  destruct fuel as [|fuel']; [lia|].
  replace (clean_loop (S fuel') rooted c out dotdot)
    with (clean_loop (S fuel') rooted (c0 :: c1 :: c2 :: ct) out dotdot)
    by now rewrite Hc.
  rewrite clean_loop_step.
  pose proof c_noSep as Hn. rewrite Hc in Hn. simpl in Hn.
  repeat rewrite andb_true_iff in Hn. destruct Hn as (H0 & H1 & H2 & Ht).
  unfold notSep in H0, H1, H2. apply negb_true_iff in H0, H1, H2.
  rewrite H0. cbn [startsElem hd tl]. rewrite H1, H2, !andb_false_r.
  rewrite <- Hc, dropWhile_all, takeWhile_all, clean_loop_nil by exact c_noSep.
  eexists. split; [reflexivity|].
  destruct rooted.
  - destruct (Hinv eq_refl) as [[o Ho] _]. subst out.
    cbn [andb orb negb].
    destruct (length (o ++ [Separator]) =? 1) eqn:Hl; cbn [andb orb negb];
      [|right; eexists; reflexivity].
    apply Nat.eqb_eq in Hl. rewrite length_app in Hl. simpl in Hl.
    destruct o; [right; now exists [] | simpl in Hl; lia].
  - destruct out as [|o0 out']; cbn [andb orb negb length Nat.eqb];
      [now left | right; eexists; reflexivity].
Qed.

Lemma clean_loop_last_sep :
  forall fuel rooted x out dotdot,
    rootedBuffer rooted out dotdot ->
    length (x ++ Separator :: c) <= fuel ->
    exists pre,
      clean_loop fuel rooted (x ++ Separator :: c) out dotdot = rev c ++ pre
      /\ (pre = [] \/ exists o, pre = Separator :: o).
Proof.
  induction fuel as [|fuel IH]; intros rooted x out dotdot Hinv Hf.
  - rewrite length_app in Hf; simpl in Hf; lia.
  - destruct x as [|a x].
    + cbn [app]. rewrite clean_loop_step.
      replace (IsPathSeparator Separator) with true by reflexivity.
      apply clean_loop_elem_sep; [exact Hinv | simpl in Hf; lia].
    + cbn [app]. rewrite clean_loop_step.
      cbn [app length] in Hf.
      destruct (IsPathSeparator a) eqn:Ha; [apply IH; [exact Hinv | lia]|].
      destruct (Ascii.eqb a "." && startsElem (x ++ Separator :: c));
        [apply IH; [exact Hinv | lia]|].
      destruct (Ascii.eqb a "." && Ascii.eqb (hd "000" (x ++ Separator :: c)) "."
                && startsElem (tl (x ++ Separator :: c))) eqn:Hdd.
      * destruct x as [|b x]; [cbn in Hdd; now rewrite andb_false_r in Hdd|].
        cbn [app tl]. cbn [app length] in Hf.
        destruct (dotdot <? length out) eqn:Hlt.
        -- apply IH; [|lia].
           intros Hr. destruct (Hinv Hr) as [[o Ho] Hd]. split; [|exact Hd].
           subst dotdot. apply Nat.ltb_lt in Hlt.
           destruct out as [|o0 out']; [simpl in Hlt; lia|].
           cbn [backtrack]. apply back_loop_rooted.
           destruct o as [|o1 o']; [injection Ho as -> ->; simpl in Hlt; lia|].
           injection Ho as -> ->. now exists o'.
        -- destruct rooted; cbn [negb]; [apply IH; [exact Hinv | lia]|].
           apply IH; [discriminate | lia].
      * change (a :: x ++ Separator :: c) with ((a :: x) ++ Separator :: c).
        rewrite dropWhile_app_sep.
        replace (dropWhile notSep (a :: x)) with (dropWhile notSep x)
          by (cbn [dropWhile]; unfold notSep at 2; now rewrite Ha).
        apply IH.
        -- intros Hr. destruct (Hinv Hr) as [[o Ho] Hd]. split; [|exact Hd].
           subst out.
           destruct ((rooted && negb (length (o ++ [Separator]) =? 1))
                     || (negb rooted && negb (length (o ++ [Separator]) =? 0))).
           ++ exists (rev (takeWhile notSep ((a :: x) ++ Separator :: c))
                        ++ Separator :: o).
              now rewrite <- app_assoc.
           ++ exists (rev (takeWhile notSep ((a :: x) ++ Separator :: c)) ++ o).
              now rewrite <- app_assoc.
        -- pose proof (dropWhile_length notSep x) as Hl.
           rewrite length_app in *. cbn [length] in *. lia.
Qed.

(** [Clean] ends with a last element that is a real name, and what comes
    before it is empty or ends with a separator. *)
Lemma Clean_last_sep (x : gostring) :
  exists pre,
    Clean (x ++ Separator :: c) = pre ++ c
    /\ (pre = [] \/ exists p, pre = p ++ [Separator]).
Proof.
  assert (Hfin : forall out pre0,
             out = rev c ++ pre0 ->
             (pre0 = [] \/ exists o, pre0 = Separator :: o) ->
             exists pre,
               rev (if length out =? 0 then ["."] else out) = pre ++ c
               /\ (pre = [] \/ exists p, pre = p ++ [Separator])).
  { intros out pre0 -> Hpre. exists (rev pre0).
    replace (length (rev c ++ pre0) =? 0) with false
      by (symmetry; apply Nat.eqb_neq; rewrite length_app, length_rev; lia).
    split; [now rewrite rev_app_distr, rev_involutive|].
    destruct Hpre as [-> | [o ->]]; [now left|].
    right. exists (rev o). reflexivity. }
  assert (Hroot : rootedBuffer true [Separator] 1)
    by (intros _; split; [now exists [] | reflexivity]).
  assert (Hfree : rootedBuffer false [] 0) by (intros H; discriminate).
  unfold Clean.
  destruct x as [|a x].
  - cbn [app]. replace (IsPathSeparator Separator) with true by reflexivity.
    destruct (clean_loop_elem_sep (length (Separator :: c)) true [Separator] 1
                                  Hroot)
      as (pre & Hpre & Hsep); [simpl; lia|].
    now apply (Hfin _ pre).
  - cbn [app].
    destruct (IsPathSeparator a).
    + destruct (clean_loop_last_sep (length (a :: x ++ Separator :: c)) true
                                    x [Separator] 1 Hroot)
        as (pre & Hpre & Hsep); [simpl; lia|].
      now apply (Hfin _ pre).
    + destruct (clean_loop_last_sep (length (a :: x ++ Separator :: c)) false
                                    (a :: x) [] 0 Hfree)
        as (pre & Hpre & Hsep); [simpl; lia|].
      now apply (Hfin _ pre).
Qed.

End CleanLastElement.

Section LastElement.

Import filepath.

Variable pre c : gostring.
Hypothesis pre_sep : pre = [] \/ exists p, pre = p ++ [Separator].
Hypothesis c_noSep : forallb notSep c = true.

Lemma rev_pre_cases : rev pre = [] \/ exists r, rev pre = Separator :: r.
Proof.
  destruct pre_sep as [-> | [p ->]]; [now left|].
  right. exists (rev p). now rewrite rev_app_distr.
Qed.

(** The base name of a path is its last element. *)
Lemma Base_of_last : isEmpty c = false -> Base (pre ++ c) = c.
Proof.
  intros Hne. unfold Base.
  assert (Hpc : isEmpty (pre ++ c) = false).
  { destruct (pre ++ c) eqn:E; [|reflexivity].
    apply app_eq_nil in E as [_ E]. now rewrite E in Hne. }
  rewrite Hpc.
  rewrite rev_app_distr.
  assert (Hhead : exists c0 r, rev c = c0 :: r /\ IsPathSeparator c0 = false).
  { destruct (rev c) as [|c0 r] eqn:Hr.
    - apply (f_equal (@length ascii)) in Hr. rewrite length_rev in Hr.
      destruct c; [discriminate | simpl in Hr; lia].
    - exists c0, r. split; [reflexivity|].
      pose proof c_noSep as Hn. rewrite <- forallb_rev, Hr in Hn.
      simpl in Hn. apply andb_true_iff in Hn as [Hn _].
      now apply negb_true_iff in Hn. }
  destruct Hhead as (c0 & r & Hr & Hc0).
  replace (dropWhile IsPathSeparator (rev c ++ rev pre)) with (rev c ++ rev pre)
    by (rewrite Hr; cbn [app dropWhile]; now rewrite Hc0).
  rewrite takeWhile_app_all by now rewrite forallb_rev.
  replace (takeWhile notSep (rev pre)) with (@nil ascii)
    by (destruct rev_pre_cases as [-> | [r' ->]]; reflexivity).
  rewrite app_nil_r, rev_involutive.
  destruct c; [discriminate | reflexivity].
Qed.

Lemma Ext_loop_app_sep (a : list ascii) :
  forall b t,
    forallb notSep a = true ->
    (b = [] \/ exists r, b = Separator :: r) ->
    Ext_loop (a ++ b) t = Ext_loop a t.
Proof.
  induction a as [|x a IH]; intros b t Ha Hb.
  - destruct Hb as [-> | [r ->]]; reflexivity.
  - simpl in Ha. apply andb_true_iff in Ha as [Hx Ha].
    cbn [app Ext_loop].
    destruct (IsPathSeparator x); [reflexivity|].
    destruct (Ascii.eqb x "."); [reflexivity|].
    now apply IH.
Qed.

(** The extension of a path is that of its last element. *)
Lemma Ext_of_last : Ext (pre ++ c) = Ext c.
Proof.
  unfold Ext. rewrite rev_app_distr.
  apply Ext_loop_app_sep; [now rewrite forallb_rev | apply rev_pre_cases].
Qed.

End LastElement.

Section ExtShape.

Import filepath.

(** An extension is empty or a dot followed by bytes that are not dots. *)
Lemma Ext_loop_shape (r : list ascii) :
  forall t,
    forallb notDot t = true ->
    Ext_loop r t = []
    \/ exists e, Ext_loop r t = "." :: e /\ forallb notDot e = true.
Proof.
  induction r as [|x r IH]; intros t Ht; cbn [Ext_loop]; [now left|].
  destruct (IsPathSeparator x); [now left|].
  destruct (Ascii.eqb x ".") eqn:Hx.
  - right. apply Ascii.eqb_eq in Hx. subst x. now exists t.
  - apply IH. cbn [forallb]. unfold notDot at 1. now rewrite Hx.
Qed.

(** Without an extension the last element has no dot. *)
Lemma Ext_loop_nil_noDot (r : list ascii) :
  forall t,
    Ext_loop r t = [] -> forallb notDot (takeWhile notSep r) = true.
Proof.
  induction r as [|x r IH]; intros t Ht; cbn [Ext_loop takeWhile] in *;
    [reflexivity|].
  unfold notSep at 1.
  destruct (IsPathSeparator x); [reflexivity|].
  destruct (Ascii.eqb x ".") eqn:Hx; [discriminate|].
  cbn [negb forallb]. unfold notDot at 1. rewrite Hx. cbn [negb andb].
  now apply (IH (x :: t)).
Qed.

(** A name without dots and separators has no extension. *)
Lemma Ext_loop_noDot (r : list ascii) :
  forall t,
    forallb notDot r = true -> forallb notSep r = true -> Ext_loop r t = [].
Proof.
  induction r as [|x r IH]; intros t Hd Hs; [reflexivity|].
  simpl in Hd, Hs.
  apply andb_true_iff in Hd as [Hx Hd]. apply andb_true_iff in Hs as [Hy Hs].
  unfold notDot in Hx. unfold notSep in Hy. apply negb_true_iff in Hx, Hy.
  cbn [Ext_loop]. rewrite Hx, Hy. now apply IH.
Qed.

End ExtShape.

(** The derived path, cut before its last element. *)
Lemma deriveOutputPath_last (input stem : gostring) :
  filepath.Base input = stem ++ filepath.Ext input ->
  let c := (if bytes_eqb (filepath.Base input) [filepath.Separator]
            then [] else stem)
             ++ generatedSuffix ++ filepath.Ext input in
  forallb filepath.notSep c = true
  /\ exists pre,
      deriveOutputPath input = pre ++ c
      /\ (pre = [] \/ exists p, pre = p ++ [filepath.Separator]).
Proof.
  intros Hb c.
  pose proof (Ext_noSep input) as He.
  rewrite (deriveOutputPath_eq _ _ Hb).
  unfold filepath.Dir.
  rewrite Join_dir by apply Clean_nonempty.
  destruct (Base_cases input) as [Hsep | Hns].
  - (* separators only *)
    assert (Hc : c = generatedSuffix ++ filepath.Ext input)
      by (unfold c; now rewrite Hsep, bytes_eqb_refl).
    rewrite Hsep in Hb.
    destruct stem as [|s0 stem'].
    + simpl in Hb. rewrite <- Hb in He. discriminate.
    + injection Hb as <- Hb.
      symmetry in Hb. apply app_eq_nil in Hb as [-> Hext].
      rewrite Hc, Hext.
      split; [reflexivity|].
      destruct (Clean_last_sep (generatedSuffix ++ [])
                  eq_refl ltac:(simpl; lia)
                  (filepath.Clean (rev (dropWhile filepath.notSep (rev input)))
                     ++ [filepath.Separator])) as (pre & Hpre & Hsp).
      rewrite <- app_assoc in Hpre. cbn [app] in Hpre.
      exists pre. split; [exact Hpre | exact Hsp].
  - assert (Hne : bytes_eqb (filepath.Base input) [filepath.Separator] = false).
    { destruct (bytes_eqb _ _) eqn:E; [|reflexivity].
      apply bytes_eqb_eq in E. rewrite E in Hns. discriminate. }
    assert (Hc : c = stem ++ generatedSuffix ++ filepath.Ext input)
      by (unfold c; now rewrite Hne).
    rewrite Hb, forallb_app in Hns. apply andb_true_iff in Hns as [Hs _].
    assert (Hcs : forallb filepath.notSep c = true)
      by (rewrite Hc, !forallb_app, Hs, He; reflexivity).
    split; [exact Hcs|].
    rewrite Hc in *.
    apply Clean_last_sep; [exact Hcs|].
    rewrite !length_app. simpl. lia.
Qed.

Lemma deriveOutputPath_base (input stem : gostring) :
  filepath.Base input = stem ++ filepath.Ext input ->
  filepath.Base (deriveOutputPath input)
  = (if bytes_eqb (filepath.Base input) `"/" then [] else stem)
      ++ `"_generated" ++ filepath.Ext input.
Proof.
  intros Hb.
  destruct (deriveOutputPath_last input stem Hb) as (Hns & pre & Hout & Hpre).
  rewrite Hout. apply Base_of_last; [exact Hpre | exact Hns|].
  destruct (bytes_eqb _ _); [reflexivity|].
  destruct stem; reflexivity.
Qed.

(** The derived path is longer in its last element than the input. *)
Lemma deriveOutputPath_ne (input : gostring) : deriveOutputPath input <> input.
Proof.
  destruct (Base_Ext input) as [stem Hb].
  pose proof (deriveOutputPath_base input stem Hb) as Hbase.
  intros Heq. rewrite Heq in Hbase.
  apply (f_equal (@length ascii)) in Hbase.
  destruct (bytes_eqb (filepath.Base input) `"/") eqn:E.
  - apply bytes_eqb_eq in E. rewrite E in Hbase.
    rewrite !length_app in Hbase. simpl in Hbase. lia.
  - rewrite Hb, !length_app in Hbase. simpl in Hbase. lia.
Qed.

(** X1: the base name of the derived path is the stem, [_generated] and the
    extension of the input (without the stem when the input is made of
    separators only); so the derived path is never the input path itself. *)
Theorem deriveOutputPath_never_input (input : gostring) :
  exists stem,
    filepath.Base input = stem ++ filepath.Ext input
    /\ filepath.Base (deriveOutputPath input)
       = (if bytes_eqb (filepath.Base input) `"/" then [] else stem)
           ++ `"_generated" ++ filepath.Ext input
    /\ deriveOutputPath input <> input.
Proof.
  destruct (Base_Ext input) as [stem Hb].
  exists stem. split; [exact Hb|].
  split; [exact (deriveOutputPath_base input stem Hb)|].
  apply deriveOutputPath_ne.
Qed.

(** X2: for a non-empty input that does not end in a separator, the
    derived path has the extension of the input. *)
Theorem deriveOutputPath_keeps_extension (input : gostring) :
  isEmpty input = false ->
  strings.HasSuffix input `"/" = false ->
  filepath.Ext (deriveOutputPath input) = filepath.Ext input.
Proof.
  intros Hne Hsuf.
  assert (Hne' : input <> []) by (intros ->; discriminate).
  pose proof (Base_last_elem input Hne' Hsuf) as Hlast.
  destruct (Base_Ext input) as [stem Hb].
  destruct (deriveOutputPath_last input stem Hb) as (Hns & pre & Hout & Hpre).
  assert (Hbns : forallb filepath.notSep (filepath.Base input) = true)
    by (rewrite Hlast, forallb_rev; apply takeWhile_forallb).
  assert (Hnr : bytes_eqb (filepath.Base input) [filepath.Separator] = false).
  { destruct (bytes_eqb _ _) eqn:E; [|reflexivity].
    apply bytes_eqb_eq in E. rewrite E in Hbns. discriminate. }
  rewrite Hnr in Hns, Hout.
  rewrite Hout, (Ext_of_last pre _ Hpre Hns).
  unfold filepath.Ext at 1.
  destruct (Ext_loop_shape (rev input) [] eq_refl) as [Hnil | (e & He & Hnd)];
    fold (filepath.Ext input) in *.
  - (* no extension: no dot in the base name *)
    rewrite Hnil in *. rewrite app_nil_r in *.
    apply Ext_loop_noDot; rewrite forallb_rev; [|exact Hns].
    rewrite forallb_app. apply andb_true_iff. split; [|reflexivity].
    rewrite <- Hb, Hlast, forallb_rev.
    exact (Ext_loop_nil_noDot (rev input) [] Hnil).
  - rewrite He in *.
    rewrite (Ext_loop_leading_dot (rev e) _ (rev (stem ++ generatedSuffix)) []).
    + now rewrite rev_involutive, app_nil_r.
    + rewrite forallb_rev. exact Hnd.
    + rewrite takeWhile_all by now rewrite forallb_rev.
      rewrite app_assoc, rev_app_distr. cbn [rev]. now rewrite <- app_assoc.
Qed.

Lemma deriveOutputPath_keeps_extension_witness :
  isEmpty `"assets/cat.png" = false
  /\ strings.HasSuffix `"assets/cat.png" `"/" = false
  /\ filepath.Ext (deriveOutputPath `"assets/cat.png") = filepath.Ext `"assets/cat.png"
  /\ filepath.Ext `"assets/cat.png" = `".png"
  /\ filepath.Ext (deriveOutputPath `"a.b/") <> filepath.Ext `"a.b/".
Proof.
  split; [reflexivity|]. split; [reflexivity|].
  split; [apply (deriveOutputPath_keeps_extension `"assets/cat.png"); reflexivity|].
  split; [reflexivity | discriminate].
Defined.

(** ** [strings.TrimSpace] and the token of the root program *)

Lemma dropWhile_suffix (f : ascii -> bool) (l : gostring) :
  exists a, l = a ++ dropWhile f l /\ forallb f a = true.
Proof.
  induction l as [|x l IH]; [now exists []|].
  cbn [dropWhile]. destruct (f x) eqn:Hx; [|now exists []].
  destruct IH as (a & Ha & Hf). exists (x :: a). split.
  - now rewrite <- app_comm_cons, <- Ha.
  - simpl. now rewrite Hx.
Qed.

Section TrimSpaceFacts.

Import utf8 unicode strings.

Lemma asciiSpace_IsSpace (c : ascii) :
  asciiSpace c = true -> isASCII c = true /\ IsSpace (b c) = true.
Proof.
  destruct c as [[] [] [] [] [] [] [] []]; intros H; vm_compute in H;
    try discriminate H; split; reflexivity.
Qed.

Lemma notASCII_notSpace (c : ascii) : isASCII c = false -> asciiSpace c = false.
Proof.
  intros H. destruct (asciiSpace c) eqn:E; [|reflexivity].
  apply asciiSpace_IsSpace in E. destruct E as [E _]. congruence.
Qed.

Lemma first_Lead (s0 : N) (sz : nat) (lo hi : N) :
  first s0 = Lead sz lo hi ->
  (0x80 <= s0)%N /\ (0x80 <= lo)%N /\ 2 <= sz <= 4.
Proof.
  unfold first.
  destruct (s0 <? 0x80)%N eqn:H0; [discriminate|].
  apply N.ltb_ge in H0.
  repeat match goal with
         | |- (if ?b then _ else _) = _ -> _ => destruct b
         end;
    intros H; inversion H; subst; repeat split; (lia || exact H0).
Qed.

Lemma DecodeRune_ASCII (c : ascii) (t : gostring) :
  isASCII c = true -> DecodeRuneInString (c :: t) = (b c, 1).
Proof.
  unfold isASCII, RuneSelf, DecodeRuneInString, first. now intros ->.
Qed.

(** The width of a rune, and the bytes after its first one. *)
Lemma DecodeRune_shape (c : ascii) (t : gostring) (r : N) (size : nat) :
  DecodeRuneInString (c :: t) = (r, size) ->
  1 <= size <= length (c :: t)
  /\ forallb notASCII (skipn 1 (firstn size (c :: t))) = true
  /\ (2 <= size -> isASCII c = false).
Proof.
  unfold DecodeRuneInString.
  destruct (first (b c)) as [| |sz lo hi] eqn:Hf.
  - intros H. injection H as <- <-. cbn. repeat split; lia.
  - intros H. injection H as <- <-. cbn. repeat split; lia.
  - destruct (first_Lead _ _ _ _ Hf) as (Hc & Hlo & Hsz).
    assert (Hna : isASCII c = false)
      by (unfold isASCII, RuneSelf; apply N.ltb_ge; exact Hc).
    assert (Hcont : forall x, continuation (b x) = true -> notASCII x = true).
    { intros x Hx. unfold continuation in Hx. apply andb_prop in Hx as [Hx _].
      apply N.leb_le in Hx. unfold notASCII, isASCII, RuneSelf.
      apply negb_true_iff, N.ltb_ge. exact Hx. }
    assert (Hone : (RuneError, 1) = (r, size) ->
                   1 <= size <= length (c :: t)
                   /\ forallb notASCII (skipn 1 (firstn size (c :: t))) = true
                   /\ (2 <= size -> isASCII c = false)).
    { intros H. injection H as <- <-. cbn. repeat split; lia. }
    destruct (length (c :: t) <? sz) eqn:Hlen; [exact Hone|].
    apply Nat.ltb_ge in Hlen.
    destruct t as [|c1 t1]; [exact Hone|].
    destruct ((b c1 <? lo) || (hi <? b c1))%N eqn:H1; [exact Hone|].
    apply orb_false_iff in H1 as [H1 _]. apply N.ltb_ge in H1.
    assert (Hn1 : notASCII c1 = true).
    { unfold notASCII, isASCII, RuneSelf. apply negb_true_iff, N.ltb_ge. lia. }
    destruct (sz <=? 2) eqn:H2.
    { intros H. injection H as <- <-. cbn [firstn skipn forallb length].
      rewrite Hn1. repeat split; (lia || auto). }
    destruct t1 as [|c2 t2]; [exact Hone|].
    destruct (continuation (b c2)) eqn:Hc2; cbn [negb]; [|exact Hone].
    destruct (sz <=? 3) eqn:H3.
    { intros H. injection H as <- <-. cbn [firstn skipn forallb length].
      rewrite Hn1, (Hcont _ Hc2). repeat split; (lia || auto). }
    destruct t2 as [|c3 t3]; [exact Hone|].
    destruct (continuation (b c3)) eqn:Hc3; cbn [negb]; [|exact Hone].
    intros H. injection H as <- <-. cbn [firstn skipn forallb length].
    rewrite Hn1, (Hcont _ Hc2), (Hcont _ Hc3). repeat split; (lia || auto).
Qed.

(** [TrimLeftFunc] gives a tail of the string that does not start with
    white space. *)
Lemma TrimLeftFunc_loop_spec (fuel : nat) :
  forall s,
    length s <= fuel ->
    (exists a, s = a ++ TrimLeftFunc_loop fuel s)
    /\ (forall c t, TrimLeftFunc_loop fuel s = c :: t -> asciiSpace c = false).
Proof.
  induction fuel as [|fuel IH]; intros s Hlen.
  - destruct s; [|simpl in Hlen; lia]. split; [now exists []|discriminate].
  - destruct s as [|x s']; [split; [now exists [] | discriminate]|].
    cbn [TrimLeftFunc_loop].
    destruct (DecodeRuneInString (x :: s')) as [r size] eqn:Hd.
    destruct (DecodeRune_shape _ _ _ _ Hd) as ((Hs1 & Hs2) & _ & _).
    destruct (IsSpace r) eqn:Hsp.
    + destruct (IH (skipn size (x :: s'))) as ((a & Ha) & Hhd).
      { rewrite length_skipn. cbn [length] in *. lia. }
      split; [|exact Hhd].
      exists (firstn size (x :: s') ++ a).
      rewrite <- app_assoc, <- Ha. now rewrite firstn_skipn.
    + split; [now exists []|].
      intros c t H. injection H as <- <-.
      destruct (asciiSpace x) eqn:Hx; [|reflexivity].
      apply asciiSpace_IsSpace in Hx. destruct Hx as [Hx1 Hx2].
      rewrite (DecodeRune_ASCII x s' Hx1) in Hd. injection Hd as <- <-.
      congruence.
Qed.

Lemma lastRuneWindow_shape :
  forall before n acc,
    exists w pre,
      lastRuneWindow n before acc = w ++ acc /\ rev before = pre ++ w.
Proof.
  induction before as [|c before IH]; intros n acc.
  - exists [], []. destruct n; now split.
  - assert (Hstop : exists w pre, c :: acc = w ++ acc
                                  /\ rev before ++ [c] = pre ++ w)
      by (exists [c], (rev before); now split).
    destruct n as [|n]; cbn [lastRuneWindow rev]; [exact Hstop|].
    destruct (RuneStart c); [exact Hstop|].
    destruct (IH n (c :: acc)) as (w & pre & Hw & Hpre).
    exists (w ++ [c]), pre. split.
    + now rewrite Hw, <- app_assoc.
    + now rewrite Hpre, app_assoc.
Qed.

(** The last rune of a string: its bytes [w] end the string; one ASCII
    byte, or bytes that start with one that is not ASCII. *)
Lemma DecodeLastRune_shape (u : gostring) (r : N) (size : nat) :
  u <> [] ->
  DecodeLastRuneInString u = (r, size) ->
  exists pre w,
    u = pre ++ w /\ length w = size
    /\ ((exists c, w = [c] /\ isASCII c = true /\ r = b c)
        \/ (exists c t, w = c :: t /\ isASCII c = false)).
Proof.
  intros Hne. unfold DecodeLastRuneInString.
  destruct (rev u) as [|lst before] eqn:Hrev;
    apply (f_equal (@rev ascii)) in Hrev; rewrite rev_involutive in Hrev;
    [contradiction|].
  cbn [rev] in Hrev. subst u.
  fold (isASCII lst). destruct (isASCII lst) eqn:Hl.
  - intros H. injection H as <- <-.
    exists (rev before), [lst]. split; [reflexivity|]. split; [reflexivity|].
    left. now exists lst.
  - assert (Hone : forall r', (r', 1) = (r, size) ->
              exists pre w,
                rev before ++ [lst] = pre ++ w /\ length w = size
                /\ ((exists c, w = [c] /\ isASCII c = true /\ r = b c)
                    \/ (exists c t, w = c :: t /\ isASCII c = false))).
    { intros r' H. injection H as <- <-.
      exists (rev before), [lst]. split; [reflexivity|]. split; [reflexivity|].
      right. now exists lst, []. }
    destruct (lastRuneWindow_shape before 3 [lst]) as (w & pre & Hw & Hpre).
    rewrite Hw.
    destruct (DecodeRuneInString (w ++ [lst])) as [r' size'] eqn:Hd.
    destruct (size' =? length (w ++ [lst])) eqn:Hsz; [|apply Hone].
    apply Nat.eqb_eq in Hsz.
    intros H. injection H as <- <-.
    exists pre, (w ++ [lst]). split; [now rewrite Hpre, <- app_assoc|].
    split; [now rewrite Hsz|].
    right. destruct w as [|c0 w'].
    + now exists lst, [].
    + exists c0, (w' ++ [lst]). split; [reflexivity|].
      cbn [app] in Hd. apply DecodeRune_shape in Hd.
      destruct Hd as (_ & _ & Hd). apply Hd.
      rewrite Hsz. cbn [app length]. rewrite length_app. simpl. lia.
Qed.

Lemma lastIndexFunc_loop_spec (s : gostring) (fuel : nat) :
  forall i k,
    lastIndexFunc_loop fuel s i = Some k ->
    exists j r size,
      0 < j <= i
      /\ DecodeLastRuneInString (firstn j s) = (r, size)
      /\ IsSpace r = false
      /\ k = j - size.
Proof.
  induction fuel as [|fuel IH]; intros i k; [discriminate|].
  cbn [lastIndexFunc_loop].
  destruct (i =? 0) eqn:Hi; [discriminate|]. apply Nat.eqb_neq in Hi.
  destruct (DecodeLastRuneInString (firstn i s)) as [r size] eqn:Hd.
  destruct (IsSpace r) eqn:Hsp.
  - intros H. destruct (IH _ _ H) as (j & r' & size' & Hj & Hrest).
    exists j, r', size'. split; [lia | exact Hrest].
  - intros H. injection H as <-.
    exists i, r, size. repeat split; (lia || assumption).
Qed.

Lemma firstn_add (n m : nat) (s : gostring) :
  firstn (n + m) s = firstn n s ++ firstn m (skipn n s).
Proof.
  revert s; induction n as [|n IH]; intros s; [reflexivity|].
  destruct s as [|c s]; [now rewrite !firstn_nil|].
  cbn [Nat.add firstn skipn app]. now rewrite IH.
Qed.

Lemma forallb_last (f : ascii -> bool) (y i : gostring) (c : ascii) :
  forallb f y = true -> forall pre, pre ++ y = i ++ [c] -> y <> [] -> f c = true.
Proof.
  intros Hy pre H Hne.
  destruct (exists_last Hne) as (y' & z & ->).
  rewrite app_assoc in H. apply app_inj_tail in H as [_ <-].
  rewrite forallb_app in Hy. apply andb_prop in Hy as [_ Hy].
  cbn in Hy. now rewrite andb_true_r in Hy.
Qed.

(** [TrimRightFunc] gives a head of the string that does not end with
    white space. *)
Lemma TrimRightFunc_spec (s : gostring) :
  (exists z, s = TrimRightFunc s ++ z)
  /\ (forall i c, TrimRightFunc s = i ++ [c] -> asciiSpace c = false).
Proof.
  unfold TrimRightFunc.
  destruct (lastIndexFunc_loop (length s) s (length s)) as [k|] eqn:Hk.
  2:{ split; [now exists s|]. intros i c H. now destruct i. }
  split.
  { destruct (_ <=? _)%N; eexists; symmetry; apply firstn_skipn. }
  destruct (lastIndexFunc_loop_spec _ _ _ _ Hk) as (j & r & size & Hj & Hd & Hsp & ->).
  assert (Hu : firstn j s <> []).
  { intros E. apply (f_equal (@length ascii)) in E.
    rewrite length_firstn in E. simpl in E. lia. }
  destruct (DecodeLastRune_shape _ _ _ Hu Hd) as (pre & w & Hpw & Hlen & Hcase).
  assert (Hjlen : j = length pre + size).
  { apply (f_equal (@length ascii)) in Hpw.
    rewrite length_firstn, length_app, Hlen in Hpw. lia. }
  assert (Hs : s = pre ++ w ++ skipn j s).
  { rewrite app_assoc, <- Hpw. symmetry. apply firstn_skipn. }
  replace (j - size) with (length pre) by lia.
  assert (Hpre : firstn (length pre) s = pre).
  { rewrite Hs at 1. rewrite firstn_app, Nat.sub_diag, firstn_all. cbn.
    now rewrite app_nil_r. }
  assert (Hskip : skipn (length pre) s = w ++ skipn j s).
  { rewrite Hs at 1. rewrite skipn_app, Nat.sub_diag, skipn_all. reflexivity. }
  destruct Hcase as [(c0 & -> & Hc0 & ->) | (c0 & t & -> & Hc0)].
  - assert (Hn : nth (length pre) s "000" = c0).
    { rewrite Hs. rewrite app_nth2, Nat.sub_diag by lia. reflexivity. }
    rewrite Hn.
    replace (RuneSelf <=? b c0)%N with false
      by (symmetry; apply N.leb_gt; unfold isASCII in Hc0;
          now apply N.ltb_lt in Hc0).
    intros i c H.
    replace (S (length pre)) with (length pre + 1) in H by lia.
    rewrite firstn_add, Hpre, Hskip in H. cbn in H.
    apply app_inj_tail in H as [_ <-].
    destruct (asciiSpace c0) eqn:E; [|reflexivity].
    apply asciiSpace_IsSpace in E. destruct E as [_ E]. congruence.
  - assert (Hn : nth (length pre) s "000" = c0).
    { rewrite Hs. rewrite app_nth2, Nat.sub_diag by lia. reflexivity. }
    rewrite Hn.
    replace (RuneSelf <=? b c0)%N with true
      by (symmetry; apply N.leb_le; unfold isASCII in Hc0;
          now apply N.ltb_ge in Hc0).
    intros i c H.
    rewrite firstn_add, Hpre, Hskip in H. cbn [app] in H.
    destruct (DecodeRuneInString (c0 :: t ++ skipn j s)) as [r' wid] eqn:Hd'.
    cbn [snd] in H.
    destruct (DecodeRune_shape _ _ _ _ Hd') as ((Hw1 & Hw2) & Htail & _).
    apply notASCII_notSpace.
    assert (Hall : forallb notASCII (firstn wid (c0 :: t ++ skipn j s)) = true).
    { destruct wid as [|wid]; [lia|].
      cbn [firstn forallb]. cbn [firstn skipn] in Htail.
      unfold notASCII at 1. rewrite Hc0. exact Htail. }
    assert (Hne : firstn wid (c0 :: t ++ skipn j s) <> [])
      by (destruct wid; [lia | discriminate]).
    pose proof (forallb_last notASCII _ i c Hall pre H Hne) as Hc.
    unfold notASCII in Hc. now apply negb_true_iff in Hc.
Qed.

Lemma TrimSpace_stop_spec :
  forall r,
    (exists z, rev r = TrimSpace_stop r ++ z)
    /\ (forall i c, TrimSpace_stop r = i ++ [c] -> asciiSpace c = false).
Proof.
  induction r as [|y r IH].
  - split; [now exists []|]. intros i c H. now destruct i.
  - cbn [TrimSpace_stop].
    destruct (RuneSelf <=? b y)%N; [apply TrimRightFunc_spec|].
    destruct (asciiSpace y) eqn:Hy.
    + destruct IH as ((z & Hz) & Hlast). split; [|exact Hlast].
      exists (z ++ [y]). cbn [rev]. now rewrite Hz, app_assoc.
    + split; [exists []; now rewrite app_nil_r|].
      intros i c H. cbn [rev] in H.
      apply app_inj_tail in H as [_ <-]. exact Hy.
Qed.

(** [TrimSpace] gives a piece of the string that neither starts nor ends
    with an ASCII white space byte. *)
Lemma TrimSpace_segment :
  forall s,
    (exists a z, s = a ++ TrimSpace s ++ z)
    /\ (forall c t, TrimSpace s = c :: t -> asciiSpace c = false)
    /\ (forall i c, TrimSpace s = i ++ [c] -> asciiSpace c = false).
Proof.
  unfold TrimSpace.
  induction s as [|x s IH].
  - split; [now exists [], []|]. split; [discriminate|].
    intros i c H. now destruct i.
  - cbn [TrimSpace_start].
    destruct (RuneSelf <=? b x)%N.
    { unfold TrimFunc, TrimLeftFunc.
      destruct (TrimLeftFunc_loop_spec (length (x :: s)) (x :: s) (le_n _))
        as ((a & Ha) & Hhd).
      destruct (TrimRightFunc_spec (TrimLeftFunc_loop (length (x :: s)) (x :: s)))
        as ((z & Hz) & Hlast).
      split; [exists a, z; now rewrite <- Hz|].
      split; [|exact Hlast].
      intros c t H. rewrite H in Hz. apply (Hhd c (t ++ z)). exact Hz. }
    destruct (asciiSpace x) eqn:Hx.
    + destruct IH as ((a & z & Haz) & Hhd & Hlast).
      split; [|split; assumption].
      exists (x :: a), z. cbn [app]. now rewrite <- Haz.
    + destruct (TrimSpace_stop_spec (rev (x :: s))) as ((z & Hz) & Hlast).
      rewrite rev_involutive in Hz.
      split; [exists [], z; exact Hz|].
      split; [|exact Hlast].
      intros c t H. rewrite H in Hz. injection Hz as <- _. exact Hx.
Qed.

(** On ASCII text [TrimSpace] removes the white space bytes of both ends
    and nothing else. *)
Lemma TrimSpace_stop_ASCII :
  forall r, forallb isASCII r = true ->
            TrimSpace_stop r = rev (dropWhile asciiSpace r).
Proof.
  induction r as [|y r IH]; intros Hr; [reflexivity|].
  cbn [forallb] in Hr. apply andb_prop in Hr as [Hy Hr].
  cbn [TrimSpace_stop dropWhile].
  replace (RuneSelf <=? b y)%N with false
    by (symmetry; apply N.leb_gt; now apply N.ltb_lt in Hy).
  destruct (asciiSpace y); [now apply IH | reflexivity].
Qed.

Lemma TrimSpace_ASCII :
  forall s, forallb isASCII s = true ->
            TrimSpace s = rev (dropWhile asciiSpace (rev (dropWhile asciiSpace s))).
Proof.
  unfold TrimSpace.
  induction s as [|x s IH]; intros Hs; [reflexivity|].
  pose proof Hs as Hall.
  cbn [forallb] in Hs. apply andb_prop in Hs as [Hx Hs].
  cbn [TrimSpace_start dropWhile].
  replace (RuneSelf <=? b x)%N with false
    by (symmetry; apply N.leb_gt; now apply N.ltb_lt in Hx).
  destruct (asciiSpace x); [now apply IH|].
  apply TrimSpace_stop_ASCII. now rewrite forallb_rev.
Qed.

End TrimSpaceFacts.

(** [TrimSpace] gives a piece of the string that neither starts nor ends
    with an ASCII white space byte; on ASCII text what it cuts off is white
    space only. *)
Lemma TrimSpace_spec (s : gostring) :
  (exists a z,
      s = a ++ strings.TrimSpace s ++ z
      /\ (forallb isASCII s = true ->
          forallb strings.asciiSpace a = true
          /\ forallb strings.asciiSpace z = true))
  /\ (forall c t, strings.TrimSpace s = c :: t -> strings.asciiSpace c = false)
  /\ (forall i c, strings.TrimSpace s = i ++ [c] -> strings.asciiSpace c = false).
Proof.
  destruct (TrimSpace_segment s) as ((a & z & Haz) & Hhd & Hlast).
  split; [|split; assumption].
  destruct (forallb isASCII s) eqn:Hs.
  - rewrite (TrimSpace_ASCII s Hs).
    destruct (dropWhile_suffix strings.asciiSpace s) as (a' & Ha & Hfa).
    set (m := dropWhile strings.asciiSpace s) in *.
    destruct (dropWhile_suffix strings.asciiSpace (rev m)) as (z' & Hz & Hfz).
    set (r := dropWhile strings.asciiSpace (rev m)) in *.
    assert (Hm : m = rev r ++ rev z').
    { rewrite <- rev_app_distr, <- Hz. now rewrite rev_involutive. }
    exists a', (rev z'). split; [now rewrite <- Hm|].
    intros _. split; [exact Hfa | now rewrite forallb_rev].
  - exists a, z. split; [exact Haz | discriminate].
Qed.



(** ** Line breaks in the payload *)

Section PayloadLineBreaks.

Import base64.

Lemma decodeMap_newline (c : ascii) : isNewline c = true -> decodeMap c = None.
Proof.
  unfold isNewline. intros H. apply orb_true_iff in H.
  destruct H as [H | H]; apply Ascii.eqb_eq in H; subst c; reflexivity.
Qed.

Lemma isEmpty_dropWhile_newline (l : gostring) :
  isEmpty (dropWhile isNewline l) = isEmpty (filter notNewline l).
Proof.
  induction l as [|c l IH]; [reflexivity|].
  cbn [dropWhile filter]. unfold notNewline at 1.
  destruct (isNewline c); [exact IH | reflexivity].
Qed.

Lemma filter_notNewline_idem (l : gostring) :
  filter notNewline (filter notNewline l) = filter notNewline l.
Proof.
  induction l as [|c l IH]; [reflexivity|].
  cbn [filter]. destruct (notNewline c) eqn:Hc; [|exact IH].
  cbn [filter]. now rewrite Hc, IH.
Qed.

(** After a first padding byte. *)
Lemma pad2_newlines (q : gostring) :
  forall s (e1 e2 : nat) (e3 : gostring -> nat)
         (e1' e2' : nat) (e3' : gostring -> nat),
    bytesOf match dropWhile isNewline (filter notNewline s) with
            | [] => CorruptInputError e1
            | p :: rest2 =>
              if negb (Ascii.eqb p padChar) then CorruptInputError e2
              else if isEmpty (dropWhile isNewline rest2) then Decoded q
                   else CorruptInputError (e3 rest2)
            end
    = bytesOf match dropWhile isNewline s with
              | [] => CorruptInputError e1'
              | p :: rest2 =>
                if negb (Ascii.eqb p padChar) then CorruptInputError e2'
                else if isEmpty (dropWhile isNewline rest2) then Decoded q
                     else CorruptInputError (e3' rest2)
              end.
Proof.
  induction s as [|p s IHs]; intros e1 e2 e3 e1' e2' e3'; [reflexivity|].
  cbn [filter]. unfold notNewline at 1.
  destruct (isNewline p) eqn:Hp; cbn [negb].
  - cbn [dropWhile]. rewrite Hp. apply IHs.
  - cbn [dropWhile]. rewrite Hp.
    destruct (negb (Ascii.eqb p padChar)); [reflexivity|].
    rewrite !isEmpty_dropWhile_newline, filter_notNewline_idem.
    now destruct (isEmpty (filter notNewline s)).
Qed.

(** The decoder reads the same bytes with and without the line breaks;
    the offset of an error counts them. *)
Lemma Decode_loop_newlines (s : gostring) :
  forall si si' j dbuf,
    bytesOf (Decode_loop (filter notNewline s) si j dbuf)
    = bytesOf (Decode_loop s si' j dbuf).
Proof.
  induction s as [|c s IH]; intros si si' j dbuf.
  - cbn. now destruct j.
  - cbn [filter]. unfold notNewline at 1.
    destruct (isNewline c) eqn:Hnl; cbn [negb].
    + cbn [Decode_loop]. rewrite (decodeMap_newline c Hnl), Hnl. apply IH.
    + cbn [Decode_loop]. rewrite Hnl.
      destruct (decodeMap c) as [out|].
      * destruct (j =? 3); [|apply IH].
        specialize (IH (S si) (S si') 0 []).
        destruct (Decode_loop (filter notNewline s) (S si) 0 []),
                 (Decode_loop s (S si') 0 []); cbn in IH |- *;
          congruence.
      * destruct (negb (Ascii.eqb c padChar)); [reflexivity|].
        destruct j as [|[|[|j]]]; try reflexivity.
        -- cbv zeta.
           apply (pad2_newlines (quantum_bytes 2 dbuf) s _ _
                    (fun rest2 => _ + (length rest2 - length (dropWhile isNewline rest2)))
                    _ _
                    (fun rest2 => _ + (length rest2 - length (dropWhile isNewline rest2)))).
        -- cbv zeta.
           rewrite !isEmpty_dropWhile_newline, filter_notNewline_idem.
           now destruct (isEmpty (filter notNewline s)).
Qed.

End PayloadLineBreaks.

(** X5: carriage returns and line feeds in the first payload are ignored:
    a non-empty payload gives the bytes the payload without them decodes
    to, and the corrupt payload diagnostic, at some offset, when that one
    does not decode.  A payload made of line breaks only is not empty, so
    it passes the test for a missing image and gives an empty image. *)
Theorem payload_line_breaks_ignored (s : gostring) (rest : list imageDatum) :
  isEmpty s = false ->
  match base64.DecodeString (filter notNewline s) with
  | Some imageBytes =>
    main_decode {| Data := {| B64JSON := s |} :: rest; Error := None |}
    = Ok imageBytes
  | None =>
    exists offset,
      main_decode {| Data := {| B64JSON := s |} :: rest; Error := None |}
      = Err (corruptPayloadMessage offset)
  end.
Proof.
  intros Hs. unfold main_decode.
  cbn [Error Data length Nat.eqb nth_error B64JSON]. rewrite Hs.
  unfold base64.DecodeString, base64.Decode.
  pose proof (Decode_loop_newlines s 0 0 0 []) as H.
  destruct (base64.Decode_loop (filter notNewline s) 0 0 []),
           (base64.Decode_loop s 0 0 []); cbn in H; try discriminate.
  - now injection H as <-.
  - now eexists.
Qed.

Lemma payload_line_breaks_ignored_witness :
  isEmpty ["013"; "010"] = false
  /\ main_decode {| Data := [ {| B64JSON := ["013"; "010"] |} ]; Error := None |}
     = Ok []
  /\ main_decode {| Data := [ {| B64JSON := `"SGVs" ++ ["013"; "010"] ++ `"bG8=" |} ];
                    Error := None |}
     = Ok `"Hello".
Proof.
  split; [reflexivity|].
  split.
  - exact (payload_line_breaks_ignored ["013"; "010"] [] eq_refl).
  - reflexivity.
Defined.

(** ** [buildMultipartBody]: any number of images, and its effects *)

Lemma logged_nil (st : State) : logged st [] = st.
Proof. destruct st. unfold logged. cbn. now rewrite app_nil_r. Qed.

Lemma logged_logged (st : State) (a b : list Event) :
  logged (logged st a) b = logged st (a ++ b).
Proof. unfold logged. cbn. now rewrite app_assoc. Qed.

Lemma emit_logged (e : Event) (st : State) : emit e st = logged st [e].
Proof. reflexivity. Qed.

Section BuildEffects.

Variable env : Env.

Lemma addImageParts_run fieldName :
  forall imagePaths datas w st,
    Forall2 (readable (fs st)) imagePaths datas ->
    exists w',
      addImageParts env w fieldName imagePaths st
      = (Ok w', logged st (map EvOpen imagePaths))
      /\ multipart.buf w'
         = multipart.buf w
             ++ renderParts (multipart.boundary w) (negb (multipart.lastpart w))
                  (imageParts env fieldName (combine imagePaths datas))
      /\ multipart.boundary w' = multipart.boundary w
      /\ multipart.lastpart w' = multipart.lastpart w || negb (isnil imagePaths).
Proof.
  intros imagePaths datas w st Hall.
  destruct (addImageParts_readable env fieldName imagePaths datas w st Hall)
    as (w' & st' & Hrun & _ & Hbuf & Hb & Hl).
  exists w'. split; [|now repeat split].
  rewrite Hrun. f_equal. clear Hbuf Hb Hl.
  revert w st datas Hall w' st' Hrun.
  induction imagePaths as [|p ps IH]; intros w st datas Hall w' st' Hrun.
  - cbn in Hrun. injection Hrun as _ <-. now rewrite logged_nil.
  - inversion Hall as [|? d ? ds Hp Hps]; subst.
    cbn [addImageParts] in Hrun. unfold bind at 1 in Hrun.
    destruct (addImagePart_readable env w fieldName p d st Hp) as (w1 & Hm & _).
    rewrite Hm in Hrun.
    rewrite (IH w1 (emit (EvOpen p) st) ds Hps w' st' Hrun).
    rewrite emit_logged, logged_logged. reflexivity.
Qed.

Lemma addImageParts_app fieldName (a b : list gostring) :
  forall w st,
    addImageParts env w fieldName (a ++ b) st
    = bind (addImageParts env w fieldName a)
           (fun w' => addImageParts env w' fieldName b) st.
Proof.
  induction a as [|p a IH]; intros w st; [reflexivity|].
  cbn [app addImageParts]. unfold bind in *.
  destruct (addImagePart env w fieldName p st) as [[w1 | e] st1];
    [apply IH | reflexivity].
Qed.

Lemma addImagePart_unreadable_run w fieldName imagePath st :
  isRegularFile (fs st) imagePath = false ->
  addImagePart env w fieldName imagePath st
  = (Err (unreadableMessage (fs st) imagePath), emit (EvOpen imagePath) st).
Proof.
  unfold isRegularFile, unreadableMessage, addImagePart, bind, tell, get_fs.
  cbn [emit fs].
  destruct (fs st imagePath) as [[data| |]|]; intros H;
    [discriminate | reflexivity..].
Qed.

Lemma imageParts_names fieldName (files : list (gostring * gostring)) :
  plainName fieldName = true ->
  Forall (fun pd => plainName (filepath.Base (fst pd)) = true) files ->
  filter isFilePart (imageParts env fieldName files) = imageParts env fieldName files
  /\ map fieldNameOf (imageParts env fieldName files)
     = repeat (Some fieldName) (length files).
Proof.
  intros Hname Hplain. unfold imageParts.
  induction Hplain as [|pd l Hpd Hl [IH1 IH2]]; [now split|].
  cbn [map filter length repeat].
  rewrite (isFilePart_imagePart env fieldName (fst pd) (snd pd) Hname Hpd).
  rewrite (fieldNameOf_imagePart env fieldName (fst pd) (snd pd) Hname Hpd).
  now rewrite IH1, IH2.
Qed.

Lemma Forall_combine_fst (P : gostring -> Prop) :
  forall (l l' : list gostring),
    Forall P l -> Forall (fun pd => P (fst pd)) (combine l l').
Proof.
  induction l as [|x l IH]; intros l' Hl; [constructor|].
  destruct l' as [|y l']; [constructor|].
  inversion Hl; subst. constructor; [assumption | now apply IH].
Qed.

End BuildEffects.

(** Whatever the iteration order, the same three entries are met. *)
Lemma rangeFields_perm (o : MapOrder) (prompt size : gostring) :
  Permutation (rangeFields o prompt size)
              [(`"prompt", prompt); (`"n", `"1"); (`"size", size)].
Proof.
  destruct o; cbn [rangeFields].
  - apply Permutation_refl.
  - apply perm_skip, perm_swap.
  - apply perm_swap.
  - eapply perm_trans; [apply perm_skip, perm_swap | apply perm_swap].
  - eapply perm_trans; [apply perm_swap | apply perm_skip, perm_swap].
  - eapply perm_trans; [apply perm_swap|].
    eapply perm_trans; [apply perm_skip, perm_swap | apply perm_swap].
Qed.

(** The run of [buildMultipartBody] on readable images, with its final
    state. *)
Lemma buildMultipartBody_run
      (env : Env) (imagePaths datas : list gostring) (prompt size : gostring)
      (st : State) :
  Forall2 (readable (fs st)) imagePaths datas ->
  buildMultipartBody env imagePaths prompt size st
  = (Ok (renderBody (multipart.randomBoundary (e_rand env))
           (imageParts env (if 1 <? length imagePaths then `"image[]" else `"image")
                       (combine imagePaths datas)
              ++ map fieldPart (rangeFields (e_order env) prompt size)),
         `"multipart/form-data; boundary=" ++ multipart.randomBoundary (e_rand env)),
     logged st (map EvOpen imagePaths)).
Proof.
  intros Hall.
  pose proof (buildMultipartBody_readable env imagePaths datas prompt size st Hall)
    as Hfst.
  cbv zeta in Hfst.
  destruct (buildMultipartBody env imagePaths prompt size st) as [r st'] eqn:Hrun.
  cbn [fst] in Hfst. subst r. f_equal.
  unfold buildMultipartBody in Hrun. cbv zeta in Hrun.
  destruct (addImageParts_run env (if 1 <? length imagePaths then `"image[]" else `"image")
                              imagePaths datas
                              (multipart.NewWriter (e_rand env)) st Hall)
    as (w1 & Hrun1 & _).
  unfold bind at 1 in Hrun.
  destruct (addImageParts env _ _ imagePaths st) as [r1 s1] eqn:E.
  injection Hrun1 as -> ->.
  destruct (writeFields_spec (rangeFields (e_order env) prompt size) w1
                             (rangeFields_keys _ _ _))
    as (w2 & Hrun2 & _).
  unfold bind at 1 in Hrun. unfold lift at 1 in Hrun. rewrite Hrun2 in Hrun.
  unfold bind, wrap, lift, ret, multipart.Close in Hrun.
  now inversion Hrun.
Qed.

(** X6: for any list of readable images, empty or long, whose base names
    hold no double quote, backslash, carriage return or line feed, the
    build succeeds, opens each file once in list order and changes nothing
    in the store; the body is the layout of one file part per image, in
    list order, all named [image] for at most one image and [image[]] for
    more, followed by the three text fields [prompt], [n] (always 1) and
    [size] in some order. *)
Theorem build_any_number_of_images
        (env : Env) (imagePaths datas : list gostring) (prompt size : gostring)
        (st : State) :
  Forall2 (readable (fs st)) imagePaths datas ->
  Forall (fun p => plainName (filepath.Base p) = true) imagePaths ->
  let b := multipart.randomBoundary (e_rand env) in
  let fieldName := if 1 <? length imagePaths then `"image[]" else `"image" in
  let files := imageParts env fieldName (combine imagePaths datas) in
  let fields := map fieldPart (rangeFields (e_order env) prompt size) in
  buildMultipartBody env imagePaths prompt size st
  = (Ok (renderBody b (files ++ fields), `"multipart/form-data; boundary=" ++ b),
     logged st (map EvOpen imagePaths))
  /\ filter isFilePart (files ++ fields) = files
  /\ map fieldNameOf files = repeat (Some fieldName) (length imagePaths)
  /\ Permutation fields
       [fieldPart (`"prompt", prompt); fieldPart (`"n", `"1");
        fieldPart (`"size", size)].
Proof.
  intros Hall Hplain b fieldName files fields.
  assert (Hname : plainName fieldName = true)
    by (unfold fieldName; destruct (1 <? length imagePaths); reflexivity).
  pose proof (Forall_combine_fst (fun p => plainName (filepath.Base p) = true)
                                 imagePaths datas Hplain) as Hfiles.
  split; [|split; [|split]].
  - exact (buildMultipartBody_run env imagePaths datas prompt size st Hall).
  - rewrite filter_app. unfold fields. rewrite fields_not_files, app_nil_r.
    exact (proj1 (imageParts_names env fieldName _ Hname Hfiles)).
  - unfold files.
    rewrite (proj2 (imageParts_names env fieldName _ Hname Hfiles)).
    f_equal. rewrite length_combine, <- (Forall2_length Hall). lia.
  - unfold fields.
    exact (Permutation_map fieldPart (rangeFields_perm (e_order env) prompt size)).
Qed.

Lemma build_any_number_of_images_witness :
  let env := sampleEnv (Err `"unused") None in
  let paths := [`"bg"; `"a/cat.png"; `"bg"] in
  let datas := [`"BG"; `"DATA"; `"BG"] in
  Forall2 (readable (fs sampleState)) paths datas
  /\ Forall (fun p => plainName (filepath.Base p) = true) paths
  /\ buildMultipartBody env paths `"hi" `"1024x1024" sampleState
     = (Ok (sampleBody3, `"multipart/form-data; boundary=01ab"),
        logged sampleState (map EvOpen paths))
  /\ map fieldNameOf (imageParts env `"image[]" (combine paths datas))
     = [Some `"image[]"; Some `"image[]"; Some `"image[]"].
Proof.
  intros env paths datas.
  assert (Hall : Forall2 (readable (fs sampleState)) paths datas)
    by (repeat constructor).
  assert (Hplain : Forall (fun p => plainName (filepath.Base p) = true) paths)
    by (repeat constructor).
  split; [exact Hall|]. split; [exact Hplain|].
  destruct (build_any_number_of_images env paths datas `"hi" `"1024x1024"
                                       sampleState Hall Hplain)
    as (Hrun & _ & Hnames & _).
  split; [exact Hrun | exact Hnames].
Defined.

(** X7: the build stops at the first path that is not a readable file:
    the images before it were opened, it was opened, the ones after it never
    are; the error names the path and what [os.Open] or the read met (the
    error of the lookup for a path that leads to no file, a file that may
    not be opened, a directory that cannot be read), and the store is
    untouched. *)
Theorem build_stops_at_first_unreadable
        (env : Env) (good datas : list gostring) (bad : gostring)
        (later : list gostring) (prompt size : gostring) (st : State) :
  Forall2 (readable (fs st)) good datas ->
  isRegularFile (fs st) bad = false ->
  buildMultipartBody env (good ++ bad :: later) prompt size st
  = (Err (match fs st bad with
          | None =>
            `"opening image " ++ bad ++ `": open " ++ bad ++ `": "
              ++ match missing (fs st) bad with
                 | Some reason => reason
                 | None => `"no such file or directory"
                 end
          | Some NoAccess =>
            `"opening image " ++ bad ++ `": open " ++ bad
              ++ `": permission denied"
          | _ =>
            `"copying image data for " ++ bad ++ `": read " ++ bad
              ++ `": is a directory"
          end),
     logged st (map EvOpen good ++ [EvOpen bad])).
Proof.
  intros Hall Hbad.
  unfold buildMultipartBody.
  set (fieldName := if 1 <? length (good ++ bad :: later)
                    then `"image[]" else `"image").
  unfold bind at 1.
  rewrite addImageParts_app. unfold bind at 1.
  destruct (addImageParts_run env fieldName good datas
                              (multipart.NewWriter (e_rand env)) st Hall)
    as (w1 & Hrun1 & _).
  rewrite Hrun1.
  cbn [addImageParts]. unfold bind at 1.
  rewrite addImagePart_unreadable_run by exact Hbad.
  rewrite emit_logged, logged_logged.
  f_equal.
Qed.

Lemma build_stops_at_first_unreadable_witness :
  let env := sampleEnv (Err `"unused") None in
  Forall2 (readable (fs sampleState)) [`"bg"] [`"BG"]
  /\ (isRegularFile (fs sampleState) `"a" = false
      /\ isRegularFile (fs sampleState) `"bg/x.png" = false)
  /\ buildMultipartBody env [`"bg"; `"a"; `"a/cat.png"] `"hi" `"1024x1024"
                        sampleState
     = (Err `"copying image data for a: read a: is a directory",
        logged sampleState [EvOpen `"bg"; EvOpen `"a"])
  /\ buildMultipartBody env [`"bg"; `"bg/x.png"; `"a/cat.png"] `"hi" `"1024x1024"
                        sampleState
     = (Err `"opening image bg/x.png: open bg/x.png: not a directory",
        logged sampleState [EvOpen `"bg"; EvOpen `"bg/x.png"]).
Proof.
  intros env.
  assert (Hall : Forall2 (readable (fs sampleState)) [`"bg"] [`"BG"])
    by (repeat constructor).
  split; [exact Hall|]. split; [split; reflexivity|].
  split.
  - exact (build_stops_at_first_unreadable env [`"bg"] [`"BG"] `"a"
                                           [`"a/cat.png"] `"hi" `"1024x1024"
                                           sampleState Hall eq_refl).
  - exact (build_stops_at_first_unreadable env [`"bg"] [`"BG"] `"bg/x.png"
                                           [`"a/cat.png"] `"hi" `"1024x1024"
                                           sampleState Hall eq_refl).
Defined.

(** ** The programs, step by step *)

Lemma MkdirAll_existing env path st :
  fs st path = Some Directory ->
  os_MkdirAll env path st = (Ok tt, logged st [EvMkdirAll path]).
Proof.
  intros H. unfold os_MkdirAll, bind, tell, get_fs. cbn [emit fs].
  now rewrite H.
Qed.

Lemma main_images_readable (f : FS) (bgImage inputImage : gostring)
      (datas : list gostring) :
  Forall2 (readable f) (main_images bgImage inputImage) datas ->
  notExist f inputImage = false
  /\ negb (isEmpty bgImage) && notExist f bgImage = false.
Proof.
  unfold main_images, notExist, readable.
  destruct (isEmpty bgImage); cbn [app negb andb]; intros Hall.
  - inversion Hall as [|? d ? ds Hi _]; subst. now rewrite Hi.
  - inversion Hall as [|? d ? ds Hb Hrest]; subst.
    inversion Hrest as [|? d' ? ds' Hi _]; subst.
    now rewrite Hi, Hb.
Qed.

(** With valid arguments, an existing output directory and a token, [main]
    gets as far as the request. *)
Lemma main_rest_reaches_request
      env host dep api (getToken : M gostring) flags prompt st
      (tk : gostring) (tokenEvents : list Event) (datas : list gostring) :
  isEmpty (flag_i flags) = false ->
  Forall2 (readable (fs st)) (main_images (flag_b flags) (flag_i flags)) datas ->
  fs st (filepath.Dir (deriveOutputPath (flag_i flags))) = Some Directory ->
  (forall st0, getToken st0 = (Ok tk, logged st0 tokenEvents)) ->
  main_rest env host dep api getToken flags prompt st
  = bind (sendRequest env
            (requestFor env host dep api tk
                        (main_images (flag_b flags) (flag_i flags)) datas
                        prompt (flag_s flags)))
         (main_response env (deriveOutputPath (flag_i flags)))
         (logged st
            (EvMkdirAll (filepath.Dir (deriveOutputPath (flag_i flags)))
               :: tokenEvents
               ++ map EvOpen (main_images (flag_b flags) (flag_i flags)))).
Proof.
  intros Hi Hall Hdir Htok.
  destruct (main_images_readable _ _ _ _ Hall) as [Hex Hbg].
  unfold main_rest. rewrite Hi.
  unfold bind at 1. cbn [get_fs]. rewrite Hex, Hbg.
  unfold bind at 1. unfold wrap at 1. rewrite (MkdirAll_existing _ _ _ Hdir).
  unfold bind at 1. unfold wrap at 1. rewrite Htok.
  unfold bind at 1. unfold wrap at 1.
  rewrite (buildMultipartBody_run env _ datas prompt (flag_s flags)) by exact Hall.
  rewrite !logged_logged. cbn [fst snd app].
  reflexivity.
Qed.

Lemma WriteFile_run env name data st :
  writable env (fs st) name data = true ->
  os_WriteFile env name data st
  = (Ok tt, {| fs := fs_update (fs st) name (RegularFile data);
               log := log st ++ [EvWriteFile name data] |}).
Proof.
  unfold writable. rewrite !andb_true_iff. intros (((Hnode & Hopen) & Hcap) & Hclose).
  destruct (e_openw env name) eqn:Ho; [discriminate|].
  destruct (e_close env) eqn:Hc; [discriminate|].
  unfold os_WriteFile, bind, tell, get_fs, emit, ret, fail, put_fs. cbn [fs log].
  replace (match fs st name with
           | Some Directory => Some `"is a directory"
           | Some NoAccess => Some `"permission denied"
           | _ => e_openw env name
           end) with (@None gostring)
    by (destruct (fs st name) as [[]|]; (discriminate || now rewrite Ho)).
  cbn [fs log].
  assert (Hw : match e_wcap env with
               | Some cap => firstn cap data
               | None => data
               end = data).
  { destruct (e_wcap env) as [cap|]; [|reflexivity].
    apply Nat.leb_le in Hcap. now apply firstn_all2. }
  rewrite Hw, Nat.ltb_irrefl, Hc. reflexivity.
Qed.

Lemma sendRequest_answered env req respBytes st :
  e_http env req = ResponseBody respBytes ->
  sendRequest env req st
  = (Ok respBytes, logged st (EvDo req :: map EvRedirect (e_hops env req))).
Proof.
  intros H. unfold sendRequest. rewrite H.
  cbv [bind tell tellAll ret]. now rewrite emit_logged, logged_logged.
Qed.

(** From a good answer to the written image. *)
Lemma main_response_success env outputFile respBytes b64 rest imageBytes st :
  e_unmarshal env respBytes
  = Ok {| Data := {| B64JSON := b64 |} :: rest; Error := None |} ->
  isEmpty b64 = false ->
  base64.DecodeString b64 = Some imageBytes ->
  writable env (fs st) outputFile imageBytes = true ->
  main_response env outputFile respBytes st
  = (Ok tt, {| fs := fs_update (fs st) outputFile (RegularFile imageBytes);
               log := log st ++ [EvWriteFile outputFile imageBytes] |}).
Proof.
  intros Hu Hne Hdec Hw.
  rewrite (main_response_ok _ _ _ _ _ Hu).
  unfold main_decode. cbn [Error Data length Nat.eqb nth_error B64JSON].
  apply DecodeString_Some in Hdec.
  rewrite Hne, Hdec. unfold wrap.
  now rewrite (WriteFile_run _ _ _ _ Hw).
Qed.

Lemma generate_token_run env st0 tk :
  e_credential env = None ->
  e_token env generate.tokenScopes = Ok tk ->
  generate.getAzureToken env st0
  = (Ok tk, logged st0 [EvNewDefaultAzureCredential;
                        EvGetToken generate.tokenScopes]).
Proof.
  intros Hc Ht. rewrite (generate_getAzureToken_ok _ _ _ Hc Ht).
  now rewrite !emit_logged, logged_logged.
Qed.

Lemma root_token_run env st0 run out err :
  e_binary env `"az" = Some run ->
  run root.azArgs = Exited 0 out err ->
  root.getAzureToken env st0
  = (Ok (strings.TrimSpace out), logged st0 [EvExec `"az" root.azArgs]).
Proof.
  intros Hb Hr. unfold root.getAzureToken, bind, tell, ret.
  now rewrite Hb, Hr.
Qed.

(** [cmd/generate] up to [flag.Parse]: the file [.env] is looked for, and
    the run goes on when the three variables are set. *)
Lemma main_config_run env st :
  generate.main_config env st
  = (if configured env (fs st) then Ok (configOf env (fs st))
     else Err generate.notConfigured,
     logged st [EvOpen `".env"]).
Proof.
  unfold generate.main_config, generate.godotenv_Load, configured, configOf,
    loadedVars.
  cbv [bind tell get_fs ret]. cbn [emit fs]. rewrite emit_logged.
  destruct (isEmpty (generate.Getenv env _ `"AZURE_OPENAI_RESOURCE"));
    [reflexivity|].
  destruct (isEmpty (generate.Getenv env _ `"AZURE_OPENAI_DEPLOYMENT"));
    [reflexivity|].
  destruct (isEmpty (generate.Getenv env _ `"AZURE_OPENAI_API_VERSION"));
    reflexivity.
Qed.

Lemma generate_run_config env args st :
  generate.run env args st
  = if configured env (fs st)
    then match flag.Parse args with
         | flag.Parsed flags =>
           generate.main_flags env (configOf env (fs st)) flags ;;; ret ExitDone
         | flag.ErrHelp => ret ExitHelp
         | flag.ParseError msg => ret (ExitFlagError msg)
         end (logged st [EvOpen `".env"])
    else (Err generate.notConfigured, logged st [EvOpen `".env"]).
Proof.
  unfold generate.run. unfold bind at 1. rewrite main_config_run.
  now destruct (configured env (fs st)).
Qed.

(** [cmd/generate] from [flag.Parse] to [main_rest]: the prompt. *)
Lemma main_flags_to_rest env host dep api flags st :
  isEmpty (flag_p flags) = false ->
  match fs st (flag_p flags) with Some NoAccess => false | _ => true end = true ->
  generate.main_flags env (host, dep, api) flags st
  = main_rest env host dep api (generate.getAzureToken env) flags
              (promptOf (fs st) (flag_p flags))
              (logged st (promptEvents (fs st) (flag_p flags))).
Proof.
  intros Hp Hacc.
  unfold generate.main_flags. rewrite Hp.
  unfold bind at 1. cbn [get_fs].
  unfold promptOf, promptEvents.
  destruct (fs st (flag_p flags)) as [[content| |]|];
    try discriminate; unfold bind at 1; cbn [tell ret];
    rewrite ?emit_logged, ?logged_nil; reflexivity.
Qed.



(** ** The run after the request was set up *)

(** X9: when the command line of the root program parses and its
    arguments are accepted, the images are readable, the output directory
    exists and [az] prints a token, the request carries what
    [strings.TrimSpace] leaves of that output; what the transport does then
    decides: a request that cannot be created is not sent, a request that
    fails or whose answer cannot be read ends the run with nothing written,
    and an answer is handed to the response step whatever its HTTP status.
    The redirects the client followed are logged after the request. *)
Theorem root_run_transport
        (env : Env) (args : list gostring) (flags : Flags) (st : State)
        (run : list gostring -> ProcExit) (out err : gostring)
        (datas : list gostring) :
  let images := main_images (flag_b flags) (flag_i flags) in
  let outputFile := deriveOutputPath (flag_i flags) in
  let request :=
    requestFor env root.resourceHost root.deployment root.apiVersion
               (strings.TrimSpace out) images datas
               (flag_p flags) (flag_s flags) in
  let before :=
    logged st (EvMkdirAll (filepath.Dir outputFile)
                 :: EvExec `"az" root.azArgs :: map EvOpen images) in
  let sent :=
    logged before (EvDo request :: map EvRedirect (e_hops env request)) in
  flag.Parse args = flag.Parsed flags ->
  isEmpty (flag_p flags) = false ->
  isEmpty (flag_i flags) = false ->
  Forall2 (readable (fs st)) images datas ->
  fs st (filepath.Dir outputFile) = Some Directory ->
  e_binary env `"az" = Some run ->
  run root.azArgs = Exited 0 out err ->
  root.run env args st
  = match e_http env request with
    | NewRequestError e =>
      (Err (`"Error creating HTTP request: " ++ e), before)
    | DoError e =>
      (Err (`"Error sending request: " ++ e), sent)
    | ReadAllError e =>
      (Err (`"Error reading response: " ++ e), sent)
    | ResponseBody respBytes =>
      (main_response env outputFile respBytes ;;; ret ExitDone) sent
    end.
Proof.
  intros images outputFile request before sent Hargs Hp Hi Hall Hdir Hb Hr.
  unfold root.run. rewrite Hargs. unfold root.main. rewrite Hp.
  unfold bind at 1.
  rewrite (main_rest_reaches_request
             env _ _ _ (root.getAzureToken env) flags _ st
             (strings.TrimSpace out) [EvExec `"az" root.azArgs]
             datas Hi Hall Hdir
             (fun st0 => root_token_run env st0 run out err Hb Hr)).
  fold images outputFile request. cbn [app]. fold before.
  unfold bind at 2. unfold sendRequest.
  destruct (e_http env request); cbv [bind tell tellAll fail ret];
    rewrite ?emit_logged, ?logged_logged; reflexivity.
Qed.

Lemma root_run_transport_witness :
  let env := withTransport sampleAzEnv
                           (fun _ => DoError `"dial tcp: i/o timeout") in
  let args := [`"-p"; `"hi"; `"-i"; `"a/cat.png"; `"-b"; `"bg"] in
  let request :=
    requestFor env root.resourceHost root.deployment root.apiVersion
               `"eyJ0eXAi" [`"bg"; `"a/cat.png"] [`"BG"; `"DATA"]
               `"hi" `"1024x1024" in
  flag.Parse args = flag.Parsed sampleFlags
  /\ root.run env args sampleState
     = (Err `"Error sending request: dial tcp: i/o timeout",
        {| fs := sampleFS;
           log := [EvMkdirAll `"a"; EvExec `"az" root.azArgs;
                   EvOpen `"bg"; EvOpen `"a/cat.png"; EvDo request] |}).
Proof.
  intros env args request. split; [reflexivity|].
  apply (root_run_transport
           env args sampleFlags sampleState
           (fun _ => Exited 0 (`"eyJ0eXAi" ++ ["010"]) [])
           (`"eyJ0eXAi" ++ ["010"]) [] [`"BG"; `"DATA"]);
    try reflexivity.
  repeat constructor.
Defined.

(** ** Requests and writes of a run *)

Section SendsOnce.

Variable env : Env.
Variables url out : gostring.

Lemma sendsOnceThenWrites_fail {A} (done : A) (msg : gostring) :
  sendsOnceThenWrites env url out done (fail msg).
Proof.
  intros st. exists []. rewrite app_nil_r. split; [reflexivity|].
  left. split; [reflexivity | discriminate].
Qed.

Lemma sendsOnceThenWrites_ret {A} (done a : A) :
  a <> done -> sendsOnceThenWrites env url out done (ret a).
Proof.
  intros Hne st. exists []. rewrite app_nil_r. split; [reflexivity|].
  left. split; [reflexivity|]. cbn. intros H. injection H as H. contradiction.
Qed.

Lemma sendsOnceThenWritesAt_bind {A B} (done : B) (m : M A) (k : A -> M B) st :
  silent isSendOrWrite m ->
  (forall a st1, m st = (Ok a, st1) ->
                 sendsOnceThenWritesAt env url out done (k a) st1) ->
  sendsOnceThenWritesAt env url out done (bind m k) st.
Proof.
  intros Hm Hk. unfold sendsOnceThenWritesAt, bind.
  destruct (Hm st) as (evs & Hlog & Hf).
  destruct (m st) as [[a | e] st1]; simpl in Hlog.
  - destruct (Hk a st1 eq_refl) as (evs' & Hlog' & Hshape).
    exists (evs ++ evs'). split.
    + now rewrite Hlog', Hlog, app_assoc.
    + rewrite filter_app, Hf. exact Hshape.
  - exists evs. split; [exact Hlog|]. rewrite Hf.
    left. split; [reflexivity | discriminate].
Qed.

Lemma sendsOnceThenWrites_bind {A B} (done : B) (m : M A) (k : A -> M B) :
  silent isSendOrWrite m ->
  (forall a, sendsOnceThenWrites env url out done (k a)) ->
  sendsOnceThenWrites env url out done (bind m k).
Proof.
  intros Hm Hk st. apply sendsOnceThenWritesAt_bind; [exact Hm|].
  intros a st1 _. apply Hk.
Qed.

(** What comes after the write is the end of [main]. *)
Lemma sendsOnceThenWrites_then_done (m : M unit) :
  sendsOnceThenWrites env url out tt m ->
  sendsOnceThenWrites env url out ExitDone (m ;;; ret ExitDone).
Proof.
  intros Hm st. unfold sendsOnceThenWritesAt, bind, ret.
  destruct (Hm st) as (evs & Hlog & Hcase).
  destruct (m st) as [[[] | e] st1]; cbn [fst snd] in *;
    exists evs; (split; [exact Hlog|]).
  - destruct Hcase as [(Hf & Hne) | (req & Hurl & [(Hf & Hne) | (data & Hf & Hok)])];
      try (now contradiction Hne).
    right. exists req. split; [exact Hurl|]. right. exists data.
    split; [exact Hf | intros _; now apply Hok].
  - destruct Hcase as [(Hf & Hne) | (req & Hurl & [(Hf & Hne) | (data & Hf & Hok)])].
    + left. split; [exact Hf | discriminate].
    + right. exists req. split; [exact Hurl|]. left.
      split; [exact Hf | discriminate].
    + right. exists req. split; [exact Hurl|]. right. exists data.
      split; [exact Hf | discriminate].
Qed.

End SendsOnce.

(** The response step fails without a write, or writes once. *)
Lemma main_response_cases env outputFile respBytes st :
  (exists msg, main_response env outputFile respBytes st = (Err msg, st))
  \/ (exists data,
         log (snd (main_response env outputFile respBytes st))
         = log st ++ [EvWriteFile outputFile data]
         /\ (fst (main_response env outputFile respBytes st) = Ok tt ->
             fs (snd (main_response env outputFile respBytes st)) outputFile
             = Some (RegularFile data))).
Proof.
  destruct (e_unmarshal env respBytes) as [envelope | e] eqn:Hu.
  - rewrite (main_response_ok _ _ _ _ _ Hu).
    destruct (main_decode envelope) as [imageBytes | msg].
    + right. exists imageBytes. unfold wrap.
      pose proof (WriteFile_log env outputFile imageBytes st) as Hl.
      pose proof (WriteFile_ok_content env outputFile imageBytes st) as Hc.
      destruct (os_WriteFile env outputFile imageBytes st) as [[[] | e] st1];
        cbn [fst snd] in *.
      * split; [exact Hl | intros _; now apply Hc].
      * split; [exact Hl | discriminate].
    + left. now exists msg.
  - rewrite (main_response_parse_error _ _ _ _ _ Hu). left. eexists; reflexivity.
Qed.

Lemma filter_redirects (l : list Request) :
  filter isSendOrWrite (map EvRedirect l) = map EvRedirect l.
Proof. induction l as [|r l IH]; [reflexivity|]. cbn. now rewrite IH. Qed.

(** The request and the response step, by what the transport does. *)
Lemma sendRequest_then_response env req out st :
  bind (sendRequest env req) (main_response env out) st
  = match e_http env req with
    | NewRequestError e => (Err (`"Error creating HTTP request: " ++ e), st)
    | DoError e =>
      (Err (`"Error sending request: " ++ e),
       logged st (EvDo req :: map EvRedirect (e_hops env req)))
    | ReadAllError e =>
      (Err (`"Error reading response: " ++ e),
       logged st (EvDo req :: map EvRedirect (e_hops env req)))
    | ResponseBody respBytes =>
      main_response env out respBytes
                    (logged st (EvDo req :: map EvRedirect (e_hops env req)))
    end.
Proof.
  unfold sendRequest.
  destruct (e_http env req); cbv [bind tell tellAll fail ret];
    rewrite ?emit_logged, ?logged_logged; reflexivity.
Qed.

Lemma sendsOnceThenWrites_request env req out :
  sendsOnceThenWrites env (req_url req) out tt
    (bind (sendRequest env req) (main_response env out)).
Proof.
  intros st. unfold sendsOnceThenWritesAt.
  rewrite sendRequest_then_response.
  set (sent := EvDo req :: map EvRedirect (e_hops env req)).
  assert (Hsent : filter isSendOrWrite sent = sent)
    by (unfold sent; cbn; now rewrite filter_redirects).
  destruct (e_http env req) as [e | e | e | respBytes].
  - exists []. rewrite app_nil_r. split; [reflexivity|].
    left. split; [reflexivity | discriminate].
  - exists sent. split; [reflexivity|].
    right. exists req. split; [reflexivity|]. left.
    split; [exact Hsent | discriminate].
  - exists sent. split; [reflexivity|].
    right. exists req. split; [reflexivity|]. left.
    split; [exact Hsent | discriminate].
  - destruct (main_response_cases env out respBytes (logged st sent))
      as [(msg & ->) | (data & Hlog & Hok)].
    + exists sent. split; [reflexivity|].
      right. exists req. split; [reflexivity|]. left.
      split; [exact Hsent | discriminate].
    + exists (sent ++ [EvWriteFile out data]). split.
      * rewrite Hlog. cbn [logged log]. now rewrite <- app_assoc.
      * right. exists req. split; [reflexivity|]. right. exists data.
        split; [|exact Hok].
        rewrite filter_app, Hsent. reflexivity.
Qed.

Lemma sendsOnceThenWrites_main_rest env host dep api (getToken : M gostring)
      flags prompt :
  silent isSendOrWrite getToken ->
  sendsOnceThenWrites env (endpointURL host dep api)
    (deriveOutputPath (flag_i flags)) tt
    (main_rest env host dep api getToken flags prompt).
Proof.
  intros Htok. unfold main_rest.
  destruct (isEmpty (flag_i flags)); [apply sendsOnceThenWrites_fail|].
  apply sendsOnceThenWrites_bind; [apply silent_get_fs | intros f].
  destruct (notExist f (flag_i flags)); [apply sendsOnceThenWrites_fail|].
  destruct (_ && _); [apply sendsOnceThenWrites_fail|].
  apply sendsOnceThenWrites_bind;
    [apply silent_wrap, silent_MkdirAll; reflexivity | intros _].
  apply sendsOnceThenWrites_bind; [apply silent_wrap, Htok | intros token].
  apply sendsOnceThenWrites_bind;
    [apply silent_wrap, silent_buildMultipartBody; reflexivity | intros bc].
  exact (sendsOnceThenWrites_request
           env {| req_url := endpointURL host dep api;
                  req_authorization := `"Bearer " ++ token;
                  req_contentType := snd bc;
                  req_body := fst bc |} _).
Qed.

Lemma silent_root_getAzureToken (P : Event -> bool) env :
  (forall name args, P (EvExec name args) = false) ->
  silent P (root.getAzureToken env).
Proof. intros HP. unfold root.getAzureToken. silent_cases. Qed.

Lemma silent_generate_getAzureToken (P : Event -> bool) env :
  P EvNewDefaultAzureCredential = false ->
  (forall scopes, P (EvGetToken scopes) = false) ->
  silent P (generate.getAzureToken env).
Proof. intros H1 H2. unfold generate.getAzureToken. silent_cases. Qed.

Lemma sendsOnceThenWrites_main_flags env host dep api flags :
  sendsOnceThenWrites env (endpointURL host dep api)
    (deriveOutputPath (flag_i flags)) tt
    (generate.main_flags env (host, dep, api) flags).
Proof.
  unfold generate.main_flags.
  destruct (isEmpty (flag_p flags)); [apply sendsOnceThenWrites_fail|].
  apply sendsOnceThenWrites_bind; [apply silent_get_fs | intros f].
  apply sendsOnceThenWrites_bind; [silent_cases | intros prompt].
  apply sendsOnceThenWrites_main_rest, silent_generate_getAzureToken;
    reflexivity.
Qed.


(** ** What a run leaves in the store *)

Lemma readsOnly_ret {A} (a : A) : readsOnly (ret a).
Proof. now intros st. Qed.

Lemma readsOnly_fail {A} (msg : gostring) : readsOnly (@fail A msg).
Proof. now intros st. Qed.

Lemma readsOnly_lift {A} (r : Result A) : readsOnly (lift r).
Proof. now intros st. Qed.

Lemma readsOnly_get_fs : readsOnly get_fs.
Proof. now intros st. Qed.

Lemma readsOnly_tell (e : Event) : readsOnly (tell e).
Proof. now intros st. Qed.

Lemma readsOnly_tellAll (evs : list Event) : readsOnly (tellAll evs).
Proof. now intros st. Qed.

Lemma readsOnly_bind {A B} (m : M A) (k : A -> M B) :
  readsOnly m -> (forall a, readsOnly (k a)) -> readsOnly (bind m k).
Proof.
  intros Hm Hk st. unfold bind. pose proof (Hm st) as H.
  destruct (m st) as [[a | e] st1]; cbn [snd] in *; [|exact H].
  now rewrite Hk.
Qed.

Lemma readsOnly_wrap {A} (prefix : gostring) (m : M A) :
  readsOnly m -> readsOnly (wrap prefix m).
Proof.
  intros Hm st. unfold wrap. pose proof (Hm st) as H.
  destruct (m st) as [[a | e] st1]; exact H.
Qed.

Ltac readsOnly_cases :=
  repeat first
    [ apply readsOnly_ret | apply readsOnly_fail | apply readsOnly_lift
    | apply readsOnly_get_fs | apply readsOnly_tell | apply readsOnly_tellAll
    | apply readsOnly_wrap
    | apply readsOnly_bind; [|intros ?]
    | match goal with
      | |- readsOnly (match ?x with _ => _ end) => destruct x
      | |- readsOnly (if ?b then _ else _) => destruct b
      end ].

Lemma readsOnly_addImagePart env w fieldName imagePath :
  readsOnly (addImagePart env w fieldName imagePath).
Proof.
  unfold addImagePart, multipart.CreatePart, multipart.Write. readsOnly_cases.
Qed.

Lemma readsOnly_addImageParts env fieldName imagePaths :
  forall w, readsOnly (addImageParts env w fieldName imagePaths).
Proof.
  induction imagePaths as [|p rest IH]; intros w; cbn [addImageParts].
  - apply readsOnly_ret.
  - apply readsOnly_bind; [apply readsOnly_addImagePart | intros w'; apply IH].
Qed.

Lemma readsOnly_buildMultipartBody env imagePaths prompt size :
  readsOnly (buildMultipartBody env imagePaths prompt size).
Proof.
  unfold buildMultipartBody.
  apply readsOnly_bind; [apply readsOnly_addImageParts | intros w1].
  readsOnly_cases.
Qed.

Lemma readsOnly_root_getAzureToken env : readsOnly (root.getAzureToken env).
Proof. unfold root.getAzureToken. readsOnly_cases. Qed.

Lemma readsOnly_generate_getAzureToken env :
  readsOnly (generate.getAzureToken env).
Proof. unfold generate.getAzureToken. readsOnly_cases. Qed.

Lemma readsOnly_sendRequest env req : readsOnly (sendRequest env req).
Proof. unfold sendRequest. readsOnly_cases. Qed.

Lemma readsOnly_main_config env : readsOnly (generate.main_config env).
Proof.
  unfold generate.main_config, generate.godotenv_Load. readsOnly_cases.
Qed.

Section PreservesExcept.

Variable target : gostring.

Lemma preservesExcept_readsOnly {A} (m : M A) :
  readsOnly m -> preservesExcept target m.
Proof.
  intros Hm st. split; [now rewrite Hm | intros p _ _; now rewrite Hm].
Qed.

Lemma preservesExcept_bind {A B} (m : M A) (k : A -> M B) :
  preservesExcept target m ->
  (forall a, preservesExcept target (k a)) ->
  preservesExcept target (bind m k).
Proof.
  intros Hm Hk st. unfold bind.
  destruct (Hm st) as [Hc H].
  destruct (m st) as [[a | e] st1]; cbn [snd] in *; [|now split].
  destruct (Hk a st1) as [Hc1 H1].
  split; [now rewrite Hc1|].
  intros p Hp Hex.
  rewrite H1; [now apply H | | rewrite (H p Hp Hex); exact Hex].
  unfold sameFile in *. now rewrite Hc.
Qed.

Lemma preservesExcept_wrap {A} (prefix : gostring) (m : M A) :
  preservesExcept target m -> preservesExcept target (wrap prefix m).
Proof.
  intros Hm st. unfold wrap. pose proof (Hm st) as H.
  destruct (m st) as [[a | e] st1]; exact H.
Qed.

(** [os.MkdirAll] adds a node where there was none. *)
Lemma preservesExcept_MkdirAll env path :
  preservesExcept target (os_MkdirAll env path).
Proof.
  intros st.
  unfold os_MkdirAll, bind, tell, get_fs, emit, ret, fail, put_fs. cbn [fs log].
  destruct (fs st path) as [[]|] eqn:Hpath; try (split; [reflexivity | auto]).
  destruct (e_mkdir env path); [split; [reflexivity | auto]|]. cbn [snd fs].
  split; [reflexivity|].
  intros p _ Hex. rewrite lookup_update.
  destruct (bytes_eqb (canon (fs st) p) (canon (fs st) path)) eqn:E;
    [|reflexivity].
  apply bytes_eqb_eq in E. destruct Hex.
  unfold lookup in *. now rewrite E.
Qed.

End PreservesExcept.

(** [os.WriteFile] changes the file it is given, under all its names. *)
Lemma preservesExcept_WriteFile env name data :
  preservesExcept name (os_WriteFile env name data).
Proof.
  intros st.
  unfold os_WriteFile, bind, tell, get_fs, emit, ret, fail, put_fs. cbn [fs log].
  destruct (match fs st name with
            | Some Directory => _ | Some NoAccess => _ | _ => _ end);
    [split; [reflexivity | auto]|].
  cbn [fs log].
  assert (Hu : forall n p, ~ sameFile (fs st) p name ->
                           fs_update (fs st) name n p = fs st p)
    by (intros n p Hp; now apply fs_update_other).
  destruct (_ <? _); [split; [reflexivity | intros p Hp _; now apply Hu]|].
  destruct (e_close env); (split; [reflexivity | intros p Hp _; now apply Hu]).
Qed.

Lemma preservesExcept_main_response env outputFile respBytes :
  preservesExcept outputFile (main_response env outputFile respBytes).
Proof.
  unfold main_response.
  apply preservesExcept_bind;
    [apply preservesExcept_readsOnly; readsOnly_cases | intros envelope].
  apply preservesExcept_bind;
    [apply preservesExcept_readsOnly, readsOnly_lift | intros imageBytes].
  apply preservesExcept_wrap, preservesExcept_WriteFile.
Qed.

Lemma preservesExcept_main_rest env host dep api (getToken : M gostring)
      flags prompt :
  readsOnly getToken ->
  preservesExcept (deriveOutputPath (flag_i flags))
                  (main_rest env host dep api getToken flags prompt).
Proof.
  intros Htok. unfold main_rest.
  destruct (isEmpty (flag_i flags));
    [apply preservesExcept_readsOnly, readsOnly_fail|].
  apply preservesExcept_bind;
    [apply preservesExcept_readsOnly, readsOnly_get_fs | intros f].
  destruct (notExist f (flag_i flags));
    [apply preservesExcept_readsOnly, readsOnly_fail|].
  destruct (_ && _); [apply preservesExcept_readsOnly, readsOnly_fail|].
  apply preservesExcept_bind;
    [apply preservesExcept_wrap, preservesExcept_MkdirAll | intros _].
  apply preservesExcept_bind;
    [apply preservesExcept_readsOnly, readsOnly_wrap, Htok | intros token].
  apply preservesExcept_bind;
    [apply preservesExcept_readsOnly, readsOnly_wrap,
       readsOnly_buildMultipartBody
    | intros bc].
  apply preservesExcept_bind;
    [apply preservesExcept_readsOnly, readsOnly_sendRequest | intros respBytes].
  apply preservesExcept_main_response.
Qed.

Lemma preservesExcept_root_run env args :
  preservesExcept (outputOf args) (root.run env args).
Proof.
  unfold root.run, outputOf, parsedFlags.
  destruct (flag.Parse args) as [flags | | msg];
    [|apply preservesExcept_readsOnly, readsOnly_ret..].
  apply preservesExcept_bind;
    [|intros _; apply preservesExcept_readsOnly, readsOnly_ret].
  unfold root.main.
  destruct (isEmpty (flag_p flags));
    [apply preservesExcept_readsOnly, readsOnly_fail|].
  apply preservesExcept_main_rest, readsOnly_root_getAzureToken.
Qed.

Lemma preservesExcept_generate_run env args :
  preservesExcept (outputOf args) (generate.run env args).
Proof.
  unfold generate.run, outputOf, parsedFlags.
  apply preservesExcept_bind;
    [apply preservesExcept_readsOnly, readsOnly_main_config
    | intros [[host dep] api]].
  destruct (flag.Parse args) as [flags | | msg];
    [|apply preservesExcept_readsOnly, readsOnly_ret..].
  apply preservesExcept_bind;
    [|intros _; apply preservesExcept_readsOnly, readsOnly_ret].
  unfold generate.main_flags.
  destruct (isEmpty (flag_p flags));
    [apply preservesExcept_readsOnly, readsOnly_fail|].
  apply preservesExcept_bind;
    [apply preservesExcept_readsOnly, readsOnly_get_fs | intros f].
  apply preservesExcept_bind;
    [apply preservesExcept_readsOnly; readsOnly_cases | intros prompt].
  apply preservesExcept_main_rest, readsOnly_generate_getAzureToken.
Qed.



(** ** Runs that are turned down *)

Lemma main_rest_rejected env host dep api (getToken : M gostring) flags prompt st :
  negb (isEmpty (flag_i flags))
  && negb (notExist (fs st) (flag_i flags))
  && (isEmpty (flag_b flags) || negb (notExist (fs st) (flag_b flags))) = false ->
  exists msg,
    main_rest env host dep api getToken flags prompt st = (Err msg, st).
Proof.
  unfold main_rest, bind, get_fs.
  destruct (isEmpty (flag_i flags)); [intros _; eexists; reflexivity|].
  destruct (notExist (fs st) (flag_i flags)); [intros _; eexists; reflexivity|].
  destruct (isEmpty (flag_b flags)); cbn [negb andb orb]; [discriminate|].
  destruct (notExist (fs st) (flag_b flags)); [intros _; eexists; reflexivity|].
  discriminate.
Qed.

Lemma main_flags_rejected env host dep api flags st :
  argumentsAccepted (fs st) flags = false ->
  exists msg,
    generate.main_flags env (host, dep, api) flags st
    = (Err msg,
       logged st (if isEmpty (flag_p flags) then []
                  else promptEvents (fs st) (flag_p flags))).
Proof.
  unfold argumentsAccepted, generate.main_flags, promptEvents.
  destruct (isEmpty (flag_p flags));
    [intros _; eexists; cbn; now rewrite logged_nil|].
  cbn [negb andb]. intros Hrej.
  unfold bind at 1. cbn [get_fs].
  assert (Hrest : forall prompt evs,
             exists msg,
               main_rest env host dep api (generate.getAzureToken env)
                         flags prompt (logged st evs)
               = (Err msg, logged st evs)).
  { intros prompt evs.
    apply (main_rest_rejected env host dep api (generate.getAzureToken env)
                              flags prompt (logged st evs)).
    exact Hrej. }
  destruct (fs st (flag_p flags)) as [[content| |]|]; unfold bind at 1.
  - exact (Hrest content [EvReadFile (flag_p flags)]).
  - destruct (Hrest (flag_p flags) []) as [msg Hm].
    rewrite logged_nil in *. now exists msg.
  - eexists; reflexivity.
  - destruct (Hrest (flag_p flags) []) as [msg Hm].
    rewrite logged_nil in *. now exists msg.
Qed.

(** X12: the root program does nothing at all (no directory is made, no
    token is asked for, nothing is sent or written) in a run that
    [flag.Parse] ends, for [-h] or for a command line it refuses, and in a
    run it turns down itself: the prompt or the input image is not given,
    or the input or the background image is reported as not existing. *)
Theorem root_run_rejected_without_effect
        (env : Env) (args : list gostring) (st : State) :
  (flag.Parse args = flag.ErrHelp ->
   root.run env args st = (Ok ExitHelp, st))
  /\ (forall msg, flag.Parse args = flag.ParseError msg ->
                  root.run env args st = (Ok (ExitFlagError msg), st))
  /\ (forall flags, flag.Parse args = flag.Parsed flags ->
                    argumentsAccepted (fs st) flags = false ->
                    exists msg, root.run env args st = (Err msg, st)).
Proof.
  unfold root.run.
  split; [now intros ->|]. split; [now intros msg ->|].
  intros flags -> Hrej.
  unfold argumentsAccepted in Hrej. unfold root.main, bind.
  destruct (isEmpty (flag_p flags)); [eexists; reflexivity|].
  cbn [negb andb] in Hrej.
  destruct (main_rest_rejected env root.resourceHost root.deployment
                               root.apiVersion (root.getAzureToken env)
                               flags (flag_p flags) st Hrej) as [msg ->].
  now exists msg.
Qed.

Lemma root_run_rejected_without_effect_witness :
  let flags := {| flag_p := `"hi"; flag_i := `"a/cat.png";
                  flag_b := `"missing.png"; flag_s := `"1024x1024" |} in
  (flag.Parse [`"-h"] = flag.ErrHelp
   /\ root.run sampleAzEnv [`"-h"] sampleState = (Ok ExitHelp, sampleState))
  /\ (flag.Parse [`"-x"; `"1"]
      = flag.ParseError `"flag provided but not defined: -x"
      /\ root.run sampleAzEnv [`"-x"; `"1"] sampleState
         = (Ok (ExitFlagError `"flag provided but not defined: -x"), sampleState))
  /\ (flag.Parse [`"-p"; `"hi"; `"-i=a/cat.png"; `"--b"; `"missing.png"]
      = flag.Parsed flags
      /\ argumentsAccepted sampleFS flags = false
      /\ exists msg,
          root.run sampleAzEnv
                   [`"-p"; `"hi"; `"-i=a/cat.png"; `"--b"; `"missing.png"]
                   sampleState
          = (Err msg, sampleState))
  /\ (notExist sampleFS `"bg/x.png" = false
      /\ root.run sampleAzEnv [`"-p"; `"hi"; `"-i"; `"bg/x.png"] sampleState
         = (Err `"Error creating output directory: mkdir bg: not a directory",
            logged sampleState [EvMkdirAll `"bg"])).
Proof.
  intros flags.
  destruct (root_run_rejected_without_effect sampleAzEnv [`"-h"] sampleState)
    as (Hhelp & _ & _).
  destruct (root_run_rejected_without_effect sampleAzEnv [`"-x"; `"1"]
                                             sampleState)
    as (_ & Hbad & _).
  destruct (root_run_rejected_without_effect
              sampleAzEnv
              [`"-p"; `"hi"; `"-i=a/cat.png"; `"--b"; `"missing.png"]
              sampleState)
    as (_ & _ & Hrej).
  split; [split; [reflexivity | exact (Hhelp eq_refl)]|].
  split; [split; [reflexivity | exact (Hbad _ eq_refl)]|].
  split; [|split; reflexivity].
  split; [reflexivity|]. split; [reflexivity|].
  exact (Hrej flags eq_refl eq_refl).
Defined.

(** X13: [cmd/generate] looks for [.env] in every run.  A run without the
    three variables of the endpoint is turned down before the command line
    is looked at; with them, a run that [flag.Parse] ends, for [-h] or for
    a command line it refuses, does nothing more; and a run whose arguments
    are not accepted is turned down after the prompt file was read, if the
    prompt names one.  In none of them is a directory made, a token asked
    for, or anything sent or written. *)
Theorem generate_run_rejected_reads_only
        (env : Env) (args : list gostring) (st : State) :
  (configured env (fs st) = false ->
   generate.run env args st
   = (Err generate.notConfigured, logged st [EvOpen `".env"]))
  /\ (configured env (fs st) = true ->
      (flag.Parse args = flag.ErrHelp ->
       generate.run env args st = (Ok ExitHelp, logged st [EvOpen `".env"]))
      /\ (forall msg,
             flag.Parse args = flag.ParseError msg ->
             generate.run env args st
             = (Ok (ExitFlagError msg), logged st [EvOpen `".env"]))
      /\ (forall flags,
             flag.Parse args = flag.Parsed flags ->
             argumentsAccepted (fs st) flags = false ->
             exists msg,
               generate.run env args st
               = (Err msg,
                  logged st (EvOpen `".env"
                               :: if isEmpty (flag_p flags) then []
                                  else promptEvents (fs st) (flag_p flags))))).
Proof.
  rewrite generate_run_config.
  split; [now intros ->|]. intros ->.
  split; [now intros ->|]. split; [now intros msg ->|].
  intros flags -> Hrej.
  destruct (configOf env (fs st)) as [[host dep] api].
  destruct (main_flags_rejected env host dep api flags
                                (logged st [EvOpen `".env"]) Hrej)
    as [msg Hm].
  exists msg. unfold bind. rewrite Hm.
  now rewrite logged_logged.
Qed.

Lemma generate_run_rejected_reads_only_witness :
  let env := sampleEnv (Ok sampleAnswer) None in
  let flags := {| flag_p := `"bg"; flag_i := [];
                  flag_b := []; flag_s := `"1024x1024" |} in
  configured env sampleFS = true
  /\ generate.run env [`"-help"] sampleState
     = (Ok ExitHelp, {| fs := sampleFS; log := [EvOpen `".env"] |})
  /\ (flag.Parse [`"-p"; `"bg"] = flag.Parsed flags
      /\ argumentsAccepted sampleFS flags = false
      /\ exists msg,
          generate.run env [`"-p"; `"bg"] sampleState
          = (Err msg, {| fs := sampleFS;
                         log := [EvOpen `".env"; EvReadFile `"bg"] |})).
Proof.
  intros env flags.
  destruct (generate_run_rejected_reads_only env [`"-help"] sampleState)
    as (_ & Hhelp).
  destruct (generate_run_rejected_reads_only env [`"-p"; `"bg"] sampleState)
    as (_ & Hrej).
  split; [reflexivity|].
  split; [exact (proj1 (Hhelp eq_refl) eq_refl)|].
  split; [reflexivity|]. split; [reflexivity|].
  exact (proj2 (proj2 (Hrej eq_refl)) flags eq_refl eq_refl).
Defined.

(** ** The envelope *)

(** X14: the decoding step reads the first element of [data] and no other,
    and it never indexes an empty slice: the run-time panic is not among its
    outcomes. *)
Theorem main_decode_reads_first_datum (result : imageEditResponse) :
  main_decode result <> Err indexPanicMessage
  /\ main_decode result
     = main_decode {| Data := firstn 1 (Data result); Error := Error result |}.
Proof.
  destruct result as [data err]. unfold main_decode.
  cbn [Error Data].
  destruct err as [e|]; [split; [discriminate | reflexivity]|].
  destruct data as [|d rest]; [split; [discriminate | reflexivity]|].
  cbn [firstn length Nat.eqb nth_error].
  split; [|reflexivity].
  destruct (isEmpty (B64JSON d)); [discriminate|].
  destruct (base64.Decode (B64JSON d)); discriminate.
Qed.

(** ** The size of the decoded image *)

Section PayloadQuanta.

Import base64.

Lemma decodeMap_notNewline (c : ascii) (out : N) :
  decodeMap c = Some out -> notNewline c = true.
Proof.
  intros H. unfold notNewline. destruct (isNewline c) eqn:E; [|reflexivity].
  rewrite (decodeMap_newline c E) in H. discriminate.
Qed.

Lemma filter_dropWhile_newline (l : gostring) :
  filter notNewline (dropWhile isNewline l) = filter notNewline l.
Proof.
  induction l as [|c l IH]; [reflexivity|].
  cbn [dropWhile]. destruct (isNewline c) eqn:E; [|reflexivity].
  rewrite IH. cbn [filter]. unfold notNewline at 2. now rewrite E.
Qed.

Lemma dropWhile_newline_head (l : gostring) (p : ascii) (r : gostring) :
  dropWhile isNewline l = p :: r -> notNewline p = true.
Proof.
  induction l as [|c l IH]; [discriminate|].
  cbn [dropWhile]. destruct (isNewline c) eqn:E; [exact IH|].
  intros H. injection H as <- _. unfold notNewline. now rewrite E.
Qed.

Lemma isEmpty_nil (l : gostring) : isEmpty l = true -> l = [].
Proof. now destruct l. Qed.

Lemma Some_eq {A} (x y : A) : Some x = Some y -> x = y.
Proof. congruence. Qed.

Lemma quantum_bytes_length (dlen : nat) (dbuf : list N) :
  length (quantum_bytes dlen dbuf) = Nat.min (dlen - 1) 3.
Proof. unfold quantum_bytes. now rewrite length_firstn. Qed.

(** The bytes that are not line breaks come in groups of four, each group
    giving three bytes, the last one one to three. *)
Lemma Decode_loop_quanta :
  forall src si j dbuf b,
    j < 4 ->
    Decode_loop src si j dbuf = Decoded b ->
    exists k,
      j + length (filter notNewline src) = 4 * k
      /\ length b <= 3 * k
      /\ 3 * k <= length b + 2.
Proof.
  induction src as [|c rest IH]; intros si j dbuf b Hj; cbn [Decode_loop];
    cbv zeta.
  - destruct j; [|discriminate]. intros H. injection H as <-.
    exists 0. cbn. lia.
  - destruct (decodeMap c) as [out|] eqn:Hc.
    + cbn [filter]. rewrite (decodeMap_notNewline c out Hc). cbn [length].
      destruct (j =? 3) eqn:E.
      * apply Nat.eqb_eq in E. subst j.
        destruct (Decode_loop rest (S si) 0 []) as [tl|] eqn:Htl; [|discriminate].
        intros H. assert (b = quantum_bytes 4 (dbuf ++ [out]) ++ tl) as ->
            by congruence.
        destruct (IH (S si) 0 [] tl ltac:(lia) Htl) as (k & Hk & Hle & Hge).
        exists (S k). rewrite length_app, quantum_bytes_length. cbn [Nat.min Nat.sub].
        lia.
      * apply Nat.eqb_neq in E. intros H.
        destruct (IH (S si) (S j) _ b ltac:(lia) H) as (k & Hk & Hle & Hge).
        exists k. lia.
    + cbn [filter]. unfold notNewline at 1.
      destruct (isNewline c); cbn [negb]; [now apply IH|].
      destruct (Ascii.eqb c padChar); cbn [negb]; [|discriminate].
      cbn [length].
      destruct j as [|[|[|[|j]]]]; try discriminate; [| |lia].
      * destruct (dropWhile isNewline rest) as [|p rest2] eqn:Hd; [discriminate|].
        destruct (Ascii.eqb p padChar); cbn [negb]; [|discriminate].
        destruct (isEmpty (dropWhile isNewline rest2)) eqn:He; [|discriminate].
        intros H. assert (b = quantum_bytes 2 dbuf) as -> by congruence.
        rewrite isEmpty_dropWhile_newline in He. apply isEmpty_nil in He.
        rewrite <- (filter_dropWhile_newline rest), Hd. cbn [filter].
        rewrite (dropWhile_newline_head rest p rest2 Hd), He.
        exists 1. rewrite quantum_bytes_length. cbn. lia.
      * destruct (isEmpty (dropWhile isNewline rest)) eqn:He; [|discriminate].
        intros H. assert (b = quantum_bytes 3 dbuf) as -> by congruence.
        rewrite isEmpty_dropWhile_newline in He. apply isEmpty_nil in He.
        rewrite He. exists 1. rewrite quantum_bytes_length. cbn. lia.
Qed.

End PayloadQuanta.

(** X15: when the first payload decodes, its bytes other than line breaks
    come in groups of four (a payload without its padding is turned down),
    and the image has three bytes for each group, less at most two. *)
Theorem decoded_image_size
        (s imageBytes : gostring) (rest : list imageDatum) :
  main_decode {| Data := {| B64JSON := s |} :: rest; Error := None |}
  = Ok imageBytes ->
  exists groups,
    length (filter notNewline s) = 4 * groups
    /\ length imageBytes <= 3 * groups
    /\ 3 * groups <= length imageBytes + 2.
Proof.
  unfold main_decode. cbn [Error Data length Nat.eqb nth_error B64JSON].
  destruct (isEmpty s); [discriminate|].
  destruct (base64.Decode s) as [b|] eqn:Hd; [|discriminate].
  intros H. assert (b = imageBytes) as <- by congruence.
  exact (Decode_loop_quanta s 0 0 [] b ltac:(lia) Hd).
Qed.

Lemma decoded_image_size_witness :
  main_decode sampleAnswer = Ok `"Hello, world!!"
  /\ (exists groups,
         length (filter notNewline `"SGVsbG8sIHdvcmxkISE=") = 4 * groups
         /\ length `"Hello, world!!" <= 3 * groups
         /\ 3 * groups <= length `"Hello, world!!" + 2)
  /\ main_decode {| Data := [ {| B64JSON := `"SGVsbG8sIHdvcmxkISE" |} ];
                    Error := None |}
     = Err `"Error decoding base64 image: illegal base64 data at input byte 16".
Proof.
  split; [reflexivity|]. split; [|reflexivity].
  apply (decoded_image_size `"SGVsbG8sIHdvcmxkISE=" `"Hello, world!!" []).
  reflexivity.
Defined.

(** ** A write that fails half way *)

(** X16: when the device takes fewer bytes than the image has, the run
    ends with the write error, and the output path, truncated when it was
    opened, holds the bytes that were taken: what was there before is lost
    and the image is not complete. *)
Theorem failed_write_clobbers_output
        (env : Env) (outputFile respBytes imageBytes old : gostring)
        (envelope : imageEditResponse) (cap : nat) (st : State) :
  e_unmarshal env respBytes = Ok envelope ->
  main_decode envelope = Ok imageBytes ->
  fs st outputFile = Some (RegularFile old) ->
  e_openw env outputFile = None ->
  e_wcap env = Some cap ->
  cap < length imageBytes ->
  main_response env outputFile respBytes st
  = (Err (`"Error writing output file: write " ++ outputFile
           ++ `": no space left on device"),
     {| fs := fs_update (fs st) outputFile (RegularFile (firstn cap imageBytes));
        log := log st ++ [EvWriteFile outputFile imageBytes] |})
  /\ firstn cap imageBytes <> imageBytes.
Proof.
  intros Hu Hdec Hold Hopen Hcap Hlt.
  split.
  - rewrite (main_response_ok _ _ _ _ _ Hu), Hdec.
    unfold wrap, os_WriteFile, bind, tell, get_fs, emit, ret, fail, put_fs.
    cbn [fs log]. rewrite Hold, Hopen, Hcap. cbn [fs log].
    rewrite length_firstn.
    replace (Nat.min cap (length imageBytes) <? length imageBytes) with true
      by (symmetry; apply Nat.ltb_lt; lia).
    reflexivity.
  - intros H. apply (f_equal (@length ascii)) in H.
    rewrite length_firstn in H. lia.
Qed.

Lemma failed_write_clobbers_output_witness :
  let env := sampleEnv (Ok sampleAnswer) (Some 3) in
  let st := {| fs := fs_update sampleFS `"out.png" (RegularFile `"previous");
               log := [] |} in
  main_response env `"out.png" `"{}" st
  = (Err `"Error writing output file: write out.png: no space left on device",
     {| fs := fs_update (fs st) `"out.png" (RegularFile `"Hel");
        log := [EvWriteFile `"out.png" `"Hello, world!!"] |})
  /\ `"Hel" <> `"Hello, world!!".
Proof.
  intros env st.
  apply (failed_write_clobbers_output
           env `"out.png" `"{}" `"Hello, world!!" `"previous"
           sampleAnswer 3 st);
    try reflexivity.
  cbn. lia.
Defined.

(** ** [Clean] on a clean path *)

Section CleanRun.

Import filepath.

Lemma dropWhile_app_all (f : ascii -> bool) (a b : gostring) :
  forallb f a = true -> dropWhile f (a ++ b) = dropWhile f b.
Proof.
  induction a as [|x a IH]; simpl; [reflexivity|].
  rewrite andb_true_iff. intros [-> H]. now apply IH.
Qed.

Lemma startsElem_takeWhile (rest : gostring) :
  startsElem rest = true -> takeWhile notSep rest = [].
Proof.
  destruct rest as [|c t]; [reflexivity|].
  cbn [startsElem takeWhile]. unfold notSep. now intros ->.
Qed.

Lemma startsElem_dropWhile (rest : gostring) :
  startsElem rest = true -> dropWhile notSep rest = rest.
Proof.
  destruct rest as [|c t]; [reflexivity|].
  cbn [startsElem dropWhile]. unfold notSep. now intros ->.
Qed.

Lemma cleanRun_fuel fuel rooted rest out dotdot :
  length rest <= fuel ->
  clean_loop fuel rooted rest out dotdot = cleanRun rooted rest out dotdot.
Proof. intros H. apply clean_loop_fuel; [exact H | lia]. Qed.

Lemma cleanRun_nil rooted out dotdot : cleanRun rooted [] out dotdot = out.
Proof. reflexivity. Qed.

Lemma cleanRun_sep rooted rest out dotdot :
  cleanRun rooted (Separator :: rest) out dotdot = cleanRun rooted rest out dotdot.
Proof.
  unfold cleanRun. cbn [length]. rewrite clean_loop_step.
  reflexivity.
Qed.

Lemma cleanRun_dot rooted rest out dotdot :
  startsElem rest = true ->
  cleanRun rooted ("." :: rest) out dotdot = cleanRun rooted rest out dotdot.
Proof.
  intros H. unfold cleanRun. cbn [length]. rewrite clean_loop_step.
  replace (IsPathSeparator ".") with false by reflexivity.
  replace (Ascii.eqb "." ".") with true by reflexivity.
  now rewrite H.
Qed.

Lemma cleanRun_up rest out :
  startsElem rest = true ->
  cleanRun false ("." :: "." :: rest) out (length out)
  = cleanRun false rest (upAdjust out) (length (upAdjust out)).
Proof.
  intros H. unfold cleanRun. cbn [length]. rewrite clean_loop_step.
  replace (IsPathSeparator ".") with false by reflexivity.
  replace (Ascii.eqb "." ".") with true by reflexivity.
  cbn [startsElem hd tl andb].
  replace (IsPathSeparator ".") with false by reflexivity.
  rewrite H, Nat.ltb_irrefl. cbn [negb].
  apply cleanRun_fuel. lia.
Qed.

Lemma isElem_inv (e : gostring) :
  isElem e = true ->
  forallb notSep e = true
  /\ exists c0 t, e = c0 :: t
       /\ Ascii.eqb c0 "." && startsElem t = false
       /\ Ascii.eqb c0 "." && Ascii.eqb (hd "000" t) "." && startsElem (tl t) = false.
Proof.
  unfold isElem. rewrite !andb_true_iff, !negb_true_iff.
  intros (((Hne & Hns) & Hd) & Hdd).
  split; [exact Hns|].
  destruct e as [|c0 t]; [discriminate|].
  exists c0, t. split; [reflexivity|].
  cbn [forallb] in Hns. apply andb_true_iff in Hns as [_ Ht].
  destruct (Ascii.eqb c0 ".") eqn:E0; [|split; reflexivity].
  apply Ascii.eqb_eq in E0. subst c0. cbn [andb].
  destruct t as [|c1 t]; [discriminate|].
  cbn [forallb] in Ht. apply andb_true_iff in Ht as [H1 Ht].
  cbn [startsElem hd tl]. unfold notSep in H1. apply negb_true_iff in H1.
  split; [exact H1|].
  destruct (Ascii.eqb c1 ".") eqn:E1; [|reflexivity].
  apply Ascii.eqb_eq in E1. subst c1. cbn [andb].
  destruct t as [|c2 t]; [discriminate|].
  cbn [forallb] in Ht. apply andb_true_iff in Ht as [H2 _].
  cbn [startsElem]. unfold notSep in H2. now apply negb_true_iff in H2.
Qed.

(** A name is copied to the buffer, after a separator if the buffer holds
    an element. *)
Lemma cleanRun_elem rooted e rest out dotdot :
  isElem e = true ->
  startsElem rest = true ->
  cleanRun rooted (e ++ rest) out dotdot
  = cleanRun rooted rest (rev e ++ sepAdjust rooted out) dotdot.
Proof.
  intros He Hrest.
  destruct (isElem_inv e He) as (Hns & c0 & t & -> & Hd & Hdd).
  unfold cleanRun. cbn [app length]. rewrite clean_loop_step.
  assert (H0 : IsPathSeparator c0 = false).
  { cbn [forallb] in Hns. apply andb_true_iff in Hns as [H _].
    unfold notSep in H. now apply negb_true_iff in H. }
  rewrite H0.
  assert (Hst : forall u, startsElem (u ++ rest) = startsElem u
                          \/ (u = [] /\ startsElem (u ++ rest) = true)).
  { intros [|u0 u]; [right; now split | left; reflexivity]. }
  assert (Hd' : Ascii.eqb c0 "." && startsElem (t ++ rest) = false).
  { destruct (Ascii.eqb c0 "."); [|reflexivity]. cbn [andb] in *.
    destruct t; [discriminate | exact Hd]. }
  rewrite Hd'.
  assert (Hdd' : Ascii.eqb c0 "." && Ascii.eqb (hd "000" (t ++ rest)) "."
                 && startsElem (tl (t ++ rest)) = false).
  { destruct (Ascii.eqb c0 "."); [|reflexivity]. cbn [andb] in *.
    destruct t as [|c1 t]; [discriminate|].
    cbn [app hd tl] in *.
    destruct (Ascii.eqb c1 "."); [|reflexivity]. cbn [andb] in *.
    destruct t; [discriminate | exact Hdd]. }
  rewrite Hdd'.
  change (c0 :: t ++ rest) with ((c0 :: t) ++ rest).
  rewrite dropWhile_app_all, takeWhile_app_all by exact Hns.
  rewrite startsElem_takeWhile, startsElem_dropWhile, app_nil_r by exact Hrest.
  apply cleanRun_fuel.
  rewrite length_app. lia.
Qed.

End CleanRun.

Section CleanedStates.

Import filepath.

Lemma sepAdjust_cases rooted out :
  (sepAdjust rooted out = Separator :: out)
  \/ (sepAdjust rooted out = out
      /\ ((rooted = true /\ length out = 1) \/ (rooted = false /\ length out = 0))).
Proof.
  unfold sepAdjust. destruct rooted; cbn [andb orb negb].
  - destruct (length out =? 1) eqn:E; cbn [negb]; [|now left].
    apply Nat.eqb_eq in E. right. split; [reflexivity | now left].
  - destruct (length out =? 0) eqn:E; cbn [negb]; [|now left].
    apply Nat.eqb_eq in E. right. split; [reflexivity | now right].
Qed.

Lemma sepAdjust_length rooted out : length out <= length (sepAdjust rooted out).
Proof.
  destruct (sepAdjust_cases rooted out) as [-> | [-> _]]; simpl; lia.
Qed.

Lemma isElem_length (e : gostring) : isElem e = true -> 0 < length e.
Proof.
  intros H. destruct (isElem_inv e H) as (_ & c0 & t & -> & _). simpl. lia.
Qed.

Lemma Cleaned_le rooted out dotdot :
  Cleaned rooted out dotdot -> dotdot <= length out.
Proof.
  induction 1 as [| out Hr H IH | out dotdot e He H IH].
  - destruct rooted; simpl; lia.
  - lia.
  - rewrite length_app. pose proof (sepAdjust_length rooted out). lia.
Qed.

Lemma Cleaned_rooted out dotdot :
  Cleaned true out dotdot -> dotdot = 1 /\ 1 <= length out.
Proof.
  intros H. remember true as rooted eqn:Hr.
  induction H as [| out Hf H IH | out dotdot e He H IH]; subst.
  - split; [reflexivity | simpl; lia].
  - discriminate.
  - destruct IH as [-> Hl]. split; [reflexivity|].
    rewrite length_app. pose proof (sepAdjust_length true out). lia.
Qed.

(** Where no separator is due the buffer is at its start. *)
Lemma Cleaned_noadjust rooted out dotdot :
  Cleaned rooted out dotdot ->
  sepAdjust rooted out = out ->
  dotdot = length out
  /\ out = (if rooted then [Separator] else []).
Proof.
  intros H Hadj.
  destruct (sepAdjust_cases rooted out) as [Hs | [_ [[-> Hl] | [-> Hl]]]].
  - rewrite Hs in Hadj. exfalso.
    apply (f_equal (@length ascii)) in Hadj. simpl in Hadj. lia.
  - destruct (Cleaned_rooted out dotdot H) as [-> _].
    split; [lia|].
    inversion H as [Ho Hd | | out0 d0 e He H0 Ho Hd].
    + reflexivity.
    + exfalso. subst.
      pose proof (isElem_length e He).
      destruct (Cleaned_rooted out0 1 H0) as [_ Hl0].
      pose proof (sepAdjust_length true out0).
      rewrite length_app, length_rev in Hl. lia.
  - pose proof (Cleaned_le _ _ _ H). split; [lia|].
    now destruct out.
Qed.

(** Removing the last name gives the buffer it was added to. *)
Lemma back_loop_elem dotdot rooted out0 :
  Cleaned rooted out0 dotdot ->
  forall re c,
    forallb notSep (c :: re) = true ->
    back_loop dotdot c (re ++ sepAdjust rooted out0) = out0.
Proof.
  intros H0. pose proof (Cleaned_le _ _ _ H0) as Hle.
  induction re as [|c1 re IH]; intros c Hns;
    cbn [forallb] in Hns; apply andb_true_iff in Hns as [Hc Hre].
  - cbn [app].
    destruct (sepAdjust_cases rooted out0) as [Hs | [Hs _]].
    + rewrite Hs. cbn [back_loop length].
      replace (dotdot <? S (length out0)) with true
        by (symmetry; apply Nat.ltb_lt; lia).
      rewrite Hc. cbn [andb].
      destruct out0 as [|o0 out0']; cbn [back_loop];
        now rewrite andb_false_r.
    + rewrite Hs.
      destruct (Cleaned_noadjust _ _ _ H0 Hs) as [Hd _].
      destruct out0 as [|o0 out0']; cbn [back_loop]; [reflexivity|].
      replace (dotdot <? length (o0 :: out0')) with false
        by (symmetry; apply Nat.ltb_ge; lia).
      reflexivity.
  - cbn [app back_loop length].
    replace (dotdot <? S (length (re ++ sepAdjust rooted out0))) with true.
    + rewrite Hc. cbn [andb]. apply IH. exact Hre.
    + symmetry. apply Nat.ltb_lt. rewrite length_app.
      pose proof (sepAdjust_length rooted out0). lia.
Qed.

Lemma Cleaned_backtrack rooted out dotdot :
  Cleaned rooted out dotdot ->
  dotdot < length out ->
  Cleaned rooted (backtrack dotdot out) dotdot.
Proof.
  intros H Hlt.
  inversion H as [Ho Hd | out0 Hr H0 Ho Hd | out0 d0 e He H0 Ho Hd]; subst.
  - destruct rooted; simpl in Hlt; lia.
  - lia.
  - destruct (isElem_inv e He) as (Hns & _).
    pose proof (isElem_length e He) as Hl.
    destruct (rev e) as [|c re] eqn:Hrev.
    + apply (f_equal (@length ascii)) in Hrev.
      rewrite length_rev in Hrev. simpl in Hrev. lia.
    + cbn [app backtrack].
      rewrite (back_loop_elem dotdot rooted out0 H0 re c); [exact H0|].
      rewrite <- Hrev, forallb_rev. exact Hns.
Qed.

Lemma isElem_intro (e : gostring) :
  e <> [] -> forallb notSep e = true -> e <> ["."] -> e <> ["."; "."] ->
  isElem e = true.
Proof.
  intros Hne Hns Hd Hdd. unfold isElem. rewrite Hns.
  destruct e as [|c0 t]; [contradiction|]. cbn [isEmpty negb andb].
  destruct (bytes_eqb (c0 :: t) `".") eqn:E1;
    [apply bytes_eqb_eq in E1; contradiction|].
  destruct (bytes_eqb (c0 :: t) `"..") eqn:E2;
    [apply bytes_eqb_eq in E2; contradiction|].
  reflexivity.
Qed.

Lemma takeWhile_nil_startsElem (t : gostring) :
  takeWhile notSep t = [] -> startsElem t = true.
Proof.
  destruct t as [|c t]; [reflexivity|].
  cbn [takeWhile startsElem]. unfold notSep.
  destruct (IsPathSeparator c); [reflexivity | discriminate].
Qed.

(** What the loop copies as a name is one. *)
Lemma takeWhile_isElem (c : ascii) (t : gostring) :
  IsPathSeparator c = false ->
  Ascii.eqb c "." && startsElem t = false ->
  Ascii.eqb c "." && Ascii.eqb (hd "000" t) "." && startsElem (tl t) = false ->
  isElem (takeWhile notSep (c :: t)) = true.
Proof.
  intros Hc Hd Hdd.
  assert (He : takeWhile notSep (c :: t) = c :: takeWhile notSep t)
    by (cbn [takeWhile]; unfold notSep at 1; now rewrite Hc).
  apply isElem_intro.
  - rewrite He. discriminate.
  - apply takeWhile_forallb.
  - rewrite He. intros H. injection H as -> Ht.
    apply takeWhile_nil_startsElem in Ht. rewrite Ht in Hd. discriminate.
  - rewrite He. intros H. injection H as -> Ht.
    destruct t as [|c1 t]; [discriminate|].
    cbn [takeWhile] in Ht. destruct (notSep c1); [|discriminate].
    injection Ht as -> Ht.
    apply takeWhile_nil_startsElem in Ht.
    cbn [hd tl] in Hdd. rewrite Ht in Hdd. discriminate.
Qed.

(** The loop goes from state to state. *)
Lemma clean_loop_Cleaned :
  forall fuel rooted rest out dotdot,
    Cleaned rooted out dotdot ->
    exists dotdot', Cleaned rooted (clean_loop fuel rooted rest out dotdot) dotdot'.
Proof.
  induction fuel as [|fuel IH]; intros rooted rest out dotdot H.
  - exists dotdot. exact H.
  - destruct rest as [|c t]; [exists dotdot; exact H|].
    rewrite clean_loop_step.
    destruct (IsPathSeparator c) eqn:Hc; [now apply IH|].
    destruct (Ascii.eqb c "." && startsElem t) eqn:Hd; [now apply IH|].
    destruct (Ascii.eqb c "." && Ascii.eqb (hd "000" t) "." && startsElem (tl t))
      eqn:Hdd.
    + destruct (dotdot <? length out) eqn:Hlt.
      * apply IH. apply Cleaned_backtrack; [exact H|].
        now apply Nat.ltb_lt.
      * apply Nat.ltb_ge in Hlt. pose proof (Cleaned_le _ _ _ H) as Hle.
        assert (dotdot = length out) by lia. subst dotdot.
        destruct rooted; cbn [negb]; [now apply IH|].
        apply IH. now apply (Cleaned_up false out).
    + apply IH.
      exact (Cleaned_elem rooted out dotdot _
                          (takeWhile_isElem c t Hc Hd Hdd) H).
Qed.

End CleanedStates.

Section CleanReplay.

Import filepath.

(** Cleaning the text of a buffer leads back to the buffer. *)
Lemma cleanRun_replay rooted out dotdot :
  Cleaned rooted out dotdot ->
  forall rest,
    startsElem rest = true ->
    cleanRun rooted (rev out ++ rest)
             (if rooted then [Separator] else []) (if rooted then 1 else 0)
    = cleanRun rooted rest out dotdot.
Proof.
  induction 1 as [| out Hr H IH | out dotdot e He H IH]; intros rest Hrest.
  - destruct rooted; [apply cleanRun_sep | reflexivity].
  - subst rooted. unfold upAdjust.
    destruct out as [|o out1].
    + exact (cleanRun_up rest [] Hrest).
    + cbn [length Nat.ltb Nat.leb].
      replace (rev ("." :: "." :: Separator :: o :: out1) ++ rest)
        with (rev (o :: out1) ++ Separator :: "." :: "." :: rest)
        by (cbn [rev]; now rewrite <- !app_assoc).
      rewrite IH by reflexivity.
      rewrite cleanRun_sep.
      exact (cleanRun_up rest (o :: out1) Hrest).
  - rewrite rev_app_distr, rev_involutive, <- app_assoc.
    destruct (sepAdjust_cases rooted out) as [Hs | [Hs _]].
    + rewrite Hs. cbn [rev]. rewrite <- app_assoc. cbn [app].
      rewrite IH by reflexivity.
      rewrite cleanRun_sep, cleanRun_elem by assumption.
      now rewrite Hs.
    + destruct (Cleaned_noadjust _ _ _ H Hs) as [Hd Ho].
      rewrite Hs. rewrite Ho in *. subst dotdot.
      destruct rooted.
      * cbn [rev app]. rewrite cleanRun_sep, cleanRun_elem by assumption.
        now rewrite Hs.
      * cbn [rev app]. rewrite cleanRun_elem by assumption.
        now rewrite Hs.
Qed.

(** The first byte of a buffer tells whether the path is rooted. *)
Lemma Cleaned_head rooted out dotdot :
  Cleaned rooted out dotdot ->
  out <> [] ->
  exists c t, rev out = c :: t /\ IsPathSeparator c = rooted.
Proof.
  induction 1 as [| out Hr H IH | out dotdot e He H IH]; intros Hne.
  - destruct rooted; [|contradiction]. now exists Separator, [].
  - subst rooted. unfold upAdjust.
    destruct out as [|o out1].
    + now exists ".", ["."].
    + destruct (IH ltac:(discriminate)) as (c & t & Hrev & Hc).
      cbn [length Nat.ltb Nat.leb].
      replace (rev ("." :: "." :: Separator :: o :: out1))
        with (rev (o :: out1) ++ [Separator; "."; "."])
        by (cbn [rev]; now rewrite <- !app_assoc).
      rewrite Hrev. now exists c, (t ++ [Separator; "."; "."]).
  - rewrite rev_app_distr, rev_involutive.
    destruct (sepAdjust_cases rooted out) as [Hs | [Hs _]].
    + assert (Ho : out <> []).
      { intros ->. destruct rooted.
        - destruct (Cleaned_rooted _ _ H) as [_ Hl]. simpl in Hl. lia.
        - discriminate. }
      destruct (IH Ho) as (c & t & Hrev & Hc).
      rewrite Hs. cbn [rev]. rewrite Hrev.
      now exists c, ((t ++ [Separator]) ++ e).
    + destruct (Cleaned_noadjust _ _ _ H Hs) as [_ Ho].
      rewrite Hs, Ho.
      destruct rooted.
      * now exists Separator, e.
      * destruct (isElem_inv e He) as (Hns & c0 & t & -> & _).
        exists c0, t. split; [reflexivity|].
        cbn [forallb] in Hns. apply andb_true_iff in Hns as [Hc _].
        unfold notSep in Hc. now apply negb_true_iff in Hc.
Qed.

Lemma IsPathSeparator_eq (c : ascii) : IsPathSeparator c = true -> c = Separator.
Proof. unfold IsPathSeparator. apply Ascii.eqb_eq. Qed.

(** [Clean] on the text of a buffer and more. *)
Lemma Clean_Cleaned rooted out dotdot rest :
  Cleaned rooted out dotdot ->
  out <> [] ->
  startsElem rest = true ->
  Clean (rev out ++ rest) = cleanFinish (cleanRun rooted rest out dotdot).
Proof.
  intros H Hne Hrest.
  destruct (Cleaned_head _ _ _ H Hne) as (c & t & Hrev & Hc).
  rewrite <- (cleanRun_replay _ _ _ H rest Hrest).
  rewrite Hrev. cbn [app]. unfold Clean, cleanFinish. rewrite Hc.
  destruct rooted.
  - apply IsPathSeparator_eq in Hc. subst c.
    rewrite cleanRun_sep, cleanRun_fuel by (simpl; lia).
    reflexivity.
  - reflexivity.
Qed.

(** [Clean] ends in a state of its loop. *)
Lemma Clean_state (path : gostring) :
  exists rooted out dotdot,
    Cleaned rooted out dotdot /\ Clean path = cleanFinish out.
Proof.
  destruct path as [|c t].
  - exists false, [], 0. split; [apply (Cleaned_start false) | reflexivity].
  - unfold Clean.
    destruct (IsPathSeparator c).
    + destruct (clean_loop_Cleaned (length (c :: t)) true t [Separator] 1
                                   (Cleaned_start true)) as [dd H].
      exists true. eexists. exists dd. split; [exact H | reflexivity].
    + destruct (clean_loop_Cleaned (length (c :: t)) false (c :: t) [] 0
                                   (Cleaned_start false)) as [dd H].
      exists false. eexists. exists dd. split; [exact H | reflexivity].
Qed.

Lemma Cleaned_not_dot rooted dotdot : ~ Cleaned rooted ["."] dotdot.
Proof.
  intros H.
  inversion H as [Ho Hd | out0 Hr H0 Ho Hd | out0 d0 e He H0 Ho Hd].
  - destruct rooted; discriminate.
  - pose proof (isElem_length e He) as Hl.
    assert (Hlen : length (rev e ++ sepAdjust rooted out0) = 1) by now rewrite Ho.
    rewrite length_app, length_rev in Hlen.
    assert (Hadj : sepAdjust rooted out0 = [])
      by (destruct (sepAdjust rooted out0); [reflexivity | simpl in Hlen; lia]).
    rewrite Hadj, app_nil_r in Ho.
    assert (He1 : e = ["."]) by (rewrite <- (rev_involutive e), Ho; reflexivity).
    rewrite He1 in He. discriminate.
Qed.

Lemma cleanRun_seps rooted seps rest out dotdot :
  forallb IsPathSeparator seps = true ->
  cleanRun rooted (seps ++ rest) out dotdot = cleanRun rooted rest out dotdot.
Proof.
  induction seps as [|s seps IH]; [reflexivity|].
  cbn [forallb app]. rewrite andb_true_iff. intros [Hs Hseps].
  apply IsPathSeparator_eq in Hs. subst s.
  rewrite cleanRun_sep. now apply IH.
Qed.

Lemma cleanFinish_elem (c : gostring) (out : list ascii) :
  isElem c = true -> cleanFinish (rev c ++ out) = rev out ++ c.
Proof.
  intros Hc. pose proof (isElem_length c Hc) as Hl. unfold cleanFinish.
  replace (length (rev c ++ out) =? 0) with false
    by (symmetry; apply Nat.eqb_neq; rewrite length_app, length_rev; lia).
  now rewrite rev_app_distr, rev_involutive.
Qed.

(** What [Join] makes of a clean directory and a name, and where [Dir]
    finds the directory again. *)
Lemma Clean_join_elem (path seps c : gostring) :
  isElem c = true ->
  forallb IsPathSeparator seps = true ->
  Clean (Clean path ++ Separator :: seps ++ c) = dirPrefix (Clean path) ++ c
  /\ Clean (dirPrefix (Clean path)) = Clean path.
Proof.
  intros Hc Hseps.
  destruct (Clean_state path) as (rooted & out & dd & H & ->).
  assert (Hrun : forall r o d,
             cleanRun r (Separator :: seps ++ c) o d = rev c ++ sepAdjust r o).
  { intros r o d. rewrite cleanRun_sep, cleanRun_seps by exact Hseps.
    rewrite <- (app_nil_r c) at 1.
    now rewrite cleanRun_elem, cleanRun_nil by (assumption || reflexivity). }
  destruct out as [|o0 out'].
  - (* the directory is the dot *)
    assert (rooted = false) as ->.
    { destruct rooted; [|reflexivity].
      destruct (Cleaned_rooted _ _ H) as [_ Hl]. simpl in Hl. lia. }
    change (cleanFinish []) with ["."]. split; [|reflexivity].
    change (dirPrefix ["."]) with (@nil ascii).
    cbn [app]. unfold Clean.
    replace (IsPathSeparator ".") with false by reflexivity.
    rewrite cleanRun_fuel by lia.
    rewrite cleanRun_dot by reflexivity.
    rewrite Hrun.
    change (rev (if length (rev c ++ sepAdjust false []) =? 0
                 then ["."] else rev c ++ sepAdjust false []))
      with (cleanFinish (rev c ++ [])).
    now rewrite cleanFinish_elem.
  - assert (Hd : cleanFinish (o0 :: out') = rev (o0 :: out')) by reflexivity.
    rewrite Hd.
    rewrite (Clean_Cleaned rooted (o0 :: out') dd _ H) by (discriminate || reflexivity).
    rewrite Hrun, cleanFinish_elem by exact Hc.
    destruct (sepAdjust_cases rooted (o0 :: out')) as [Hs | [Hs _]].
    + assert (Hpre : dirPrefix (rev (o0 :: out')) = rev (o0 :: out') ++ [Separator]).
      { unfold dirPrefix.
        destruct (bytes_eqb (rev (o0 :: out')) `".") eqn:E1.
        - apply bytes_eqb_eq in E1.
          apply (f_equal (@rev ascii)) in E1. rewrite rev_involutive in E1.
          rewrite E1 in H. now apply Cleaned_not_dot in H.
        - destruct (bytes_eqb (rev (o0 :: out')) [Separator]) eqn:E2; [|reflexivity].
          apply bytes_eqb_eq in E2.
          apply (f_equal (@rev ascii)) in E2. rewrite rev_involutive in E2.
          cbn [rev app] in E2. exfalso.
          destruct (Cleaned_head _ _ _ H ltac:(discriminate)) as (c1 & t1 & Hr1 & Hc1).
          rewrite E2 in Hr1, Hs. cbn [rev app] in Hr1. injection Hr1 as <- <-.
          subst rooted. discriminate. }
      rewrite Hpre, Hs.
      change (rev (Separator :: o0 :: out')) with (rev (o0 :: out') ++ [Separator]).
      split; [reflexivity|].
      rewrite (Clean_Cleaned rooted (o0 :: out') dd [Separator] H)
        by (discriminate || reflexivity).
      now rewrite cleanRun_sep, cleanRun_nil.
    + destruct (Cleaned_noadjust _ _ _ H Hs) as [_ Ho].
      destruct rooted; [|discriminate].
      rewrite Hs, Ho. split; reflexivity.
Qed.

End CleanReplay.

Lemma Dir_prefix (pre c : gostring) :
  forallb filepath.notSep c = true ->
  filepath.startsElem (rev pre) = true ->
  filepath.Dir (pre ++ c) = filepath.Clean pre.
Proof.
  intros Hc Hpre. unfold filepath.Dir.
  rewrite rev_app_distr, dropWhile_app_all by now rewrite forallb_rev.
  now rewrite startsElem_dropWhile, rev_involutive.
Qed.

Lemma dirPrefix_ends (dir : gostring) :
  filepath.startsElem (rev (dirPrefix dir)) = true.
Proof.
  unfold dirPrefix.
  destruct (bytes_eqb dir `"."); [reflexivity|].
  destruct (bytes_eqb dir [filepath.Separator]); [reflexivity|].
  now rewrite rev_app_distr.
Qed.

(** The derived path in closed form: [Join] of a clean directory and a
    name. *)
Lemma deriveOutputPath_join (input stem : gostring) :
  filepath.Base input = stem ++ filepath.Ext input ->
  deriveOutputPath input
  = dirPrefix (filepath.Dir input)
      ++ (if bytes_eqb (filepath.Base input) [filepath.Separator]
          then [] else stem)
      ++ generatedSuffix ++ filepath.Ext input
  /\ filepath.Dir (deriveOutputPath input) = filepath.Dir input.
Proof.
  intros Hb.
  destruct (deriveOutputPath_last input stem Hb) as (Hns & _).
  set (c := (if bytes_eqb (filepath.Base input) [filepath.Separator]
             then [] else stem) ++ generatedSuffix ++ filepath.Ext input) in *.
  assert (Hlen : 10 <= length c)
    by (unfold c; rewrite !length_app; simpl; lia).
  assert (Hc : isElem c = true).
  { apply isElem_intro; [| exact Hns | |];
      intros H; rewrite H in Hlen; simpl in Hlen; lia. }
  assert (Hjoin : exists seps,
             forallb filepath.IsPathSeparator seps = true
             /\ deriveOutputPath input
                = filepath.Clean (filepath.Dir input
                                    ++ filepath.Separator :: seps ++ c)).
  { rewrite (deriveOutputPath_eq _ _ Hb).
    rewrite Join_dir by apply Clean_nonempty.
    destruct (bytes_eqb (filepath.Base input) [filepath.Separator]) eqn:E.
    - apply bytes_eqb_eq in E. rewrite E in Hb.
      pose proof (Ext_noSep input) as He.
      destruct stem as [|s0 stem'].
      + simpl in Hb. rewrite <- Hb in He. discriminate.
      + injection Hb as <- Hb.
        symmetry in Hb. apply app_eq_nil in Hb as [-> Hext].
        exists [filepath.Separator]. split; [reflexivity|].
        unfold c. reflexivity.
    - exists []. split; reflexivity. }
  destruct Hjoin as (seps & Hseps & Hout).
  destruct (Clean_join_elem (rev (dropWhile filepath.notSep (rev input)))
                            seps c Hc Hseps) as [Hclean Hdir].
  change (filepath.Clean (rev (dropWhile filepath.notSep (rev input))))
    with (filepath.Dir input) in Hclean, Hdir.
  rewrite Hout, Hclean. split; [reflexivity|].
  rewrite (Dir_prefix _ c Hns (dirPrefix_ends _)).
  exact Hdir.
Qed.

